(** * GitPanic: the safety-checked, reversible recovery core

    A shallow embedding of the TypeScript sources
      - [src/core/actionHistory.ts]   (the action history ledger),
      - [src/core/safetyChecks.ts]    (the safety evaluator),
      - [src/commands/moveCommits.ts], [src/commands/undoCommit.ts] and the
        commands [recoverBranch] and [abortOperation] (the compound operations),
    and the properties of the specification proved about them.

    JavaScript objects that are shared by reference (a [RecordedAction] is
    held by [this.actions] and by the caller's handle at the same time) live
    in an explicit heap; [async] functions run to completion one after the
    other, so every function is a state transformer that may throw. *)

From Stdlib Require Import ZArith Lia Bool Ascii String.
From stdpp Require Import base list strings pretty.

Local Open Scope string_scope.
Local Open Scope Z_scope.
Local Open Scope nat_scope.
Local Open Scope list_scope.

(** ** JavaScript strings and arrays *)

Module JS.

(** [s.includes(sub)] *)
Fixpoint includes (s sub : string) : bool :=
  String.prefix sub s
  || match s with
     | EmptyString => false
     | String _ rest => includes rest sub
     end.

(** [s.substring(0, n)] *)
Definition substring0 (n : nat) (s : string) : string := String.substring 0 n s.

(** [arr.slice(start)] for an integral [start]: a negative [start] counts
    from the end, and both ends are clamped to the array. *)
Definition slice_from {A} (start : Z) (arr : list A) : list A :=
  let len := Z.of_nat (length arr) in
  let k := if (start <? 0)%Z then Z.max (len + start) 0 else Z.min start len in
  drop (Z.to_nat k) arr.

(** [arr.includes(x)] on an array of strings *)
Definition array_includes (arr : list string) (x : string) : bool :=
  existsb (String.eqb x) arr.

(** [arr.join(sep)] *)
Fixpoint join (sep : string) (arr : list string) : string :=
  match arr with
  | [] => EmptyString
  | [x] => x
  | x :: rest => x +:+ sep +:+ join sep rest
  end.

(** the line feed of a template literal *)
Definition nl : string := String (ascii_of_nat 10) EmptyString.

(** the double quote of a template literal *)
Definition quote : string := String (ascii_of_nat 34) EmptyString.

(** [`${n}`] for a non-negative integer *)
Definition show (n : nat) : string := pretty n.

End JS.

(** ** The data model *)

(** [ActionType] of actionHistory.ts *)
Inductive ActionType :=
| undo_commit | amend_message | amend_commit | move_commits | recover_branch | create_branch.

Record RepoPosition := { headHash : string; branch : option string }.

(** [RecordedAction]; the timestamp is kept as milliseconds. *)
Record RecordedAction := {
  id : string;
  type : ActionType;
  timestamp : Z;
  description : string;
  beforeState : RepoPosition;
  afterState : option RepoPosition;
  undoCommand : option string;
  canUndo : bool
}.

Definition with_after (p : RepoPosition) (a : RecordedAction) : RecordedAction :=
  {| id := id a; type := type a; timestamp := timestamp a; description := description a;
     beforeState := beforeState a; afterState := Some p;
     undoCommand := undoCommand a; canUndo := canUndo a |}.

Definition with_undoCommand (c : string) (a : RecordedAction) : RecordedAction :=
  {| id := id a; type := type a; timestamp := timestamp a; description := description a;
     beforeState := beforeState a; afterState := afterState a;
     undoCommand := Some c; canUndo := canUndo a |}.

Definition with_canUndo (b : bool) (a : RecordedAction) : RecordedAction :=
  {| id := id a; type := type a; timestamp := timestamp a; description := description a;
     beforeState := beforeState a; afterState := afterState a;
     undoCommand := undoCommand a; canUndo := b |}.

(** A commit as the git wrapper reports it. *)
Record Commit := {
  hash : string;
  message : string;
  author : string;
  date : string
}.

Record ReflogEntry := { entry_hash : string; entry_message : string }.

Inductive ResetMode := soft | mixed | hard.

Inductive OngoingOperation := merge | rebase | cherry_pick | bisect.

(** [SafetyCheckResult] of safetyChecks.ts *)
Record SafetyCheckResult := {
  safe : bool;
  warnings : list string;
  blockers : list string
}.

(** ** The git wrapper *)

(** A call of a mutating primitive of the wrapper, with its arguments. *)
Inductive GitCall :=
| SoftReset (ref : string)
| MixedReset (ref : string)
| HardReset (ref : string)
| CherryPick (h : string)
| CheckoutBranch (name : option string)
| CheckoutNewBranch (name startPoint : string)
| ContinueMerge
| ContinueRebase
| ContinueCherryPick.

(** Modelled from the spec: [src/core/gitWrapper.ts], the module behind
    [getGitWrapper()], is not among the sources, so the wrapper is an
    interface over an abstract repository [G]. Its queries are read-only and
    never throw (spec 4.1); its mutating primitives may throw an [Error]
    carrying a message (spec 7), and a primitive that throws may still have
    changed the repository (a conflicted cherry-pick leaves the conflict in
    the working tree). *)
Class GitWrapper (G : Type) := {
  getHeadHash : G -> string;
  getCurrentBranch : G -> option string;
  getRecentCommits : nat -> G -> list Commit;
  getLastCommit : G -> option Commit;
  hasUncommittedChanges : G -> bool;
  isPushed : string -> G -> bool;
  getBranches : G -> list string;
  (** a mutating primitive: the repository it leaves, and the message of the
      [Error] it throws, if it throws *)
  primitive : GitCall -> G -> G * option string
}.

(** [generateId()] and [new Date()], as functions of the number of records
    created so far: the clock and the random source are outside the code. *)
Class Clock := {
  generateId : nat -> string;
  dateNow : nat -> Z
}.

(** One call of a mutating primitive, with whether it returned normally. *)
Record Event := { call : GitCall; returned : bool }.

(** What the user is shown through [vscode.window]. *)
Inductive Notification :=
| InformationMessage (text : string)
| WarningMessage (text : string)
| ErrorMessage (text : string).

(** ** The command [recoverBranch]: the scan of the reflog

    A string is a sequence of code units below 256; the white space of the
    regular expression class [\s] in that range is tab, line feed, vertical
    tab, form feed, carriage return, space and the no-break space. *)

Definition isWhiteSpace (c : ascii) : bool :=
  let n := nat_of_ascii c in
  ((9 <=? n) && (n <=? 13)) || (n =? 32) || (n =? 160).

(** The longest run of non-white-space at the start of a string, and the
    rest of the string. *)
Fixpoint spanNonSpace (s : string) : string * string :=
  match s with
  | EmptyString => (EmptyString, EmptyString)
  | String c rest =>
      if isWhiteSpace c then (EmptyString, s)
      else let '(run, tail) := spanNonSpace rest in (String c run, tail)
  end.

(** [s] without the prefix [p], when it starts with it *)
Fixpoint stripPrefix (p s : string) : option string :=
  match p, s with
  | EmptyString, _ => Some s
  | String a p', String b s' => if Ascii.eqb a b then stripPrefix p' s' else None
  | String _ _, EmptyString => None
  end.

(** [/checkout: moving from (\S+) to (\S+)/] tried at the start of [s].
    The space after each group is white space, so a group can only stop at
    the end of its run: the greedy choice is the only one that can match. *)
Definition matchMoveAt (s : string) : option (string * string) :=
  match stripPrefix "checkout: moving from " s with
  | None => None
  | Some afterFrom =>
      let '(from, rest) := spanNonSpace afterFrom in
      if String.eqb from EmptyString then None
      else match stripPrefix " to " rest with
           | None => None
           | Some afterTo =>
               let '(to, _) := spanNonSpace afterTo in
               if String.eqb to EmptyString then None else Some (from, to)
           end
  end.

(** [message.match(/checkout: moving from (\S+) to (\S+)/)]: the leftmost
    position at which the expression matches; the result is the two groups. *)
Fixpoint matchMove (s : string) : option (string * string) :=
  match matchMoveAt s with
  | Some groups => Some groups
  | None => match s with
            | EmptyString => None
            | String _ rest => matchMove rest
            end
  end.

Record BranchMove := {
  fromBranch : string;
  toBranch : string;
  move_hash : string;
  move_message : string
}.

(** [reflog.filter(...).map(...).filter(entry => entry !== null)] *)
Definition branchMoves (reflog : list ReflogEntry) : list BranchMove :=
  omap (fun entry =>
          match matchMove (entry_message entry) with
          | Some (from, to) =>
              Some {| fromBranch := from; toBranch := to;
                      move_hash := entry_hash entry; move_message := entry_message entry |}
          | None => None
          end)
       (List.filter (fun entry => JS.includes (entry_message entry) "checkout: moving from")
                    reflog).

Definition hexDigit (c : ascii) : bool :=
  let n := nat_of_ascii c in
  ((48 <=? n) && (n <=? 57)) || ((97 <=? n) && (n <=? 102)).

(** [/^[0-9a-f]{7,40}$/] *)
Definition isBareHash (s : string) : bool :=
  (7 <=? String.length s) && (String.length s <=? 40)
  && forallb hexDigit (list_ascii_of_string s).

(** A JavaScript [Map] with string keys: the entries in insertion order. *)
Definition JsMap (V : Type) : Type := list (string * V).

Definition map_has {V} (m : JsMap V) (k : string) : bool :=
  existsb (fun kv => String.eqb (fst kv) k) m.

Fixpoint map_get {V} (m : JsMap V) (k : string) : option V :=
  match m with
  | [] => None
  | (k', v) :: rest => if String.eqb k' k then Some v else map_get rest k
  end.

(** [m.set(k, v)]: an existing key keeps its place, a new one goes last *)
Fixpoint map_set {V} (m : JsMap V) (k : string) (v : V) : JsMap V :=
  match m with
  | [] => [(k, v)]
  | (k', v') :: rest => if String.eqb k' k then (k', v) :: rest else (k', v') :: map_set rest k v
  end.

(** the body of the loop over [branchMoves] *)
Definition noteMove (existingBranches : list string) (deleted : JsMap (string * string))
    (move : BranchMove) : JsMap (string * string) :=
  if negb (JS.array_includes existingBranches (fromBranch move))
     && negb (map_has deleted (fromBranch move))
  then
    if negb (String.eqb (fromBranch move) "HEAD") && negb (isBareHash (fromBranch move))
    then map_set deleted (fromBranch move) (move_hash move, move_message move)
    else deleted
  else deleted.

(** [deletedBranches] as [recoverBranch] builds it from [getReflog(100)] and
    [getBranches().all]: name to (hash, message). *)
Definition deletedBranches (reflog : list ReflogEntry) (existingBranches : list string)
  : JsMap (string * string) :=
  foldl (noteMove existingBranches) [] (branchMoves reflog).

(** ** The world the extension runs in, and its effects *)

(** The outcome of a computation: it returns a value or throws an [Error]
    with a message. *)
Inductive Outcome (A : Type) :=
| Returned (a : A)
| Thrown (msg : string).
Arguments Returned {A} a.
Arguments Thrown {A} msg.

Section Effects.

Context {G : Type}.

Record World := {
  git : G;                                   (* the repository on disk *)
  calls : list Event;                        (* mutating primitives issued, oldest first *)
  notes : list Notification;                 (* messages shown, oldest first *)
  heap : list RecordedAction;                (* every RecordedAction object ever created *)
  actions : list nat;                        (* this.actions: references into the heap *)
  context : bool;                            (* this.context !== null *)
  workspaceState : option (list RecordedAction);   (* the persisted log, by value *)
  maxActionHistory : Z                       (* getConfig().maxActionHistory *)
}.

Definition set_git (g : G) (w : World) : World :=
  {| git := g; calls := calls w; notes := notes w; heap := heap w; actions := actions w;
     context := context w; workspaceState := workspaceState w;
     maxActionHistory := maxActionHistory w |}.

Definition add_call (e : Event) (w : World) : World :=
  {| git := git w; calls := calls w ++ [e]; notes := notes w; heap := heap w;
     actions := actions w; context := context w; workspaceState := workspaceState w;
     maxActionHistory := maxActionHistory w |}.

Definition add_note (n : Notification) (w : World) : World :=
  {| git := git w; calls := calls w; notes := notes w ++ [n]; heap := heap w;
     actions := actions w; context := context w; workspaceState := workspaceState w;
     maxActionHistory := maxActionHistory w |}.

Definition set_heap (h : list RecordedAction) (w : World) : World :=
  {| git := git w; calls := calls w; notes := notes w; heap := h; actions := actions w;
     context := context w; workspaceState := workspaceState w;
     maxActionHistory := maxActionHistory w |}.

Definition set_actions (l : list nat) (w : World) : World :=
  {| git := git w; calls := calls w; notes := notes w; heap := heap w; actions := l;
     context := context w; workspaceState := workspaceState w;
     maxActionHistory := maxActionHistory w |}.

Definition set_context (b : bool) (w : World) : World :=
  {| git := git w; calls := calls w; notes := notes w; heap := heap w; actions := actions w;
     context := b; workspaceState := workspaceState w;
     maxActionHistory := maxActionHistory w |}.

Definition set_workspaceState (s : option (list RecordedAction)) (w : World) : World :=
  {| git := git w; calls := calls w; notes := notes w; heap := heap w; actions := actions w;
     context := context w; workspaceState := s;
     maxActionHistory := maxActionHistory w |}.

(** A computation either returns a value or throws; the world it leaves
    is kept in both cases. *)
Definition M (A : Type) : Type := World -> Outcome A * World.

Definition ret {A} (a : A) : M A := fun w => (Returned a, w).

Definition bind {A B} (m : M A) (k : A -> M B) : M B :=
  fun w => match m w with
           | (Returned a, w') => k a w'
           | (Thrown e, w') => (Thrown e, w')
           end.

Definition throw {A} (msg : string) : M A := fun w => (Thrown msg, w).

(** [try { m } catch (error) { handler(error.message) }] *)
Definition try_catch {A} (m : M A) (handler : string -> M A) : M A :=
  fun w => match m w with
           | (Returned a, w') => (Returned a, w')
           | (Thrown e, w') => handler e w'
           end.

Definition gets {A} (f : World -> A) : M A := fun w => (Returned (f w), w).
Definition modify (f : World -> World) : M unit := fun w => (Returned tt, f w).

End Effects.

Arguments World G : clear implicits.
Arguments M G A : clear implicits.

Notation "x <- m ;; k" := (bind m (fun x => k))
  (at level 100, m at next level, right associativity).
Notation "m ;;; k" := (bind m (fun _ => k))
  (at level 100, right associativity).

Section Extension.

Context {G : Type} {gitWrapper : GitWrapper G} {clock : Clock}.

(** A read-only query of the wrapper. *)
Definition query {A} (q : G -> A) : M G A := gets (fun w => q (git w)).

(** A mutating primitive of the wrapper: the call is logged, the repository
    becomes what the primitive leaves, and its error, if any, is thrown. *)
Definition git_do (c : GitCall) : M G unit :=
  fun w =>
    let '(g', err) := primitive c (git w) in
    match err with
    | None => (Returned tt, add_call {| call := c; returned := true |} (set_git g' w))
    | Some e => (Thrown e, add_call {| call := c; returned := false |} (set_git g' w))
    end.

(** ** ui/notifications.ts *)

Definition showSuccess (message : string) : M G unit :=
  modify (add_note (InformationMessage ("✓ " +:+ message))).

Definition showError (message : string) : M G unit :=
  modify (add_note (ErrorMessage ("✗ Git Panic: " +:+ message))).

Definition showWarning (message : string) : M G unit :=
  modify (add_note (WarningMessage ("⚠ " +:+ message))).

(** ** core/actionHistory.ts *)

(** the object a handle refers to *)
Definition deref (w : World G) (a : nat) : option RecordedAction := heap w !! a.

(** the records of [this.actions], by value, oldest first *)
Definition history (w : World G) : list RecordedAction :=
  omap (deref w) (actions w).

(** [saveToStorage]: without a context nothing happens; otherwise
    [this.actions] is cut to [slice(-maxActionHistory)] and written out. *)
Definition saveToStorage : M G unit :=
  fun w =>
    if negb (context w) then (Returned tt, w)
    else
      let trimmedActions := JS.slice_from (- maxActionHistory w)%Z (actions w) in
      let w1 := set_actions trimmedActions w in
      (Returned tt, set_workspaceState (Some (history w1)) w1).

(** [loadFromStorage]: the stored records become fresh objects. *)
Definition loadFromStorage : M G unit :=
  fun w =>
    if negb (context w) then (Returned tt, w)
    else match workspaceState w with
         | Some stored =>
             (Returned tt,
              set_actions (seq (length (heap w)) (length stored))
                          (set_heap (heap w ++ stored) w))
         | None => (Returned tt, w)
         end.

Definition initialize : M G unit :=
  modify (set_context true) ;;; loadFromStorage.

(** the object literal of [recordAction] *)
Definition openRecord (w : World G) (ty : ActionType) (desc : string) (undoable : bool)
  : RecordedAction :=
  {| id := generateId (length (heap w)); type := ty; timestamp := dateNow (length (heap w));
     description := desc;
     beforeState := {| headHash := getHeadHash (git w); branch := getCurrentBranch (git w) |};
     afterState := None; undoCommand := None; canUndo := undoable |}.

(** [recordAction]: a new object with only [beforeState] filled in is
    pushed on [this.actions]; the handle returned is that same object. *)
Definition recordAction (ty : ActionType) (desc : string) (undoable : bool) : M G nat :=
  fun w =>
    let n := length (heap w) in
    let action := openRecord w ty desc undoable in
    (Returned n, set_actions (actions w ++ [n]) (set_heap (heap w ++ [action]) w)).

(** the body of [completeAction] on the object itself *)
Definition complete (after : RepoPosition) (a : RecordedAction) : RecordedAction :=
  let a1 := with_after after a in
  if canUndo a1 && negb (String.eqb (headHash (beforeState a1)) (headHash after))
  then with_undoCommand ("git reset --hard " +:+ headHash (beforeState a1)) a1
  else a1.

(** [completeAction(action)]: the object behind the handle is updated in
    place, whether or not [this.actions] still holds it. *)
Definition completeAction (action : nat) : M G unit :=
  (fun w =>
     let after := {| headHash := getHeadHash (git w);
                     branch := getCurrentBranch (git w) |} in
     match deref w action with
     | Some a => (Returned tt, set_heap (<[action := complete after a]> (heap w)) w)
     | None => (Returned tt, w)
     end) ;;;
  saveToStorage.

(** [a.canUndo && a.undoCommand] as a condition: the command must be
    present and not the empty string. *)
Definition undoable (a : RecordedAction) : bool :=
  canUndo a && match undoCommand a with
               | Some c => negb (String.eqb c EmptyString)
               | None => false
               end.

Definition undoable_ref (w : World G) (r : nat) : bool :=
  match deref w r with
  | Some a => undoable a
  | None => false
  end.

(** [getLastUndoableAction]: the loop from the last index down to 0. *)
Fixpoint lastUndoableIn (w : World G) (refs : list nat) : option nat :=
  match refs with
  | [] => None
  | r :: rest =>
      match lastUndoableIn w rest with
      | Some found => Some found
      | None => if undoable_ref w r then Some r else None
      end
  end.

Definition getLastUndoableAction (w : World G) : option nat :=
  lastUndoableIn w (actions w).

(** [getLastAction] *)
Definition getLastAction (w : World G) : option nat := last (actions w).

(** the result object of [undoLastAction] *)
Record UndoResult := { success : bool; undo_message : string }.

(** [undoLastAction]. A reference found in [this.actions] always has its
    object; the second case of [deref] is there for totality only. *)
Definition undoLastAction : M G UndoResult :=
  fun w =>
    match getLastUndoableAction w with
    | None => (Returned {| success := false;
                           undo_message := "No undoable actions in history" |}, w)
    | Some r =>
        match deref w r with
        | None => (Returned {| success := false;
                               undo_message := "No undoable actions in history" |}, w)
        | Some lastAction =>
            if String.eqb (headHash (beforeState lastAction)) EmptyString
            then (Returned {| success := false;
                              undo_message := "Cannot undo: missing before state" |}, w)
            else
              try_catch
                (git_do (HardReset (headHash (beforeState lastAction))) ;;;
                 modify (fun w => set_heap (<[r := with_canUndo false lastAction]> (heap w)) w) ;;;
                 saveToStorage ;;;
                 ret {| success := true;
                        undo_message := "Undid " +:+ JS.quote +:+ description lastAction +:+ JS.quote |})
                (fun e => ret {| success := false;
                                 undo_message := "Failed to undo: " +:+ e |})
                w
        end
    end.

(** [clearHistory] *)
Definition clearHistory : M G unit :=
  modify (set_actions []) ;;; saveToStorage.

(** ** core/safetyChecks.ts

    The checks only query the repository, so each is a function of the
    repository it is asked about. *)

Definition pushedWarning (commit : Commit) : string :=
  "Commit " +:+ JS.quote +:+ JS.substring0 50 (message commit) +:+ JS.quote
  +:+ " has been pushed. Undoing will require force push.".

(** [for (const commit of commits) { if (isPushed) warnings.push(...) }] *)
Definition pushWarnings (g : G) (warnings : list string) (commits : list Commit) : list string :=
  foldl (fun ws commit =>
           if isPushed (hash commit) g then ws ++ [pushedWarning commit] else ws)
        warnings commits.

Definition checkBeforeReset (mode : ResetMode) (commitCount : nat) (g : G) : SafetyCheckResult :=
  let commits := getRecentCommits commitCount g in
  let blockers :=
    if length commits <? commitCount
    then ["Only " +:+ JS.show (length commits) +:+ " commits available, cannot undo "
          +:+ JS.show commitCount]
    else [] in
  let warnings :=
    match mode with
    | hard => if hasUncommittedChanges g
              then ["Hard reset will discard all uncommitted changes"]
              else []
    | _ => []
    end in
  let warnings := pushWarnings g warnings commits in
  {| safe := length blockers =? 0; warnings := warnings; blockers := blockers |}.

Definition checkBeforeAmend (g : G) : SafetyCheckResult :=
  match getLastCommit g with
  | None => {| safe := false; warnings := []; blockers := ["No commits to amend"] |}
  | Some lastCommit =>
      let blockers : list string := [] in
      let warnings :=
        if isPushed (hash lastCommit) g
        then ["This commit has been pushed. Amending will require a force push."]
        else [] in
      {| safe := length blockers =? 0; warnings := warnings; blockers := blockers |}
  end.

(** a character of the class [[a-zA-Z0-9/_-]] *)
Definition branchNameChar (c : ascii) : bool :=
  let n := nat_of_ascii c in
  ((97 <=? n) && (n <=? 122)) || ((65 <=? n) && (n <=? 90)) || ((48 <=? n) && (n <=? 57))
  || (n =? 47) || (n =? 95) || (n =? 45).

(** [/^[a-zA-Z0-9/_-]+$/.test(name)] *)
Definition validBranchName (name : string) : bool :=
  negb (String.eqb name EmptyString) && forallb branchNameChar (list_ascii_of_string name).

Definition checkBeforeBranchCreate (branchName : string) (g : G) : SafetyCheckResult :=
  let blockers : list string := [] in
  let blockers :=
    if JS.array_includes (getBranches g) branchName
    then blockers ++ ["Branch " +:+ JS.quote +:+ branchName +:+ JS.quote +:+ " already exists"]
    else blockers in
  let blockers :=
    if negb (validBranchName branchName)
    then blockers ++ ["Branch name contains invalid characters"]
    else blockers in
  {| safe := length blockers =? 0; warnings := []; blockers := blockers |}.

(** [showSafetyWarnings(result)]; [answer] is what the modal warning dialog
    returns when it is shown ([None] when it is dismissed). *)
Definition showSafetyWarnings (result : SafetyCheckResult) (answer : option string) : M G bool :=
  if negb (safe result) then
    modify (add_note (ErrorMessage ("Cannot proceed:" +:+ JS.nl +:+ JS.join JS.nl (blockers result)))) ;;;
    ret false
  else if 0 <? length (warnings result) then
    modify (add_note (WarningMessage
      ("⚠️ Warnings:" +:+ JS.nl +:+ "• " +:+ JS.join (JS.nl +:+ "• ") (warnings result)))) ;;;
    ret (match answer with
         | Some label => String.eqb label "Proceed Anyway"
         | None => false
         end)
  else ret true.

(** ** commands/undoCommit.ts *)

Definition modeName (mode : ResetMode) : string :=
  match mode with soft => "soft" | mixed => "mixed" | hard => "hard" end.

(** What the user answers to the prompts of [undoLastCommit]: the
    [commitCount] of the item picked in the first menu, the mode picked in the
    second, and the button pressed on the warning dialog. *)
Record UndoCommitAnswers := {
  undo_selectedCommit : option nat;
  undo_selectedMode : option ResetMode;
  undo_proceed : option string
}.

Definition undoLastCommit (ans : UndoCommitAnswers) : M G unit :=
  try_catch
    (commits <- query (getRecentCommits 5) ;;
     if length commits =? 0 then showError "No commits to undo"
     else
       match undo_selectedCommit ans with
       | None => ret tt
       | Some commitCount =>
           match undo_selectedMode ans with
           | None => ret tt
           | Some mode =>
               safetyCheck <- query (checkBeforeReset mode commitCount) ;;
               proceed <- showSafetyWarnings safetyCheck (undo_proceed ans) ;;
               if negb proceed then ret tt
               else
                 action <- recordAction undo_commit
                   ("Undo " +:+ JS.show commitCount +:+ " commit(s) with " +:+ modeName mode
                    +:+ " reset") true ;;
                 let resetRef := "HEAD~" +:+ JS.show commitCount in
                 match mode with
                 | soft => git_do (SoftReset resetRef)
                 | mixed => git_do (MixedReset resetRef)
                 | hard => git_do (HardReset resetRef)
                 end ;;;
                 completeAction action ;;;
                 showSuccess ("Undid " +:+ JS.show commitCount +:+ " commit(s) with "
                              +:+ modeName mode +:+ " reset")
           end
       end)
    (fun e => showError ("Failed to undo commit: " +:+ e)).

(** ** commands/moveCommits.ts *)

Record BranchOption := { isNew : bool; branchName : string }.

(** What the user answers to the prompts of [moveCommits], in the order they
    are asked. *)
Record MoveAnswers := {
  move_selectedCommit : option nat;          (* commitCount of the picked item *)
  move_selectedBranch : option BranchOption;
  move_newBranchName : option string;        (* the input box, asked for a new branch *)
  move_proceed : option string;              (* the safety warning dialog *)
  move_confirm : option string               (* the final confirmation *)
}.

(** [currentBranch || 'HEAD'] *)
Definition baseBranch (currentBranch : option string) : string :=
  match currentBranch with
  | Some b => if String.eqb b EmptyString then "HEAD" else b
  | None => "HEAD"
  end.

(** [targetBranch]: the name typed for a new branch (the command returns
    when the input box is dismissed or left empty), or the existing branch
    picked; [None] stands for the [return]. *)
Definition chosenTarget (ans : MoveAnswers) (selectedBranch : BranchOption) : option string :=
  if isNew selectedBranch
  then match move_newBranchName ans with
       | Some name => if String.eqb name EmptyString then None else Some name
       | None => None
       end
  else Some (branchName selectedBranch).

(** The first primitive of the move: [checkoutNewBranch] at
    [`${baseBranch}~${commitCount}`] for a new branch, [checkoutBranch] for
    an existing one. *)
Definition enterTarget (newBranch : bool) (targetBranch : string)
    (currentBranch : option string) (commitCount : nat) : GitCall :=
  if newBranch
  then CheckoutNewBranch targetBranch (baseBranch currentBranch +:+ "~" +:+ JS.show commitCount)
  else CheckoutBranch (Some targetBranch).

(** The cherry-pick loop; [false] stands for the [return] in its [catch]. *)
Fixpoint cherryPickAll (commitsToMove : list Commit) : M G bool :=
  match commitsToMove with
  | [] => ret true
  | commit :: rest =>
      picked <- try_catch
                  (git_do (CherryPick (hash commit)) ;;; ret true)
                  (fun _ =>
                     showError ("Cherry-pick failed for commit "
                                +:+ JS.substring0 7 (hash commit)
                                +:+ ". Please resolve conflicts manually.") ;;;
                     ret false) ;;
      if picked then cherryPickAll rest else ret false
  end.

(** The steps of [moveCommits] once every prompt is answered. *)
Definition moveSteps (commits : list Commit) (commitCount : nat) (currentBranch : option string)
    (newBranch : bool) (targetBranch : string) : M G unit :=
  action <- recordAction move_commits
    ("Moved " +:+ JS.show commitCount +:+ " commit(s) to " +:+ targetBranch) true ;;
  let commitsToMove := rev (take commitCount commits) in
  headBeforeMove <- query (getHeadHash) ;;
  git_do (enterTarget newBranch targetBranch currentBranch commitCount) ;;;
  picked <- cherryPickAll commitsToMove ;;
  if negb picked then ret tt
  else
    git_do (CheckoutBranch currentBranch) ;;;
    git_do (HardReset ("HEAD~" +:+ JS.show commitCount)) ;;;
    completeAction action ;;;
    showSuccess ("Moved " +:+ JS.show commitCount +:+ " commit(s) to " +:+ JS.quote
                 +:+ targetBranch +:+ JS.quote).

Definition moveCommits (ans : MoveAnswers) : M G unit :=
  try_catch
    (commits <- query (getRecentCommits 10) ;;
     if length commits =? 0 then showError "No commits to move"
     else
       match move_selectedCommit ans with
       | None => ret tt
       | Some commitCount =>
           branches <- query (getBranches) ;;
           currentBranch <- query (getCurrentBranch) ;;
           match move_selectedBranch ans with
           | None => ret tt
           | Some selectedBranch =>
               match chosenTarget ans selectedBranch with
               | None => ret tt
               | Some targetBranch =>
                   safetyCheck <- query (checkBeforeReset hard commitCount) ;;
                   proceed <- showSafetyWarnings safetyCheck (move_proceed ans) ;;
                   if negb proceed then ret tt
                   else
                     match move_confirm ans with
                     | Some label =>
                         if String.eqb label "Yes, move commits"
                         then moveSteps commits commitCount currentBranch
                                        (isNew selectedBranch) targetBranch
                         else ret tt
                     | None => ret tt
                     end
               end
           end
       end)
    (fun e => showError ("Failed to move commits: " +:+ e)).

(** ** The command [abortOperation]: continuing *)

(** [operationDetails[operation].name] *)
Definition operationName (operation : OngoingOperation) : string :=
  match operation with
  | merge => "Merge"
  | rebase => "Rebase"
  | cherry_pick => "Cherry-pick"
  | bisect => "Bisect"
  end.

(** the test of the [catch] block of [performContinue] *)
Definition mentionsConflict (errorMessage : string) : bool :=
  JS.includes errorMessage "conflict" || JS.includes errorMessage "CONFLICT".


(** A run of actions that change nothing: each is recorded and completed
    before the next one starts. *)
Fixpoint recordAll (items : list (ActionType * string)) : M G unit :=
  match items with
  | [] => ret tt
  | (ty, desc) :: rest =>
      action <- recordAction ty desc true ;;
      completeAction action ;;;
      recordAll rest
  end.


(** The bracket each command puts around its mutation (as in
    [undoLastCommit] and [performAbort]): open a record, run one primitive,
    close the record. *)
Definition performAction (ty : ActionType) (desc : string) (c : GitCall) : M G unit :=
  action <- recordAction ty desc true ;;
  git_do c ;;;
  completeAction action.

(** The references of a ledger that has only ever appended and cut at the
    front are the newest objects of the heap, in order of creation. *)
Definition newestRefs (w : World G) : Prop :=
  context w = true
  /\ length (actions w) <= length (heap w)
  /\ actions w = seq (length (heap w) - length (actions w)) (length (actions w)).

(** the description [moveCommits] records, and its success message *)
Definition moveDescription (commitCount : nat) (targetBranch : string) : string :=
  "Moved " +:+ JS.show commitCount +:+ " commit(s) to " +:+ targetBranch.

Definition moveSuccess (commitCount : nat) (targetBranch : string) : Notification :=
  InformationMessage ("✓ Moved " +:+ JS.show commitCount +:+ " commit(s) to " +:+ JS.quote
                      +:+ targetBranch +:+ JS.quote).

(** ** Reading a run off the world it leaves *)

Definition ok (c : GitCall) : Event := {| call := c; returned := true |}.
Definition failed (c : GitCall) : Event := {| call := c; returned := false |}.

(** the primitives issued and the messages shown between two worlds *)
Definition newCalls (before after : World G) : list Event :=
  drop (length (calls before)) (calls after).
Definition newNotes (before after : World G) : list Notification :=
  drop (length (notes before)) (notes after).

(** the repository after a sequence of primitive calls *)
Definition replay (cs : list GitCall) (g : G) : G :=
  foldl (fun g c => fst (primitive c g)) g cs.

(** the world after one primitive call, and after several *)
Definition issue (w : World G) (e : Event) : World G :=
  add_call e (set_git (fst (primitive (call e) (git w))) w).
Definition issued (evs : list Event) (w : World G) : World G := foldl issue w evs.

Definition pick (commit : Commit) : GitCall := CherryPick (hash commit).

(** what [showError] displays when the cherry-pick of [commit] fails *)
Definition pickFailedNote (commit : Commit) : Notification :=
  ErrorMessage ("✗ Git Panic: Cherry-pick failed for commit "
                +:+ JS.substring0 7 (hash commit)
                +:+ ". Please resolve conflicts manually.").

(** a cherry-pick that threw *)
Definition isFailedPick (e : Event) : bool :=
  match call e with
  | CherryPick _ => negb (returned e)
  | _ => false
  end.

Definition isInformation (n : Notification) : bool :=
  match n with
  | InformationMessage _ => true
  | _ => false
  end.

(** ** What can happen to the ledger later on *)

Inductive LedgerOp :=
| OpRecord (ty : ActionType) (desc : string) (undoable : bool)
| OpComplete (action : nat)
| OpUndo
| OpClear
| OpPrimitive (c : GitCall)
| OpConfigure (cap : Z).

Definition set_maxActionHistory (cap : Z) (w : World G) : World G :=
  {| git := git w; calls := calls w; notes := notes w; heap := heap w; actions := actions w;
     context := context w; workspaceState := workspaceState w; maxActionHistory := cap |}.

Definition runOp (w : World G) (op : LedgerOp) : World G :=
  match op with
  | OpRecord ty desc cu => snd (recordAction ty desc cu w)
  | OpComplete action => snd (completeAction action w)
  | OpUndo => snd (undoLastAction w)
  | OpClear => snd (clearHistory w)
  | OpPrimitive c => snd (git_do c w)
  | OpConfigure cap => set_maxActionHistory cap w
  end.

Definition runOps (ops : list LedgerOp) (w : World G) : World G := foldl runOp w ops.

(** the record behind [action] is still open: it has neither an
    [afterState] nor an [undoCommand] *)
Definition staysOpen (action : nat) (w : World G) : Prop :=
  exists r, deref w action = Some r /\ afterState r = None /\ undoCommand r = None.

End Extension.


(** ** A scripted repository

    A small stand-in for the git wrapper, as a test double would be written:
    the log is a list of commits, newest first; a mutating primitive listed in
    [repo_failing] throws the message given there and leaves the repository
    as it is, any other one returns and moves HEAD or the current branch. *)

Record Repo := {
  repo_head : string;
  repo_branch : option string;
  repo_log : list Commit;
  repo_dirty : bool;
  repo_pushed : list string;
  repo_branches : list string;
  repo_failing : list (string * string)
}.

(** the command line a call stands for *)
Definition commandLine (c : GitCall) : string :=
  match c with
  | SoftReset ref => "reset --soft " +:+ ref
  | MixedReset ref => "reset --mixed " +:+ ref
  | HardReset ref => "reset --hard " +:+ ref
  | CherryPick h => "cherry-pick " +:+ h
  | CheckoutBranch (Some name) => "checkout " +:+ name
  | CheckoutBranch None => "checkout null"
  | CheckoutNewBranch name startPoint => "checkout -b " +:+ name +:+ " " +:+ startPoint
  | ContinueMerge => "merge --continue"
  | ContinueRebase => "rebase --continue"
  | ContinueCherryPick => "cherry-pick --continue"
  end.

Definition move_head (h : string) (r : Repo) : Repo :=
  {| repo_head := h; repo_branch := repo_branch r; repo_log := repo_log r;
     repo_dirty := repo_dirty r; repo_pushed := repo_pushed r;
     repo_branches := repo_branches r; repo_failing := repo_failing r |}.

Definition move_branch (b : option string) (r : Repo) : Repo :=
  {| repo_head := repo_head r; repo_branch := b; repo_log := repo_log r;
     repo_dirty := repo_dirty r; repo_pushed := repo_pushed r;
     repo_branches := repo_branches r; repo_failing := repo_failing r |}.

Definition repo_primitive (c : GitCall) (r : Repo) : Repo * option string :=
  match map_get (repo_failing r) (commandLine c) with
  | Some msg => (r, Some msg)
  | None =>
      match c with
      | SoftReset ref | MixedReset ref | HardReset ref => (move_head ref r, None)
      | CherryPick h => (move_head ("picked-" +:+ h) r, None)
      | CheckoutBranch name => (move_branch name r, None)
      | CheckoutNewBranch name startPoint => (move_branch (Some name) (move_head startPoint r), None)
      | ContinueMerge | ContinueRebase | ContinueCherryPick => (r, None)
      end
  end.

#[export] Instance repoWrapper : GitWrapper Repo :=
  {| getHeadHash := repo_head;
     getCurrentBranch := repo_branch;
     getRecentCommits := fun n r => take n (repo_log r);
     getLastCommit := fun r => head (repo_log r);
     hasUncommittedChanges := repo_dirty;
     isPushed := fun h r => JS.array_includes (repo_pushed r) h;
     getBranches := repo_branches;
     primitive := repo_primitive |}.

#[export] Instance sampleClock : Clock :=
  {| generateId := fun n => "action-" +:+ JS.show n;
     dateNow := fun n => (1700000000000 + Z.of_nat n)%Z |}.

Definition commit (h msg : string) : Commit :=
  {| hash := h; message := msg; author := "dev"; date := "2024-01-01" |}.

(** Five commits on [main], newest first. *)
Definition fiveCommits : list Commit :=
  [ commit "e5e5e5e5e5" "fifth"; commit "d4d4d4d4d4" "fourth"; commit "c3c3c3c3c3" "third";
    commit "b2b2b2b2b2" "second"; commit "a1a1a1a1a1" "first" ].

Definition mainRepo : Repo :=
  {| repo_head := "e5e5e5e5e5"; repo_branch := Some "main"; repo_log := fiveCommits;
     repo_dirty := false; repo_pushed := []; repo_branches := ["main"];
     repo_failing := [] |}.

(** A fresh session: nothing recorded, the manager initialised. *)
Definition freshWorld {G} (g : G) (cap : Z) : World G :=
  {| git := g; calls := []; notes := []; heap := []; actions := []; context := true;
     workspaceState := None; maxActionHistory := cap |}.

Definition moveTwoToNew : MoveAnswers :=
  {| move_selectedCommit := Some 2;
     move_selectedBranch := Some {| isNew := true; branchName := EmptyString |};
     move_newBranchName := Some "feature/x";
     move_proceed := None;
     move_confirm := Some "Yes, move commits" |}.

(** The same repository, in which cherry-picking the fourth commit runs into
    a conflict. *)
Definition conflictRepo : Repo :=
  {| repo_head := "e5e5e5e5e5"; repo_branch := Some "main"; repo_log := fiveCommits;
     repo_dirty := false; repo_pushed := []; repo_branches := ["main"];
     repo_failing :=
       [("cherry-pick d4d4d4d4d4", "CONFLICT (content): Merge conflict in notes.txt")] |}.

(** A repository in the middle of a merge whose continue still finds
    conflicts. *)
Definition mergingRepo : Repo :=
  {| repo_head := "e5e5e5e5e5"; repo_branch := Some "main"; repo_log := fiveCommits;
     repo_dirty := true; repo_pushed := []; repo_branches := ["main"];
     repo_failing :=
       [("merge --continue", "error: you need to resolve your conflicts first")] |}.

(** Two completed actions A and B, then a move whose first cherry-pick
    fails, in a session whose history is capped at two records. *)
Definition stuckSession : M Repo unit :=
  performAction undo_commit "A" (HardReset "d4d4d4d4d4") ;;;
  performAction undo_commit "B" (HardReset "c3c3c3c3c3") ;;;
  moveCommits moveTwoToNew.

Definition stuckWorld : World Repo := snd (stuckSession (freshWorld conflictRepo 2)).

(** A session in which a record was opened at the fifth commit and HEAD
    has since moved to the second. *)
Definition openedWorld : World Repo :=
  snd (recordAction undo_commit "Undo 3 commit(s) with hard reset" true (freshWorld mainRepo 50)).

Definition movedWorld : World Repo := set_git (move_head "b2b2b2b2b2" mainRepo) openedWorld.

(** An undo of seven commits asked of a repository that has five. *)
Definition undoSeven : UndoCommitAnswers :=
  {| undo_selectedCommit := Some 7; undo_selectedMode := Some hard; undo_proceed := None |}.

(** A reflog in which [feature/login] was left and no longer exists. *)
Definition loginReflog : list ReflogEntry :=
  [ {| entry_hash := "1111111"; entry_message := "commit: work on main" |};
    {| entry_hash := "2222222";
       entry_message := "checkout: moving from feature/login to main" |};
    {| entry_hash := "3333333";
       entry_message := "checkout: moving from feature/login to develop" |} ].

(** Three actions A, B and C in a row, each one moving HEAD. *)
Definition threeActions : M Repo unit :=
  performAction undo_commit "A" (HardReset "d4d4d4d4d4") ;;;
  performAction undo_commit "B" (HardReset "c3c3c3c3c3") ;;;
  performAction undo_commit "C" (HardReset "b2b2b2b2b2").

(** the descriptions of the persisted log *)
Definition persistedDescriptions {G} (w : World G) : option (list string) :=
  option_map (map description) (workspaceState w).

(** ** The deleted-branch scan, as the specification words it *)

(** a string without white space, as a group [(\S+)] captures *)
Definition spaceFree (s : string) : bool :=
  forallb (fun c => negb (isWhiteSpace c)) (list_ascii_of_string s).

(** the entry is a checkout that moves away from [name] *)
Definition movesFrom (name : string) (entry : ReflogEntry) : bool :=
  match matchMove (entry_message entry) with
  | Some (from, _) => String.eqb from name
  | None => false
  end.

(** the newest entry of a newest-first reflog that moves away from [name] *)
Definition newestMoveFrom (name : string) (reflog : list ReflogEntry) : option ReflogEntry :=
  List.find (movesFrom name) reflog.

(** one entry of [branchMoves]: the groups of the match and the entry *)
Definition parseMove (entry : ReflogEntry) : option BranchMove :=
  match matchMove (entry_message entry) with
  | Some (from, to) =>
      Some {| fromBranch := from; toBranch := to;
              move_hash := entry_hash entry; move_message := entry_message entry |}
  | None => None
  end.

(** a name the scan may list: no such branch exists, and it is neither the
    literal [HEAD] nor a bare hash *)
Definition listable (existingBranches : list string) (name : string) : bool :=
  negb (JS.array_includes existingBranches name)
  && negb (String.eqb name "HEAD") && negb (isBareHash name).

Definition moveInfo (move : BranchMove) : string * string :=
  (move_hash move, move_message move).

Definition headMove : list ReflogEntry :=
  [ {| entry_hash := "abc1234"; entry_message := "checkout: moving from HEAD to main" |} ].

(** * More of the extension

    The rest of the ledger, the callers of the safety checks and of the
    ledger, and the reflog helpers of the recovery commands. A dialog that
    asks a question is represented by the answer it returns. *)

(** Modelled from the spec: two more members of the git wrapper, which is not
    among the sources: the reflog query (read-only, spec 4.1) and the
    primitive that re-creates a branch at a hash (it may throw, spec 7). A
    call of [recoverBranchFromReflog] changes the repository but is not
    entered in [calls], which lists the primitives of [GitCall] only. *)
Class ReflogWrapper (G : Type) := {
  getReflog : nat -> G -> list ReflogEntry;
  recoverBranchFromReflog : string -> string -> G -> G * option string
}.

(** [reflog.filter(entry => { if (seen.has(key)) return false; seen.add(key);
    return true })]: the elements whose key was not met before, [seen] being
    the keys met so far. *)
Fixpoint keepFirst {A} (key : A -> string) (seen : list string) (l : list A) : list A :=
  match l with
  | [] => []
  | x :: rest =>
      if JS.array_includes seen (key x) then keepFirst key seen rest
      else x :: keepFirst key (seen ++ [key x]) rest
  end.

(** [uniqueEntries] of [findLostCommitsInReflog] *)
Definition uniqueEntries (reflog : list ReflogEntry) : list ReflogEntry :=
  keepFirst entry_hash [] reflog.

(** the primitive [undoLastCommit] calls for a mode *)
Definition resetCall (mode : ResetMode) (ref : string) : GitCall :=
  match mode with
  | soft => SoftReset ref
  | mixed => MixedReset ref
  | hard => HardReset ref
  end.

Section MoreOfTheExtension.

Context {G : Type} {gitWrapper : GitWrapper G} {clock : Clock} {reflogWrapper : ReflogWrapper G}.

(** ** core/actionHistory.ts, continued *)

(** [getRecentActions(count)]: [this.actions.slice(-count).reverse()] *)
Definition getRecentActions (count : Z) (w : World G) : list nat :=
  rev (JS.slice_from (- count)%Z (actions w)).

(** The extension starting again in the same workspace: a new
    [ActionHistoryManager] with no actions and no context yet; the workspace
    state, the configuration and the repository are what they were. *)
Definition newSession (w : World G) : World G :=
  {| git := git w; calls := calls w; notes := notes w; heap := []; actions := [];
     context := false; workspaceState := workspaceState w;
     maxActionHistory := maxActionHistory w |}.

(** Every reference of [this.actions] has an object, and no object is
    listed twice. *)
Definition wellFormed (w : World G) : Prop :=
  NoDup (actions w) /\ Forall (fun r => r < length (heap w)) (actions w).

(** ** The command [forcePushRecovery]: its reflog recovery steps *)

(** [cherryPickCommit(hash)] *)
Definition cherryPickCommit (hash : string) : M G unit :=
  action <- recordAction undo_commit ("Cherry-pick commit: " +:+ JS.substring0 7 hash) true ;;
  try_catch
    (git_do (CherryPick hash) ;;;
     completeAction action ;;;
     showSuccess ("Cherry-picked " +:+ JS.substring0 7 hash))
    (fun errorMessage =>
       if mentionsConflict errorMessage
       then completeAction action ;;;
            showWarning "Cherry-pick has conflicts. Resolve them and commit manually."
       else throw errorMessage).

(** ** The command [recoverBranch] *)

(** [git.recoverBranchFromReflog(name, hash)] *)
Definition git_recover (name hash : string) : M G unit :=
  fun w =>
    let '(g', err) := recoverBranchFromReflog name hash (git w) in
    match err with
    | None => (Returned tt, set_git g' w)
    | Some e => (Thrown e, set_git g' w)
    end.

(** What the user answers to the prompts of [recoverBranch]: the position
    of the item picked in the list of deleted branches, the name typed when
    the picked name is taken, the button of the safety warning, and the
    button of the final message. *)
Record RecoverAnswers := {
  recover_selectedBranch : option nat;
  recover_newName : option string;
  recover_proceed : option string;
  recover_switchToBranch : option string
}.

(** the [else] of the final choice: check out the current branch again,
    when there is one *)
Definition stayOnBranch : M G unit :=
  currentBranch <- query getCurrentBranch ;;
  match currentBranch with
  | Some name => if String.eqb name EmptyString then ret tt
                 else git_do (CheckoutBranch (Some name))
  | None => ret tt
  end.

Definition recoverBranch (ans : RecoverAnswers) : M G unit :=
  try_catch
    (reflog <- query (getReflog 100) ;;
     if length reflog =? 0 then showError "No reflog entries found"
     else
       existingBranches <- query getBranches ;;
       let deleted := deletedBranches reflog existingBranches in
       if length deleted =? 0 then showError "No recently deleted branches found in reflog"
       else
         match recover_selectedBranch ans with
         | None => ret tt
         | Some position =>
             match deleted !! position with
             | None => ret tt
             | Some (branchName, (hash, _)) =>
                 let renamed :=
                   if JS.array_includes existingBranches branchName
                   then match recover_newName ans with
                        | Some name => if String.eqb name EmptyString then None else Some name
                        | None => None
                        end
                   else Some branchName in
                 match renamed with
                 | None => ret tt
                 | Some recoveryName =>
                     safetyCheck <- query (checkBeforeBranchCreate recoveryName) ;;
                     proceed <- showSafetyWarnings safetyCheck (recover_proceed ans) ;;
                     if negb proceed then ret tt
                     else
                       action <- recordAction recover_branch
                                   ("Recovered branch " +:+ JS.quote +:+ recoveryName
                                    +:+ JS.quote +:+ " from " +:+ JS.substring0 7 hash) true ;;
                       git_recover recoveryName hash ;;;
                       completeAction action ;;;
                       modify (add_note (InformationMessage
                                 ("Branch " +:+ JS.quote +:+ recoveryName +:+ JS.quote
                                  +:+ " recovered successfully!"))) ;;;
                       match recover_switchToBranch ans with
                       | Some label =>
                           if String.eqb label "Switch to Branch"
                           then git_do (CheckoutBranch (Some recoveryName)) ;;;
                                showSuccess ("Switched to " +:+ recoveryName)
                           else stayOnBranch
                       | None => stayOnBranch
                       end
                 end
             end
         end)
    (fun e => showError ("Failed to recover branch: " +:+ e)).

End MoreOfTheExtension.

(** ** The command [abortOperation]: its menu

    The items offered for an operation in progress, and the handler the
    label of the selected item leads to. *)

(** [operationDetails[operation].canAbort] and [.canContinue] *)
Definition canAbort (operation : OngoingOperation) : bool :=
  match operation with
  | merge => true
  | rebase => true
  | cherry_pick => true
  | bisect => true
  end.

Definition canContinue (operation : OngoingOperation) : bool :=
  match operation with
  | merge => true
  | rebase => true
  | cherry_pick => true
  | bisect => false
  end.

(** the operation as the template literals print it *)
Definition operationKey (operation : OngoingOperation) : string :=
  match operation with
  | merge => "merge"
  | rebase => "rebase"
  | cherry_pick => "cherry-pick"
  | bisect => "bisect"
  end.

Record QuickPickItem := {
  item_label : string;
  item_description : string;
  item_detail : string
}.

Definition abortItem (operation : OngoingOperation) : QuickPickItem :=
  {| item_label := "$(close) Abort " +:+ operationName operation;
     item_description := "Cancel the operation and return to previous state";
     item_detail := "Runs: git " +:+ operationKey operation +:+ " --abort" |}.

Definition continueItem (operation : OngoingOperation) : QuickPickItem :=
  {| item_label := "$(play) Continue " +:+ operationName operation;
     item_description := "Continue after resolving conflicts";
     item_detail := "Runs: git " +:+ operationKey operation +:+ " --continue" |}.

Definition viewItem (conflictedFiles : list string) : QuickPickItem :=
  {| item_label := "$(warning) View " +:+ JS.show (length conflictedFiles)
                   +:+ " Conflicted Files";
     item_description := "See files with merge conflicts";
     item_detail := JS.join ", " (take 3 conflictedFiles)
                    +:+ (if 3 <? length conflictedFiles then "..." else EmptyString) |}.

(** [options], as the three [if]s of [abortOperation] fill it *)
Definition abortOptions (operation : OngoingOperation) (conflictedFiles : list string)
  : list QuickPickItem :=
  (if canAbort operation then [abortItem operation] else [])
  ++ (if canContinue operation && (length conflictedFiles =? 0)
      then [continueItem operation] else [])
  ++ (if 0 <? length conflictedFiles then [viewItem conflictedFiles] else []).

Inductive Handler := RunAbort | RunContinue | RunView.

(** the [if ... else if ...] on [selected.label.includes(...)] *)
Definition chosenHandler (selected : QuickPickItem) : option Handler :=
  if JS.includes (item_label selected) "Abort" then Some RunAbort
  else if JS.includes (item_label selected) "Continue" then Some RunContinue
  else if JS.includes (item_label selected) "View" then Some RunView
  else None.

(** a string in which the character [c] does not occur *)
Definition lacks (c : ascii) (s : string) : bool :=
  forallb (fun a => negb (Ascii.eqb a c)) (list_ascii_of_string s).

(** a string of decimal digits *)
Definition digits (s : string) : bool :=
  forallb (fun a => (48 <=? nat_of_ascii a) && (nat_of_ascii a <=? 57))
          (list_ascii_of_string s).

(** ** A scripted repository with a reflog

    The scripted repository, with the reflog entries it answers
    [getReflog] with, newest first, and the error, if any, that
    [recoverBranchFromReflog] throws; when it returns, the branch is among
    the branches. *)

Record ReflogRepo := {
  reflog_base : Repo;
  reflog_entries : list ReflogEntry;
  reflog_failing : option string
}.

Definition with_base (b : Repo) (r : ReflogRepo) : ReflogRepo :=
  {| reflog_base := b; reflog_entries := reflog_entries r;
     reflog_failing := reflog_failing r |}.

Definition add_branch (name : string) (r : Repo) : Repo :=
  {| repo_head := repo_head r; repo_branch := repo_branch r; repo_log := repo_log r;
     repo_dirty := repo_dirty r; repo_pushed := repo_pushed r;
     repo_branches := repo_branches r ++ [name]; repo_failing := repo_failing r |}.

#[export] Instance reflogRepoWrapper : GitWrapper ReflogRepo :=
  {| getHeadHash := fun r => repo_head (reflog_base r);
     getCurrentBranch := fun r => repo_branch (reflog_base r);
     getRecentCommits := fun n r => take n (repo_log (reflog_base r));
     getLastCommit := fun r => head (repo_log (reflog_base r));
     hasUncommittedChanges := fun r => repo_dirty (reflog_base r);
     isPushed := fun h r => JS.array_includes (repo_pushed (reflog_base r)) h;
     getBranches := fun r => repo_branches (reflog_base r);
     primitive := fun c r =>
       (with_base (fst (repo_primitive c (reflog_base r))) r,
        snd (repo_primitive c (reflog_base r))) |}.

#[export] Instance reflogRepoReflog : ReflogWrapper ReflogRepo :=
  {| getReflog := fun n r => take n (reflog_entries r);
     recoverBranchFromReflog := fun name _ r =>
       match reflog_failing r with
       | Some e => (r, Some e)
       | None => (with_base (add_branch name (reflog_base r)) r, None)
       end |}.

(** A reflog in which [feature/login] and [release-1.0] were left; neither
    exists any more. *)
Definition recoveryReflog : list ReflogEntry :=
  [ {| entry_hash := "1111111"; entry_message := "commit: work on main" |};
    {| entry_hash := "2222222";
       entry_message := "checkout: moving from feature/login to main" |};
    {| entry_hash := "3333333";
       entry_message := "checkout: moving from release-1.0 to feature/login" |} ].

Definition recoveryRepo : ReflogRepo :=
  {| reflog_base := mainRepo; reflog_entries := recoveryReflog; reflog_failing := None |}.

(** The first and the second item of the menu picked, with "Switch to
    Branch" as the final choice. *)
Definition pickLogin : RecoverAnswers :=
  {| recover_selectedBranch := Some 0; recover_newName := None;
     recover_proceed := None; recover_switchToBranch := Some "Switch to Branch" |}.

Definition pickRelease : RecoverAnswers :=
  {| recover_selectedBranch := Some 1; recover_newName := None;
     recover_proceed := None; recover_switchToBranch := Some "Switch to Branch" |}.

(** the same pick, with a name typed and the warning confirmed *)
Definition pickLoginRenamed : RecoverAnswers :=
  {| recover_selectedBranch := Some 0; recover_newName := Some "login-2";
     recover_proceed := Some "Proceed Anyway";
     recover_switchToBranch := Some "Switch to Branch" |}.

(** The repository with a second branch, and the newest commit moved to
    it. *)
Definition twoBranchRepo : Repo :=
  {| repo_head := "e5e5e5e5e5"; repo_branch := Some "main"; repo_log := fiveCommits;
     repo_dirty := false; repo_pushed := []; repo_branches := ["main"; "develop"];
     repo_failing := [] |}.

Definition moveOneToDevelop : MoveAnswers :=
  {| move_selectedCommit := Some 1;
     move_selectedBranch := Some {| isNew := false; branchName := "develop" |};
     move_newBranchName := None;
     move_proceed := None;
     move_confirm := Some "Yes, move commits" |}.

(** ** The conflict pattern, as the specification words it

    The specification routes a failed continue by whether its message
    matches "conflict", case variants included: the message, in lower case,
    contains [conflict]. The code's own test is [mentionsConflict]. *)




(** A hard undo of one commit, and of two, with the warning dismissed. *)
Definition undoOneHard : UndoCommitAnswers :=
  {| undo_selectedCommit := Some 1; undo_selectedMode := Some hard; undo_proceed := None |}.

Definition undoTwoHard : UndoCommitAnswers :=
  {| undo_selectedCommit := Some 2; undo_selectedMode := Some hard; undo_proceed := None |}.

(** the session of [threeActions], capped at two records *)
Definition threeActionsWorld : World Repo := snd (threeActions (freshWorld mainRepo 2)).

(** one completed action, in the repository in which the pick of the fourth
    commit conflicts *)
Definition oneActionWorld : World Repo :=
  snd (performAction undo_commit "A" (HardReset "d4d4d4d4d4") (freshWorld conflictRepo 50)).

(** * Properties *)

(** ** JavaScript helpers *)

Lemma slice_from_neg_cap {A} (cap : Z) (arr : list A) :
  (1 <= cap)%Z ->
  JS.slice_from (- cap)%Z arr = drop (length arr - Z.to_nat cap) arr.
Proof.
  intros Hcap. unfold JS.slice_from.
  destruct (Z.ltb_spec (- cap) 0) as [_|]; [|lia].
  f_equal. lia.
Qed.

Lemma slice_from_zero {A} (arr : list A) : JS.slice_from (- 0)%Z arr = arr.
Proof. unfold JS.slice_from. simpl. rewrite Z.min_l by lia. reflexivity. Qed.

(** ** The reflog scan *)

Lemma stripPrefix_app (p r : string) : stripPrefix p (p +:+ r) = Some r.
Proof.
  induction p as [|a p IH]; simpl.
  - by destruct r.
  - by rewrite Ascii.eqb_refl.
Qed.

Lemma spanNonSpace_run (run rest : string) :
  spaceFree run = true ->
  match rest with
  | EmptyString => True
  | String c _ => isWhiteSpace c = true
  end ->
  spanNonSpace (run +:+ rest) = (run, rest).
Proof.
  intros Hfree Hrest. induction run as [|a run IH]; simpl.
  - destruct rest as [|c rest]; [reflexivity|]. simpl. by rewrite Hrest.
  - unfold spaceFree in Hfree. simpl in Hfree. apply andb_true_iff in Hfree as [Ha Hrun].
    apply negb_true_iff in Ha. rewrite Ha, (IH Hrun). reflexivity.
Qed.

Lemma append_empty_r (s : string) : s +:+ EmptyString = s.
Proof.
  induction s as [|a s IH]; [reflexivity|].
  change (String a (s +:+ EmptyString) = String a s). by rewrite IH.
Qed.

Lemma matchMove_at (s : string) (groups : string * string) :
  matchMoveAt s = Some groups -> matchMove s = Some groups.
Proof. intros H. destruct s; [discriminate H|]. cbn [matchMove]. by rewrite H. Qed.

(** The plain reflog message of a checkout is matched, and the groups are
    the two branch names. *)
Lemma matchMove_plain (A B : string) :
  spaceFree A = true -> A <> EmptyString ->
  spaceFree B = true -> B <> EmptyString ->
  matchMove ("checkout: moving from " +:+ A +:+ " to " +:+ B) = Some (A, B).
Proof.
  intros HA HA0 HB HB0. apply matchMove_at. unfold matchMoveAt.
  rewrite stripPrefix_app.
  rewrite (spanNonSpace_run A (" to " +:+ B) HA) by reflexivity.
  destruct (String.eqb_spec A EmptyString); [contradiction|].
  rewrite stripPrefix_app.
  pose proof (spanNonSpace_run B EmptyString HB I) as Hspan.
  rewrite append_empty_r in Hspan. rewrite Hspan.
  destruct (String.eqb_spec B EmptyString); [contradiction|]. reflexivity.
Qed.

Lemma stripPrefix_prefix (p q s r : string) :
  stripPrefix (p +:+ q) s = Some r -> String.prefix p s = true.
Proof.
  revert s. induction p as [|a p IH]; intros s H.
  - by destruct s.
  - destruct s as [|b s]; simpl in H; [discriminate|].
    simpl. destruct (Ascii.eqb_spec a b) as [->|]; [|discriminate].
    destruct (ascii_dec b b); [|congruence]. by apply IH.
Qed.

Lemma includes_suffix (c : ascii) (s sub : string) :
  JS.includes s sub = true -> JS.includes (String c s) sub = true.
Proof. intros H. cbn [JS.includes]. rewrite H. apply orb_true_r. Qed.

Lemma matchMove_includes (s : string) (groups : string * string) :
  matchMove s = Some groups -> JS.includes s "checkout: moving from" = true.
Proof.
  induction s as [|c s IH]; cbn [matchMove].
  - destruct (matchMoveAt EmptyString) eqn:E; [|discriminate]. discriminate E.
  - destruct (matchMoveAt (String c s)) eqn:E.
    + intros _. unfold matchMoveAt in E.
      destruct (stripPrefix _ (String c s)) eqn:Hp; [|discriminate].
      cbn [JS.includes]. apply orb_true_intro. left.
      eapply (stripPrefix_prefix "checkout: moving from" " "). exact Hp.
    + intros H. apply includes_suffix. by apply IH.
Qed.

Lemma branchMoves_omap (reflog : list ReflogEntry) :
  branchMoves reflog = omap parseMove reflog.
Proof.
  unfold branchMoves. fold parseMove.
  induction reflog as [|e l IH]; [reflexivity|].
  cbn [List.filter omap list_omap].
  destruct (JS.includes (entry_message e) "checkout: moving from") eqn:Hin.
  - cbn [omap list_omap]. by rewrite IH.
  - unfold parseMove at 2.
    destruct (matchMove (entry_message e)) as [[from to]|] eqn:Hm.
    + apply matchMove_includes in Hm. congruence.
    + exact IH.
Qed.

Lemma map_has_get {V} (m : JsMap V) (k : string) :
  map_has m k = match map_get m k with Some _ => true | None => false end.
Proof.
  induction m as [|[k' v] m IH]; [reflexivity|].
  simpl. destruct (String.eqb k' k); [reflexivity|exact IH].
Qed.

Lemma map_get_set {V} (m : JsMap V) (k k' : string) (v : V) :
  map_get (map_set m k v) k' = if String.eqb k k' then Some v else map_get m k'.
Proof.
  induction m as [|[k0 v0] m IH]; simpl.
  - reflexivity.
  - destruct (String.eqb_spec k0 k) as [->|Hne]; simpl.
    + destruct (String.eqb k k'); reflexivity.
    + rewrite IH. destruct (String.eqb_spec k0 k') as [->|]; [|reflexivity].
      destruct (String.eqb_spec k k'); [congruence|reflexivity].
Qed.

Lemma scan_get (existing : list string) (moves : list BranchMove)
    (deleted : JsMap (string * string)) (name : string) :
  map_get (foldl (noteMove existing) deleted moves) name
  = match map_get deleted name with
    | Some info => Some info
    | None =>
        if listable existing name
        then option_map moveInfo
               (List.find (fun move => String.eqb (fromBranch move) name) moves)
        else None
    end.
Proof.
  revert deleted. induction moves as [|move moves IH]; intros deleted.
  - simpl. destruct (map_get deleted name); [reflexivity|].
    by destruct (listable existing name).
  - cbn [foldl List.find]. rewrite IH. unfold noteMove, listable.
    rewrite map_has_get.
    destruct (String.eqb_spec (fromBranch move) name) as [->|Hne].
    + destruct (map_get deleted name) as [info|] eqn:Hget.
      * rewrite andb_false_r. by rewrite Hget.
      * destruct (JS.array_includes existing name); simpl; [by rewrite Hget|].
        destruct (String.eqb name "HEAD"); simpl; [by rewrite Hget|].
        destruct (isBareHash name); simpl; [by rewrite Hget|].
        rewrite map_get_set, String.eqb_refl. reflexivity.
    + assert (Hkeep : forall info,
                 map_get (map_set deleted (fromBranch move) info) name = map_get deleted name).
      { intros info. rewrite map_get_set.
        destruct (String.eqb_spec (fromBranch move) name); [congruence|reflexivity]. }
      destruct (negb (JS.array_includes existing (fromBranch move))
                && negb match map_get deleted (fromBranch move) with
                        | Some _ => true
                        | None => false
                        end); [|reflexivity].
      destruct (negb (String.eqb (fromBranch move) "HEAD")
                && negb (isBareHash (fromBranch move))); [|reflexivity].
      by rewrite Hkeep.
Qed.

Lemma find_parsed (name : string) (reflog : list ReflogEntry) :
  option_map moveInfo
    (List.find (fun move => String.eqb (fromBranch move) name) (omap parseMove reflog))
  = option_map (fun entry => (entry_hash entry, entry_message entry))
      (newestMoveFrom name reflog).
Proof.
  unfold newestMoveFrom.
  induction reflog as [|e l IH]; [reflexivity|].
  cbn [omap list_omap List.find]. unfold movesFrom at 1, parseMove at 1.
  destruct (matchMove (entry_message e)) as [[from to]|]; [|exact IH].
  cbn [List.find fromBranch]. destruct (String.eqb from name); [reflexivity|exact IH].
Qed.

(** The scan, in closed form: a listable name is mapped to the hash and
    message of the newest entry that moves away from it. *)
Lemma deletedBranches_get (reflog : list ReflogEntry) (existing : list string) (name : string) :
  map_get (deletedBranches reflog existing) name
  = if listable existing name
    then option_map (fun entry => (entry_hash entry, entry_message entry))
           (newestMoveFrom name reflog)
    else None.
Proof.
  unfold deletedBranches. rewrite scan_get, branchMoves_omap. cbn [map_get].
  destruct (listable existing name); [apply find_parsed|reflexivity].
Qed.

(** C8 (as amended). A name is listed as a deleted branch if and only if
    some reflog entry matches "checkout: moving from name to B", no branch of
    that name exists, and the name is neither the literal HEAD nor a bare
    commit hash (7 to 40 lower-case hexadecimal digits); the hash recorded for
    it is that of the first such entry of the newest-first reflog. *)
Theorem deleted_branch_iff (reflog : list ReflogEntry) (existing : list string) (name : string) :
  (map_has (deletedBranches reflog existing) name = true
   <-> (exists entry B, In entry reflog /\ matchMove (entry_message entry) = Some (name, B))
       /\ JS.array_includes existing name = false
       /\ name <> "HEAD"
       /\ isBareHash name = false)
  /\ (map_has (deletedBranches reflog existing) name = true ->
      exists entry,
        newestMoveFrom name reflog = Some entry
        /\ map_get (deletedBranches reflog existing) name
           = Some (entry_hash entry, entry_message entry)).
Proof.
  rewrite map_has_get, deletedBranches_get.
  assert (Hfind : (exists entry B, In entry reflog
                                   /\ matchMove (entry_message entry) = Some (name, B))
                  <-> exists entry, newestMoveFrom name reflog = Some entry).
  { unfold newestMoveFrom. split.
    - intros (entry & B & Hin & Hm).
      destruct (List.find (movesFrom name) reflog) as [e|] eqn:Hf; [by exists e|].
      exfalso. pose proof (find_none _ _ Hf entry Hin) as Hno.
      unfold movesFrom in Hno. rewrite Hm, String.eqb_refl in Hno. discriminate.
    - intros [entry Hf]. apply find_some in Hf as [Hin Hmv].
      unfold movesFrom in Hmv.
      destruct (matchMove (entry_message entry)) as [[from to]|] eqn:Hm; [|discriminate].
      apply String.eqb_eq in Hmv as ->. by exists entry, to. }
  unfold listable.
  destruct (JS.array_includes existing name); simpl.
  { split; [split; [discriminate|intros (_ & ? & _); discriminate]|discriminate]. }
  destruct (String.eqb_spec name "HEAD") as [->|Hhead]; simpl.
  { split; [split; [discriminate|intros (_ & _ & ? & _); congruence]|discriminate]. }
  destruct (isBareHash name); simpl.
  { split; [split; [discriminate|intros (_ & _ & _ & ?); discriminate]|discriminate]. }
  rewrite Hfind.
  destruct (newestMoveFrom name reflog) as [entry|]; simpl.
  - split; [split; [intros _; repeat split; eauto|reflexivity]|].
    intros _. by exists entry.
  - split; [split; [discriminate|intros ([e He] & _); discriminate]|discriminate].
Qed.

Section Properties.

Context {G : Type} {gitWrapper : GitWrapper G} {clock : Clock}.

(** ** The safety evaluator *)

Lemma pushWarnings_filter (g : G) (ws : list string) (commits : list Commit) :
  pushWarnings g ws commits
  = ws ++ map pushedWarning
            (List.filter (fun c => isPushed (hash c) g) commits).
Proof.
  unfold pushWarnings. revert ws.
  induction commits as [|c cs IH]; intros ws; simpl.
  - by rewrite app_nil_r.
  - destruct (isPushed (hash c) g); simpl; rewrite IH; [|done].
    by rewrite <- app_assoc.
Qed.

(** C7. Each of [checkBeforeReset], [checkBeforeAmend] and
    [checkBeforeBranchCreate] returns a result whose [safe] flag is true
    exactly when its list of blockers is empty, whatever its warnings are. *)
Theorem safe_iff_no_blockers (mode : ResetMode) (commitCount : nat) (name : string) (g : G) :
  (safe (checkBeforeReset mode commitCount g) = true
   <-> blockers (checkBeforeReset mode commitCount g) = [])
  /\ (safe (checkBeforeAmend g) = true <-> blockers (checkBeforeAmend g) = [])
  /\ (safe (checkBeforeBranchCreate name g) = true
      <-> blockers (checkBeforeBranchCreate name g) = []).
Proof.
  repeat split.
  - unfold checkBeforeReset; simpl.
    destruct (_ <? _); simpl; [discriminate | reflexivity].
  - unfold checkBeforeReset; simpl.
    destruct (_ <? _); simpl; [discriminate | reflexivity].
  - unfold checkBeforeAmend.
    destruct (getLastCommit _); simpl; [reflexivity | discriminate].
  - unfold checkBeforeAmend.
    destruct (getLastCommit _); simpl; [reflexivity | discriminate].
  - unfold checkBeforeBranchCreate; simpl.
    destruct (JS.array_includes _ _), (validBranchName _); simpl; (reflexivity || discriminate).
  - unfold checkBeforeBranchCreate; simpl.
    destruct (JS.array_includes _ _), (validBranchName _); simpl; (reflexivity || discriminate).
Qed.

Lemma showSafetyWarnings_blocked (result : SafetyCheckResult) (answer : option string) (w : World G) :
  safe result = false ->
  showSafetyWarnings result answer w
  = (Returned false,
     add_note (ErrorMessage ("Cannot proceed:" +:+ JS.nl +:+ JS.join JS.nl (blockers result))) w).
Proof. intros Hsafe. unfold showSafetyWarnings. rewrite Hsafe. reflexivity. Qed.

(** C4. [checkBeforeReset] reports a blocker exactly when the history query
    returns fewer than [commitCount] commits; its warnings are the hard-reset
    warning (when the mode is hard and there are uncommitted changes) followed
    by one warning per pushed commit of the range, and none of them touches
    the [safe] flag; on a blocked result [showSafetyWarnings] answers false and
    [undoLastCommit] issues no primitive, records nothing and leaves the
    repository as it was. *)
Theorem reset_check_blocks_short_history
    (mode : ResetMode) (commitCount : nat) (ans : UndoCommitAnswers) (w : World G) :
  undo_selectedCommit ans = Some commitCount ->
  undo_selectedMode ans = Some mode ->
  let commits := getRecentCommits commitCount (git w) in
  let result := checkBeforeReset mode commitCount (git w) in
  blockers result
  = (if length commits <? commitCount
     then ["Only " +:+ JS.show (length commits) +:+ " commits available, cannot undo "
           +:+ JS.show commitCount]
     else [])
  /\ warnings result
     = (match mode with
        | hard => if hasUncommittedChanges (git w)
                  then ["Hard reset will discard all uncommitted changes"] else []
        | _ => []
        end)
       ++ map pushedWarning (List.filter (fun c => isPushed (hash c) (git w)) commits)
  /\ safe result = negb (length commits <? commitCount)
  /\ (length commits < commitCount ->
      (forall answer (w0 : World G), fst (showSafetyWarnings result answer w0) = Returned false)
      /\ calls (snd (undoLastCommit ans w)) = calls w
      /\ git (snd (undoLastCommit ans w)) = git w
      /\ heap (snd (undoLastCommit ans w)) = heap w
      /\ actions (snd (undoLastCommit ans w)) = actions w).
Proof.
  intros Hcount Hmode commits result.
  assert (Hsafe : safe result = negb (length commits <? commitCount)).
  { subst result commits. unfold checkBeforeReset. simpl.
    destruct (_ <? _); reflexivity. }
  split; [reflexivity|].
  split.
  { subst result commits. unfold checkBeforeReset. simpl.
    rewrite pushWarnings_filter. reflexivity. }
  split; [exact Hsafe|].
  intros Hshort.
  assert (Hlt : (length commits <? commitCount) = true) by (apply Nat.ltb_lt; exact Hshort).
  rewrite Hlt in Hsafe. simpl in Hsafe.
  split.
  { intros answer w0. rewrite showSafetyWarnings_blocked by exact Hsafe. reflexivity. }
  unfold undoLastCommit, try_catch, bind, query, gets.
  destruct (length (getRecentCommits 5 (git w)) =? 0).
  - unfold showError, modify. simpl. repeat split; reflexivity.
  - rewrite Hcount, Hmode.
    fold result. rewrite showSafetyWarnings_blocked by exact Hsafe.
    simpl. repeat split; reflexivity.
Qed.

(** ** The action history ledger *)

Lemma saveToStorage_returns (w : World G) : fst (saveToStorage w) = Returned tt.
Proof. unfold saveToStorage. destruct (context w); reflexivity. Qed.

Lemma saveToStorage_frame (w : World G) :
  heap (snd (saveToStorage w)) = heap w
  /\ git (snd (saveToStorage w)) = git w
  /\ calls (snd (saveToStorage w)) = calls w
  /\ notes (snd (saveToStorage w)) = notes w
  /\ context (snd (saveToStorage w)) = context w
  /\ maxActionHistory (snd (saveToStorage w)) = maxActionHistory w.
Proof.
  unfold saveToStorage.
  destruct (context w) eqn:Hctx; simpl; rewrite ?Hctx; repeat split; reflexivity.
Qed.

Lemma saveToStorage_actions (w : World G) :
  context w = true ->
  actions (snd (saveToStorage w)) = JS.slice_from (- maxActionHistory w)%Z (actions w)
  /\ workspaceState (snd (saveToStorage w)) = Some (history (snd (saveToStorage w))).
Proof. intros Hctx. unfold saveToStorage. rewrite Hctx. simpl. split; reflexivity. Qed.

Lemma saveToStorage_expand (w : World G) :
  saveToStorage w = (Returned tt, snd (saveToStorage w)).
Proof. unfold saveToStorage. destruct (context w); reflexivity. Qed.

Lemma recordAction_deref (ty : ActionType) (desc : string) (cu : bool) (w : World G) :
  deref (snd (recordAction ty desc cu w)) (length (heap w))
  = Some {| id := generateId (length (heap w)); type := ty;
            timestamp := dateNow (length (heap w)); description := desc;
            beforeState := {| headHash := getHeadHash (git w);
                              branch := getCurrentBranch (git w) |};
            afterState := None; undoCommand := None; canUndo := cu |}.
Proof.
  unfold recordAction, deref. simpl.
  rewrite lookup_app_r by lia. by rewrite Nat.sub_diag.
Qed.

Lemma completeAction_deref (a : nat) (opened : RecordedAction) (w : World G) :
  deref w a = Some opened ->
  deref (snd (completeAction a w)) a
  = Some (complete {| headHash := getHeadHash (git w); branch := getCurrentBranch (git w) |}
                   opened).
Proof.
  intros Hopen. unfold completeAction, bind. rewrite Hopen.
  rewrite saveToStorage_expand.
  unfold deref. cbn [snd].
  destruct (saveToStorage_frame
              (set_heap (<[a:=complete {| headHash := getHeadHash (git w);
                                          branch := getCurrentBranch (git w) |} opened]> (heap w)) w))
    as [Hheap _].
  rewrite Hheap. simpl.
  apply list_lookup_insert_eq. unfold deref in Hopen. by eapply lookup_lt_Some.
Qed.

(** C5. A record opened by [recordAction] and closed by [completeAction]
    carries an [undoCommand] if and only if it was opened as undoable and the
    HEAD hash at closing differs from the one at opening; when HEAD has not
    moved in between, the command is absent. *)
Theorem undoCommand_iff_head_moved
    (ty : ActionType) (desc : string) (cu : bool) (w w2 : World G) :
  deref w2 (length (heap w)) = deref (snd (recordAction ty desc cu w)) (length (heap w)) ->
  exists closed,
    fst (recordAction ty desc cu w) = Returned (length (heap w))
    /\ deref (snd (completeAction (length (heap w)) w2)) (length (heap w)) = Some closed
    /\ beforeState closed
       = {| headHash := getHeadHash (git w); branch := getCurrentBranch (git w) |}
    /\ afterState closed
       = Some {| headHash := getHeadHash (git w2); branch := getCurrentBranch (git w2) |}
    /\ canUndo closed = cu
    /\ (undoCommand closed <> None
        <-> cu = true /\ getHeadHash (git w) <> getHeadHash (git w2))
    /\ (getHeadHash (git w2) = getHeadHash (git w) -> undoCommand closed = None).
Proof.
  intros Hsame. rewrite recordAction_deref in Hsame.
  eexists. split; [reflexivity|].
  split; [apply completeAction_deref; exact Hsame|].
  unfold complete. simpl.
  destruct (String.eqb_spec (getHeadHash (git w)) (getHeadHash (git w2))) as [Heq|Hne];
    destruct cu; simpl; repeat split; try reflexivity; try congruence;
    try (intros [? ?]; congruence); try (intros ?; congruence).
Qed.

(** After [completeAction] with a cap of at least one, the ledger holds the
    newest [maxActionHistory] references, oldest first, and the persisted log
    is that list by value. *)
Lemma completeAction_keeps_newest (a : nat) (w : World G) :
  context w = true ->
  (1 <= maxActionHistory w)%Z ->
  actions (snd (completeAction a w))
  = drop (length (actions w) - Z.to_nat (maxActionHistory w)) (actions w)
  /\ workspaceState (snd (completeAction a w)) = Some (history (snd (completeAction a w)))
  /\ (Z.of_nat (length (actions (snd (completeAction a w)))) <= maxActionHistory w)%Z.
Proof.
  intros Hctx Hcap. unfold completeAction, bind.
  destruct (deref w a) as [r|].
  - set (w1 := set_heap _ w).
    destruct (saveToStorage_actions w1 Hctx) as [Hsl Hws].
    rewrite (saveToStorage_expand w1). cbn [snd].
    rewrite Hsl, Hws. subst w1. cbn [maxActionHistory actions set_heap].
    rewrite slice_from_neg_cap by exact Hcap.
    repeat split. rewrite length_drop. lia.
  - destruct (saveToStorage_actions w Hctx) as [Hsl Hws].
    rewrite (saveToStorage_expand w). cbn [snd].
    rewrite Hsl, Hws, slice_from_neg_cap by exact Hcap.
    repeat split. rewrite length_drop. lia.
Qed.

Lemma record_complete_step (ty : ActionType) (desc : string) (w : World G) :
  (1 <= maxActionHistory w)%Z ->
  newestRefs w ->
  exists w',
    (action <- recordAction ty desc true ;; completeAction action) w = (Returned tt, w')
    /\ newestRefs w'
    /\ length (heap w') = S (length (heap w))
    /\ length (actions w') = S (length (actions w)) `min` Z.to_nat (maxActionHistory w)
    /\ maxActionHistory w' = maxActionHistory w
    /\ workspaceState w' = Some (history w').
Proof.
  intros Hcap (Hctx & Hle & Hrefs).
  unfold bind at 1. unfold recordAction at 1. cbn iota beta.
  set (w1 := set_actions _ _).
  assert (Hctx1 : context w1 = true) by exact Hctx.
  assert (Hcap1 : (1 <= maxActionHistory w1)%Z) by exact Hcap.
  destruct (completeAction_keeps_newest (length (heap w)) w1 Hctx1 Hcap1) as (Hact & Hws & _).
  exists (snd (completeAction (length (heap w)) w1)).
  assert (Hfst : fst (completeAction (length (heap w)) w1) = Returned tt).
  { unfold completeAction, bind. destruct (deref w1 _); apply saveToStorage_returns. }
  assert (Hheap : length (heap (snd (completeAction (length (heap w)) w1)))
                  = S (length (heap w))).
  { unfold completeAction, bind.
    destruct (deref w1 _);
      rewrite saveToStorage_expand; cbn [snd];
      match goal with |- context [saveToStorage ?x] =>
        destruct (saveToStorage_frame x) as [-> _] end;
      subst w1; simpl; rewrite ?length_insert, length_app; simpl; lia. }
  assert (Hmax : maxActionHistory (snd (completeAction (length (heap w)) w1))
                 = maxActionHistory w).
  { unfold completeAction, bind.
    destruct (deref w1 _);
      rewrite saveToStorage_expand; cbn [snd];
      match goal with |- context [saveToStorage ?x] =>
        destruct (saveToStorage_frame x) as (_ & _ & _ & _ & _ & ->) end;
      reflexivity. }
  assert (Hctx' : context (snd (completeAction (length (heap w)) w1)) = true).
  { unfold completeAction, bind.
    destruct (deref w1 _);
      rewrite saveToStorage_expand; cbn [snd];
      match goal with |- context [saveToStorage ?x] =>
        destruct (saveToStorage_frame x) as (_ & _ & _ & _ & -> & _) end;
      exact Hctx. }
  assert (Hnew : actions w1
                 = seq (length (heap w) - length (actions w)) (S (length (actions w)))).
  { subst w1. unfold set_actions. cbn [actions]. rewrite seq_S.
    rewrite Hrefs at 1. do 2 f_equal. lia. }
  rewrite Hnew in Hact. rewrite length_seq, drop_seq in Hact.
  change (maxActionHistory w1) with (maxActionHistory w) in Hact.
  split; [destruct (completeAction _ w1); simpl in *; congruence|].
  split; [|split; [exact Hheap|split; [|split; [exact Hmax|exact Hws]]]].
  - split; [exact Hctx'|]. rewrite Hheap, Hact, length_seq. split; [lia|].
    f_equal; lia.
  - rewrite Hact, length_seq. lia.
Qed.

(** Supporting fact for C6: with a cap of at least one, after any run of
    recorded-and-completed actions the ledger holds the newest objects, at
    most [maxActionHistory] of them, oldest first, and the persisted log is
    exactly that list. *)
Lemma recordAll_keeps_newest (items : list (ActionType * string)) (w : World G) :
  (1 <= maxActionHistory w)%Z ->
  newestRefs w ->
  exists w',
    recordAll items w = (Returned tt, w')
    /\ newestRefs w'
    /\ length (heap w') = length (heap w) + length items
    /\ (items <> [] ->
        length (actions w')
        = (length (actions w) + length items) `min` Z.to_nat (maxActionHistory w)
        /\ workspaceState w' = Some (history w')).
Proof.
  revert w. induction items as [|[ty desc] rest IH]; intros w Hcap Hinv.
  - exists w. simpl. split; [reflexivity|]. split; [exact Hinv|].
    split; [lia|]. intros Hne. by destruct Hne.
  - destruct (record_complete_step ty desc w Hcap Hinv)
      as (w1 & Hrun & Hinv1 & Hheap1 & Hact1 & Hmax1 & Hws1).
    assert (Hcap1 : (1 <= maxActionHistory w1)%Z) by (rewrite Hmax1; exact Hcap).
    destruct (IH w1 Hcap1 Hinv1) as (w' & Hrest & Hinv' & Hheap' & Hlast).
    exists w'. split.
    { simpl. unfold bind at 1.
      unfold bind at 1 in Hrun.
      destruct (recordAction ty desc true w) as [[a|e] w0] eqn:Hrec; [|discriminate].
      unfold bind at 1. rewrite Hrun. exact Hrest. }
    split; [exact Hinv'|].
    split; [rewrite Hheap', Hheap1; simpl; lia|].
    intros _. destruct rest as [|r rest'].
    + simpl in Hrest. injection Hrest as <-. split; [|exact Hws1].
      rewrite Hact1. cbn [length]. lia.
    + destruct Hlast as [Hlen Hws]; [discriminate|]. split; [|exact Hws].
      rewrite Hlen, Hact1, Hmax1. cbn [length]. lia.
Qed.

(** ** Undoing the last action *)

Lemma lastUndoableIn_app (w : World G) (older newer : list nat) :
  lastUndoableIn w (older ++ newer)
  = match lastUndoableIn w newer with
    | Some found => Some found
    | None => lastUndoableIn w older
    end.
Proof.
  induction older as [|x older IH]; simpl.
  - by destruct (lastUndoableIn w newer).
  - rewrite IH. by destruct (lastUndoableIn w newer).
Qed.

Lemma lastUndoableIn_none (w : World G) (refs : list nat) :
  lastUndoableIn w refs = None <-> Forall (fun x => undoable_ref w x = false) refs.
Proof.
  induction refs as [|x refs IH]; simpl.
  - split; [constructor|reflexivity].
  - destruct (lastUndoableIn w refs) as [found|].
    + split; [discriminate|]. intros H. inversion H; subst.
      destruct IH as [_ IH]. by specialize (IH ltac:(assumption)).
    + destruct (undoable_ref w x) eqn:Hx.
      * split; [discriminate|]. intros H. inversion H; congruence.
      * split; [|reflexivity]. intros _. constructor; [exact Hx|]. by apply IH.
Qed.

(** The record found is the newest undoable one: nothing after it in
    [this.actions] is undoable. *)
Lemma lastUndoableIn_newest (w : World G) (refs : list nat) (r : nat) :
  lastUndoableIn w refs = Some r ->
  exists pre post,
    refs = pre ++ r :: post
    /\ undoable_ref w r = true
    /\ Forall (fun x => undoable_ref w x = false) post.
Proof.
  induction refs as [|x refs IH]; simpl; [discriminate|].
  destruct (lastUndoableIn w refs) as [found|] eqn:Hrest.
  - intros [= ->]. destruct (IH eq_refl) as (pre & post & -> & Hr & Hpost).
    by exists (x :: pre), post.
  - destruct (undoable_ref w x) eqn:Hx; [|discriminate].
    intros [= ->]. exists [], refs. repeat split; [exact Hx|].
    by apply lastUndoableIn_none.
Qed.

Lemma lastUndoableIn_ext (w w' : World G) (refs : list nat) :
  Forall (fun x => undoable_ref w' x = undoable_ref w x) refs ->
  lastUndoableIn w' refs = lastUndoableIn w refs.
Proof.
  induction 1 as [|x refs Hx _ IH]; simpl; [reflexivity|].
  by rewrite IH, Hx.
Qed.

Lemma saveToStorage_drop (w : World G) :
  exists k,
    actions (snd (saveToStorage w)) = drop k (actions w)
    /\ (context w = false -> k = 0)
    /\ (context w = true -> (1 <= maxActionHistory w)%Z ->
        k = length (actions w) - Z.to_nat (maxActionHistory w)).
Proof.
  unfold saveToStorage. destruct (context w) eqn:Hctx; simpl.
  - unfold JS.slice_from. eexists. split; [reflexivity|].
    split; [discriminate|]. intros _ Hcap.
    destruct (Z.ltb_spec (- maxActionHistory w) 0); lia.
  - exists 0. repeat split. discriminate.
Qed.

(** What [saveToStorage] does to [this.actions] and to the persisted log,
    for every value of the cap: without a context nothing; with one, the
    [k] oldest references are dropped, where [k] is the excess over a cap of
    at least 1, none for a cap of 0 ([slice(-0)] is [slice(0)]), and the first
    [-cap] ones for a negative cap; what is left is written out. *)
Lemma saveToStorage_cut (w : World G) :
  exists k,
    actions (snd (saveToStorage w)) = drop k (actions w)
    /\ k = (if context w
            then if (1 <=? maxActionHistory w)%Z
                 then length (actions w) - Z.to_nat (maxActionHistory w)
                 else Z.to_nat (- maxActionHistory w) `min` length (actions w)
            else 0)
    /\ workspaceState (snd (saveToStorage w))
       = (if context w then Some (history (snd (saveToStorage w))) else workspaceState w).
Proof.
  unfold saveToStorage. destruct (context w) eqn:Hctx; cbn [negb snd].
  - cbn [actions set_actions set_workspaceState workspaceState].
    eexists. split; [unfold JS.slice_from; reflexivity|]. split; [|reflexivity].
    destruct (Z.ltb_spec (- maxActionHistory w) 0), (Z.leb_spec 1 (maxActionHistory w)); lia.
  - exists 0. by repeat split.
Qed.

(** C1 (as amended). Without an undoable record [undoLastAction] fails with
    "No undoable actions in history" and changes nothing. Otherwise, when the
    recorded hash is not empty and the hard reset returns, it has issued
    exactly one primitive, the hard reset to the [beforeState.headHash] of the
    newest record with [canUndo] and [undoCommand]; it then clears that
    record's [canUndo], touching no other record, shows nothing, and calls
    [saveToStorage]: without a context nothing is cut and nothing is
    persisted; with a context the [k] oldest references are dropped ([k] is
    the excess over a cap of at least 1, zero for a cap of 0, the first
    [-cap] references for a negative cap) and the records left are written to
    the workspace state. The next call never selects the same record again:
    it selects the newest undoable record among the older references that
    were kept, which is the next-most-recent undoable record of the original
    history when nothing was dropped. ([this.actions] lists each object once:
    every [push] is of a fresh object.) *)
Theorem undo_reverts_newest_undoable (w : World G) :
  (getLastUndoableAction w = None ->
   undoLastAction w
   = (Returned {| success := false; undo_message := "No undoable actions in history" |}, w))
  /\ (forall r rec g',
        getLastUndoableAction w = Some r ->
        deref w r = Some rec ->
        headHash (beforeState rec) <> EmptyString ->
        primitive (HardReset (headHash (beforeState rec))) (git w) = (g', None) ->
        NoDup (actions w) ->
        exists pre post k w',
          actions w = pre ++ r :: post
          /\ undoable rec = true
          /\ Forall (fun x => undoable_ref w x = false) post
          /\ undoLastAction w
             = (Returned {| success := true;
                            undo_message := "Undid " +:+ JS.quote +:+ description rec
                                            +:+ JS.quote |}, w')
          /\ git w' = g'
          /\ calls w'
             = calls w ++ [{| call := HardReset (headHash (beforeState rec));
                              returned := true |}]
          /\ notes w' = notes w
          /\ heap w' = <[r := with_canUndo false rec]> (heap w)
          /\ actions w' = drop k (actions w)
          /\ k = (if context w
                  then if (1 <=? maxActionHistory w)%Z
                       then length (actions w) - Z.to_nat (maxActionHistory w)
                       else Z.to_nat (- maxActionHistory w) `min` length (actions w)
                  else 0)
          /\ workspaceState w'
             = (if context w then Some (omap (fun a => heap w' !! a) (actions w'))
                else workspaceState w)
          /\ getLastUndoableAction w' <> Some r
          /\ getLastUndoableAction w' = lastUndoableIn w (drop k pre)
          /\ (k = 0 -> getLastUndoableAction w' = lastUndoableIn w pre)).
Proof.
  split.
  { intros Hnone. unfold undoLastAction. by rewrite Hnone. }
  intros r rec g' Hlast Hrec Hhash Hreset Hnodup.
  destruct (lastUndoableIn_newest w (actions w) r Hlast) as (pre & post & Hsplit & Hr & Hpost).
  set (w1 := set_heap (<[r := with_canUndo false rec]> (heap w))
               (add_call {| call := HardReset (headHash (beforeState rec)); returned := true |}
                         (set_git g' w))).
  destruct (saveToStorage_cut w1) as (k & Hk & Hcut & Hstate).
  destruct (saveToStorage_frame w1) as (Hheap & Hgit & Hcalls & Hnotes & _).
  assert (Hund : undoable rec = true).
  { unfold undoable_ref in Hr. by rewrite Hrec in Hr. }
  assert (Hlt : r < length (heap w)) by (by eapply lookup_lt_Some).
  (* the status of every record after the undo *)
  assert (Hstatus : forall x,
             undoable_ref (snd (saveToStorage w1)) x
             = if decide (x = r) then false else undoable_ref w x).
  { intros x. unfold undoable_ref, deref. rewrite Hheap. subst w1. cbn [heap set_heap].
    destruct (decide (x = r)) as [->|Hne].
    - rewrite list_lookup_insert_eq by exact Hlt. reflexivity.
    - rewrite list_lookup_insert_ne by congruence. reflexivity. }
  assert (Hself : undoable_ref (snd (saveToStorage w1)) r = false).
  { rewrite Hstatus. by destruct (decide (r = r)). }
  assert (Hgone : Forall (fun x => undoable_ref (snd (saveToStorage w1)) x = false) (r :: post)).
  { constructor; [exact Hself|].
    eapply Forall_impl; [exact Hpost|]. intros x Hx. cbn beta.
    rewrite Hstatus. by destruct (decide (x = r)). }
  assert (Hnext : getLastUndoableAction (snd (saveToStorage w1)) = lastUndoableIn w (drop k pre)).
  { unfold getLastUndoableAction. rewrite Hk.
    change (actions w1) with (actions w). rewrite Hsplit.
    rewrite Hsplit in Hnodup. apply NoDup_app in Hnodup as (_ & Hdisj & _).
    assert (Hpre : r ∉ pre).
    { intros Hin. apply (Hdisj r Hin). apply list_elem_of_here. }
    destruct (decide (k <= length pre)) as [Hle|Hgt].
    - rewrite drop_app_le by exact Hle.
      rewrite lastUndoableIn_app.
      assert (Htail : lastUndoableIn (snd (saveToStorage w1)) (r :: post) = None)
        by (by apply lastUndoableIn_none).
      rewrite Htail.
      apply lastUndoableIn_ext, Forall_forall. intros x Hx. rewrite Hstatus.
      destruct (decide (x = r)) as [->|]; [|reflexivity].
      exfalso. apply Hpre. by eapply subseteq_drop.
    - rewrite drop_app_ge by lia. rewrite (drop_ge pre) by lia. cbn [lastUndoableIn].
      apply lastUndoableIn_none. by apply Forall_drop. }
  exists pre, post, k, (snd (saveToStorage w1)).
  split; [exact Hsplit|]. split; [exact Hund|]. split; [exact Hpost|].
  split.
  { unfold undoLastAction. rewrite Hlast, Hrec.
    destruct (String.eqb_spec (headHash (beforeState rec)) EmptyString); [contradiction|].
    unfold try_catch, bind, git_do. rewrite Hreset. unfold modify, ret.
    cbn [heap add_call set_git].
    change (saveToStorage (set_heap _ _)) with (saveToStorage w1).
    by rewrite (saveToStorage_expand w1). }
  split; [rewrite Hgit; reflexivity|].
  split; [rewrite Hcalls; reflexivity|].
  split; [rewrite Hnotes; reflexivity|].
  split; [rewrite Hheap; reflexivity|].
  split; [exact Hk|]. split; [exact Hcut|]. split; [exact Hstate|].
  split.
  { intros Hagain. apply lastUndoableIn_newest in Hagain as (_ & _ & _ & Hyes & _).
    congruence. }
  split; [exact Hnext|].
  intros Hzero. rewrite Hnext, Hzero. by rewrite drop_0.
Qed.

(** ** Moving commits to a branch *)

Lemma bind_run {A B} (m : M G A) (k : A -> M G B) (w : World G) :
  bind m k w
  = match m w with
    | (Returned a, w') => k a w'
    | (Thrown e, w') => (Thrown e, w')
    end.
Proof. reflexivity. Qed.

Lemma git_do_run (c : GitCall) (w : World G) :
  git_do c w
  = match snd (primitive c (git w)) with
    | None => (Returned tt, issue w (ok c))
    | Some e => (Thrown e, issue w (failed c))
    end.
Proof.
  unfold git_do, issue, ok, failed. cbn [call].
  destruct (primitive c (git w)) as [g' [e|]]; reflexivity.
Qed.

Lemma issued_frame (evs : list Event) (w : World G) :
  calls (issued evs w) = calls w ++ evs
  /\ git (issued evs w) = replay (map call evs) (git w)
  /\ notes (issued evs w) = notes w
  /\ heap (issued evs w) = heap w
  /\ actions (issued evs w) = actions w
  /\ context (issued evs w) = context w
  /\ workspaceState (issued evs w) = workspaceState w
  /\ maxActionHistory (issued evs w) = maxActionHistory w.
Proof.
  revert w. induction evs as [|e evs IH]; intros w.
  - cbn. rewrite app_nil_r. repeat split; reflexivity.
  - cbn [issued foldl map replay]. fold (issued evs (issue w e)).
    fold (replay (map call evs) (fst (primitive (call e) (git w)))).
    destruct (IH (issue w e)) as (-> & -> & -> & -> & -> & -> & -> & ->).
    cbn. rewrite <- app_assoc. repeat split; reflexivity.
Qed.

Lemma issued_app (evs1 evs2 : list Event) (w : World G) :
  issued (evs1 ++ evs2) w = issued evs2 (issued evs1 w).
Proof. unfold issued. apply foldl_app. Qed.

(** The loop either picks every commit, or stops at the first one whose
    cherry-pick throws, after reporting it. *)
Lemma cherryPickAll_run (commitsToMove : list Commit) (w : World G) :
  cherryPickAll commitsToMove w = (Returned true, issued (map (ok ∘ pick) commitsToMove) w)
  \/ exists pre commit post,
       commitsToMove = pre ++ commit :: post
       /\ cherryPickAll commitsToMove w
          = (Returned false,
             add_note (pickFailedNote commit)
                      (issued (map (ok ∘ pick) pre ++ [failed (pick commit)]) w)).
Proof.
  revert w. induction commitsToMove as [|c rest IH]; intros w.
  - left. reflexivity.
  - cbn [cherryPickAll]. unfold bind, try_catch, ret, showError, modify. cbv beta.
    rewrite git_do_run.
    destruct (snd (primitive (CherryPick (hash c)) (git w))) as [e|] eqn:Hprim.
    + right. exists [], c, rest. split; reflexivity.
    + destruct (IH (issue w (ok (CherryPick (hash c))))) as [Hall|(pre & c' & post & -> & Hstop)].
      * left. rewrite Hall. reflexivity.
      * right. exists (c :: pre), c', post. split; [reflexivity|].
        rewrite Hstop. reflexivity.
Qed.

Lemma completeAction_returns (a : nat) (w : World G) :
  completeAction a w = (Returned tt, snd (completeAction a w)).
Proof.
  unfold completeAction, bind. destruct (deref w a); apply saveToStorage_expand.
Qed.

(** The five ways the steps of a move can end: the first checkout throws,
    a cherry-pick throws, the checkout back throws, the hard reset throws, or
    every step returns. *)
Lemma moveSteps_run (commits : list Commit) (N : nat) (cur : option string)
    (newB : bool) (target : string) (w : World G) :
  let w0 := snd (recordAction move_commits (moveDescription N target) true w) in
  let enter := enterTarget newB target cur N in
  let cs := rev (take N commits) in
  let reset := HardReset ("HEAD~" +:+ JS.show N) in
  (exists e, moveSteps commits N cur newB target w = (Thrown e, issued [failed enter] w0))
  \/ (exists pre c post,
        cs = pre ++ c :: post
        /\ moveSteps commits N cur newB target w
           = (Returned tt,
              add_note (pickFailedNote c)
                       (issued (ok enter :: map (ok ∘ pick) pre ++ [failed (pick c)]) w0)))
  \/ (exists e,
        moveSteps commits N cur newB target w
        = (Thrown e,
           issued (ok enter :: map (ok ∘ pick) cs ++ [failed (CheckoutBranch cur)]) w0))
  \/ (exists e,
        moveSteps commits N cur newB target w
        = (Thrown e,
           issued (ok enter :: map (ok ∘ pick) cs ++ [ok (CheckoutBranch cur); failed reset])
                  w0))
  \/ moveSteps commits N cur newB target w
     = (Returned tt,
        add_note (moveSuccess N target)
          (snd (completeAction (length (heap w))
                  (issued (ok enter :: map (ok ∘ pick) cs
                                    ++ [ok (CheckoutBranch cur); ok reset]) w0)))).
Proof.
  intros w0 enter cs reset.
  assert (Hrec : recordAction move_commits (moveDescription N target) true w
                 = (Returned (length (heap w)), w0)) by reflexivity.
  unfold moveSteps. fold enter. fold cs. fold (moveDescription N target).
  rewrite bind_run, Hrec. unfold query, gets. rewrite bind_run.
  rewrite bind_run, git_do_run.
  destruct (snd (primitive enter (git w0))) as [e|] eqn:Henter.
  { left. exists e. reflexivity. }
  right. rewrite bind_run.
  destruct (cherryPickAll_run cs (issue w0 (ok enter))) as [Hall|(pre & c & post & Hsplit & Hstop)].
  2:{ left. exists pre, c, post. split; [exact Hsplit|]. rewrite Hstop. reflexivity. }
  right. rewrite Hall. cbn [negb].
  set (w2 := issued (map (ok ∘ pick) cs) (issue w0 (ok enter))).
  assert (Hw2 : forall evs, issued evs w2 = issued (ok enter :: map (ok ∘ pick) cs ++ evs) w0).
  { intros evs. subst w2. change (ok enter :: map (ok ∘ pick) cs ++ evs)
      with ([ok enter] ++ (map (ok ∘ pick) cs ++ evs)).
    rewrite issued_app, issued_app. reflexivity. }
  rewrite bind_run, git_do_run.
  destruct (snd (primitive (CheckoutBranch cur) (git w2))) as [e|] eqn:Hback.
  { left. exists e. rewrite <- Hw2. reflexivity. }
  right. rewrite bind_run, git_do_run.
  destruct (snd (primitive (HardReset ("HEAD~" +:+ JS.show N))
                           (git (issue w2 (ok (CheckoutBranch cur)))))) as [e|] eqn:Hreset.
  { left. exists e. rewrite <- Hw2. reflexivity. }
  right. rewrite bind_run, completeAction_returns.
  rewrite <- Hw2. reflexivity.
Qed.

(** [moveCommits] either returns before its first step, having shown at
    most one message that is not the success message, or runs the steps on
    the answers given, reporting whatever they throw. *)
Lemma moveCommits_run (ans : MoveAnswers) (w : World G) :
  (moveCommits ans w = (Returned tt, w)
   \/ exists text, moveCommits ans w = (Returned tt, add_note (ErrorMessage text) w)
                   \/ moveCommits ans w = (Returned tt, add_note (WarningMessage text) w))
  \/ exists N sel target ws,
       move_selectedCommit ans = Some N
       /\ move_selectedBranch ans = Some sel
       /\ chosenTarget ans sel = Some target
       /\ (ws = w \/ exists text, ws = add_note (WarningMessage text) w)
       /\ moveCommits ans w
          = match moveSteps (getRecentCommits 10 (git w)) N (getCurrentBranch (git w))
                            (isNew sel) target ws with
            | (Thrown e, w') =>
                (Returned tt,
                 add_note (ErrorMessage ("✗ Git Panic: Failed to move commits: " +:+ e)) w')
            | (Returned _, w') => (Returned tt, w')
            end.
Proof.
  unfold moveCommits, try_catch. rewrite bind_run. unfold query, gets.
  destruct (length (getRecentCommits 10 (git w)) =? 0).
  { left. right. eexists. left. reflexivity. }
  destruct (move_selectedCommit ans) as [N|] eqn:HN; [|left; left; reflexivity].
  rewrite !bind_run.
  destruct (move_selectedBranch ans) as [sel|] eqn:Hsel; [|left; left; reflexivity].
  destruct (chosenTarget ans sel) as [target|] eqn:Htarget; [|left; left; reflexivity].
  rewrite !bind_run. unfold showSafetyWarnings.
  destruct (safe (checkBeforeReset hard N (git w))).
  2:{ left. right. eexists. left. reflexivity. }
  cbn [negb].
  destruct (0 <? length (warnings (checkBeforeReset hard N (git w)))).
  - rewrite bind_run. unfold modify, ret.
    destruct (move_proceed ans) as [label|]; [|left; right; eexists; right; reflexivity].
    destruct (String.eqb label "Proceed Anyway");
      [|left; right; eexists; right; reflexivity].
    cbn [negb].
    destruct (move_confirm ans) as [yes|]; [|left; right; eexists; right; reflexivity].
    destruct (String.eqb yes "Yes, move commits");
      [|left; right; eexists; right; reflexivity].
    right.
    match goal with |- context [moveSteps _ _ _ _ _ ?x] => exists N, sel, target, x end.
    do 2 (split; [reflexivity|]). split; [exact Htarget|].
    split; [right; eexists; reflexivity|].
    destruct (moveSteps _ _ _ _ _ _) as [[[]|e] w']; reflexivity.
  - unfold ret. cbn [negb].
    destruct (move_confirm ans) as [yes|]; [|left; left; reflexivity].
    destruct (String.eqb yes "Yes, move commits"); [|left; left; reflexivity].
    right. exists N, sel, target, w.
    do 2 (split; [reflexivity|]). split; [exact Htarget|].
    split; [left; reflexivity|].
    destruct (moveSteps _ _ _ _ _ _) as [[[]|e] w']; reflexivity.
Qed.

Lemma completeAction_frame (a : nat) (w : World G) :
  git (snd (completeAction a w)) = git w
  /\ calls (snd (completeAction a w)) = calls w
  /\ notes (snd (completeAction a w)) = notes w.
Proof.
  unfold completeAction. rewrite bind_run.
  destruct (deref w a);
    match goal with |- context [saveToStorage ?x] =>
      destruct (saveToStorage_frame x) as (_ & -> & -> & -> & _) end;
    repeat split; reflexivity.
Qed.

Lemma steps_frame (evs : list Event) (ty : ActionType) (desc : string) (cu : bool)
    (w : World G) :
  calls (issued evs (snd (recordAction ty desc cu w))) = calls w ++ evs
  /\ git (issued evs (snd (recordAction ty desc cu w))) = replay (map call evs) (git w)
  /\ notes (issued evs (snd (recordAction ty desc cu w))) = notes w
  /\ heap (issued evs (snd (recordAction ty desc cu w))) = heap w ++ [openRecord w ty desc cu]
  /\ actions (issued evs (snd (recordAction ty desc cu w))) = actions w ++ [length (heap w)]
  /\ workspaceState (issued evs (snd (recordAction ty desc cu w))) = workspaceState w.
Proof.
  destruct (issued_frame evs (snd (recordAction ty desc cu w)))
    as (-> & -> & -> & -> & -> & _ & -> & _).
  repeat split; reflexivity.
Qed.

Lemma newCalls_app (w w' : World G) (evs : list Event) :
  calls w' = calls w ++ evs -> newCalls w w' = evs.
Proof. intros H. unfold newCalls. rewrite H. apply drop_app_length. Qed.

Lemma newNotes_app (w w' : World G) (ns : list Notification) :
  notes w' = notes w ++ ns -> newNotes w w' = ns.
Proof. intros H. unfold newNotes. rewrite H. apply drop_app_length. Qed.

Lemma picks_returned (cs : list Commit) :
  Forall (fun e => isFailedPick e = false) (map (ok ∘ pick) cs).
Proof. apply Forall_fmap, Forall_true. reflexivity. Qed.

Lemma enter_not_pick (newB : bool) (target : string) (cur : option string) (N : nat)
    (r : bool) :
  isFailedPick {| call := enterTarget newB target cur N; returned := r |} = false.
Proof. unfold enterTarget. destruct newB; reflexivity. Qed.

(** Every run of [moveCommits], read off the world it leaves: it returns
    (its [catch] reports what is thrown) and either nothing was issued, or
    some step other than a cherry-pick threw, or a cherry-pick threw and the
    run stopped there, or every step returned. *)
Lemma moveCommits_outcomes (ans : MoveAnswers) (w : World G) :
  fst (moveCommits ans w) = Returned tt
  /\ ((newCalls w (snd (moveCommits ans w)) = []
       /\ heap (snd (moveCommits ans w)) = heap w
       /\ actions (snd (moveCommits ans w)) = actions w
       /\ Forall (fun n => isInformation n = false) (newNotes w (snd (moveCommits ans w))))
      \/ exists N sel target,
           move_selectedCommit ans = Some N
           /\ move_selectedBranch ans = Some sel
           /\ chosenTarget ans sel = Some target
           /\ git (snd (moveCommits ans w))
              = replay (map call (newCalls w (snd (moveCommits ans w)))) (git w)
           /\ ((Forall (fun e => isFailedPick e = false) (newCalls w (snd (moveCommits ans w)))
                /\ Forall (fun n => isInformation n = false)
                          (newNotes w (snd (moveCommits ans w))))
               \/ (exists pre c post,
                     rev (take N (getRecentCommits 10 (git w))) = pre ++ c :: post
                     /\ newCalls w (snd (moveCommits ans w))
                        = ok (enterTarget (isNew sel) target (getCurrentBranch (git w)) N)
                          :: map (ok ∘ pick) pre ++ [failed (pick c)]
                     /\ last (notes (snd (moveCommits ans w))) = Some (pickFailedNote c)
                     /\ Forall (fun n => isInformation n = false)
                               (newNotes w (snd (moveCommits ans w)))
                     /\ heap (snd (moveCommits ans w))
                        = heap w ++ [openRecord w move_commits (moveDescription N target) true]
                     /\ actions (snd (moveCommits ans w)) = actions w ++ [length (heap w)]
                     /\ workspaceState (snd (moveCommits ans w)) = workspaceState w)
               \/ (newCalls w (snd (moveCommits ans w))
                   = map ok (enterTarget (isNew sel) target (getCurrentBranch (git w)) N
                             :: map pick (rev (take N (getRecentCommits 10 (git w))))
                             ++ [CheckoutBranch (getCurrentBranch (git w));
                                 HardReset ("HEAD~" +:+ JS.show N)])
                   /\ last (notes (snd (moveCommits ans w))) = Some (moveSuccess N target)
                   /\ List.filter isInformation (newNotes w (snd (moveCommits ans w)))
                      = [moveSuccess N target]))).
Proof.
  destruct (moveCommits_run ans w)
    as [[Hrun|[text [Hrun|Hrun]]]|(N & sel & target & ws & HN & Hsel & Htarget & Hws & Hrun)].
  1-3: rewrite Hrun; split; [reflexivity|]; left; cbn [snd];
       unfold newCalls, newNotes; cbn [calls notes heap actions add_note];
       rewrite ?drop_all, ?drop_app_length; repeat split; repeat constructor.
  set (cur := getCurrentBranch (git w)) in *.
  set (commits := getRecentCommits 10 (git w)) in *.
  assert (Hsame : exists pre,
             (pre = [] \/ exists t, pre = [WarningMessage t])
             /\ notes ws = notes w ++ pre
             /\ forall evs,
                  let W := issued evs (snd (recordAction move_commits (moveDescription N target)
                                                         true ws)) in
                  calls W = calls w ++ evs
                  /\ git W = replay (map call evs) (git w)
                  /\ notes W = notes w ++ pre
                  /\ heap W = heap w ++ [openRecord w move_commits (moveDescription N target) true]
                  /\ actions W = actions w ++ [length (heap w)]
                  /\ workspaceState W = workspaceState w).
  { destruct Hws as [->|[t ->]].
    - exists []. split; [by left|]. rewrite app_nil_r. split; [reflexivity|].
      intros evs. apply steps_frame.
    - exists [WarningMessage t]. split; [right; by exists t|]. split; [reflexivity|].
      intros evs. apply (steps_frame evs move_commits (moveDescription N target) true
                           (add_note (WarningMessage t) w)). }
  destruct Hsame as (shown & Hshown & _ & Hframe).
  assert (Hquiet : forall n, isInformation n = false ->
             Forall (fun n => isInformation n = false) (shown ++ [n])).
  { intros n Hn. apply Forall_app. split; [|by constructor].
    destruct Hshown as [->|[t ->]]; repeat constructor. }
  destruct (moveSteps_run commits N cur (isNew sel) target ws)
    as [[e Hsteps]|[(pre & c & post & Hsplit & Hsteps)|[[e Hsteps]|[[e Hsteps]|Hsteps]]]];
    rewrite Hsteps in Hrun; rewrite Hrun; clear Hrun Hsteps; cbn [fst snd];
    (split; [reflexivity|]); right; exists N, sel, target;
    (split; [exact HN|]); (split; [exact Hsel|]); (split; [exact Htarget|]).
  - destruct (Hframe [failed (enterTarget (isNew sel) target cur N)]) as (Hc & Hg & Hn & _).
    rewrite (newCalls_app w _ [failed (enterTarget (isNew sel) target cur N)]) by exact Hc.
    split; [exact Hg|]. left. split.
    + repeat constructor. apply enter_not_pick.
    + erewrite newNotes_app;
        [|cbn [notes add_note]; rewrite Hn, <- app_assoc; reflexivity].
      apply Hquiet. reflexivity.
  - destruct (Hframe (ok (enterTarget (isNew sel) target cur N) :: map (ok ∘ pick) pre ++ [failed (pick c)]))
      as (Hc & Hg & Hn & Hh & Ha & Hs).
    rewrite (newCalls_app w _ (ok (enterTarget (isNew sel) target cur N) :: map (ok ∘ pick) pre ++ [failed (pick c)]))
      by exact Hc.
    split; [exact Hg|]. right. left. exists pre, c, post.
    split; [exact Hsplit|]. split; [reflexivity|].
    split; [cbn [notes add_note]; apply last_snoc|].
    split.
    { erewrite newNotes_app;
        [|cbn [notes add_note]; rewrite Hn, <- app_assoc; reflexivity].
      apply Hquiet. reflexivity. }
    split; [exact Hh|]. split; [exact Ha|exact Hs].
  - destruct (Hframe (ok (enterTarget (isNew sel) target cur N) :: map (ok ∘ pick) (rev (take N commits))
                        ++ [failed (CheckoutBranch cur)])) as (Hc & Hg & Hn & _).
    erewrite newCalls_app by exact Hc.
    split; [exact Hg|]. left. split.
    + constructor; [apply enter_not_pick|]. apply Forall_app. split; [apply picks_returned|].
      repeat constructor.
    + erewrite newNotes_app;
        [|cbn [notes add_note]; rewrite Hn, <- app_assoc; reflexivity].
      apply Hquiet. reflexivity.
  - destruct (Hframe (ok (enterTarget (isNew sel) target cur N) :: map (ok ∘ pick) (rev (take N commits))
                        ++ [ok (CheckoutBranch cur);
                            failed (HardReset ("HEAD~" +:+ JS.show N))])) as (Hc & Hg & Hn & _).
    erewrite newCalls_app by exact Hc.
    split; [exact Hg|]. left. split.
    + constructor; [apply enter_not_pick|]. apply Forall_app. split; [apply picks_returned|].
      repeat constructor.
    + erewrite newNotes_app;
        [|cbn [notes add_note]; rewrite Hn, <- app_assoc; reflexivity].
      apply Hquiet. reflexivity.
  - destruct (Hframe (ok (enterTarget (isNew sel) target cur N) :: map (ok ∘ pick) (rev (take N commits))
                        ++ [ok (CheckoutBranch cur);
                            ok (HardReset ("HEAD~" +:+ JS.show N))])) as (Hc & Hg & Hn & _).
    match goal with |- context [completeAction ?a ?x] =>
      destruct (completeAction_frame a x) as (Hg' & Hc' & Hn') end.
    assert (Hcalls : calls (add_note (moveSuccess N target)
                      (snd (completeAction (length (heap ws))
                         (issued (ok (enterTarget (isNew sel) target cur N) :: map (ok ∘ pick) (rev (take N commits))
                                   ++ [ok (CheckoutBranch cur);
                                       ok (HardReset ("HEAD~" +:+ JS.show N))])
                            (snd (recordAction move_commits (moveDescription N target)
                                               true ws))))))
                     = calls w ++ map ok ((enterTarget (isNew sel) target cur N) :: map pick (rev (take N commits))
                                           ++ [CheckoutBranch cur;
                                               HardReset ("HEAD~" +:+ JS.show N)])).
    { cbn [calls add_note]. rewrite Hc', Hc. f_equal.
      cbn [map]. rewrite map_app, map_map. reflexivity. }
    erewrite newCalls_app by exact Hcalls.
    split.
    { cbn [git add_note]. rewrite Hg', Hg. do 2 f_equal.
      cbn [map]. rewrite map_app, map_map. reflexivity. }
    right. right. split; [reflexivity|].
    split; [cbn [notes add_note]; apply last_snoc|].
    erewrite newNotes_app; [|cbn [notes add_note]; rewrite Hn', Hn, <- app_assoc; reflexivity].
    destruct Hshown as [->|[t ->]]; reflexivity.
Qed.


(** C3. A run of [moveCommits] that shows its success message has issued
    exactly, in this order: for a new target branch, [checkoutNewBranch] of
    the name typed at [currentBranch~N] ([HEAD~N] when no branch is checked
    out), and for an existing target, [checkoutBranch] of the branch picked;
    the cherry-pick of each of the N selected commits, oldest first; the
    checkout of the source branch; and the hard reset to [HEAD~N]. Every one
    of them returned, and nothing else was issued. *)
Theorem successful_move_sequence (ans : MoveAnswers) (w : World G) (text : string) :
  InformationMessage text ∈ newNotes w (snd (moveCommits ans w)) ->
  exists N sel target,
    move_selectedCommit ans = Some N
    /\ move_selectedBranch ans = Some sel
    /\ (if isNew sel
        then move_newBranchName ans = Some target /\ target <> EmptyString
        else target = branchName sel)
    /\ text = "✓ Moved " +:+ JS.show N +:+ " commit(s) to " +:+ JS.quote +:+ target
              +:+ JS.quote
    /\ newCalls w (snd (moveCommits ans w))
       = map (fun c => {| call := c; returned := true |})
           ((if isNew sel
             then CheckoutNewBranch target
                    (match getCurrentBranch (git w) with
                     | Some current =>
                         if String.eqb current EmptyString then "HEAD" else current
                     | None => "HEAD"
                     end +:+ "~" +:+ JS.show N)
             else CheckoutBranch (Some target))
            :: map (fun commit => CherryPick (hash commit))
                   (rev (take N (getRecentCommits 10 (git w))))
            ++ [CheckoutBranch (getCurrentBranch (git w));
                HardReset ("HEAD~" +:+ JS.show N)]).
Proof.
  intros Hin.
  assert (Hno : forall ns, Forall (fun n => isInformation n = false) ns ->
                  ~ InformationMessage text ∈ ns).
  { intros ns Hns Hmem. rewrite Forall_forall in Hns. specialize (Hns _ Hmem). discriminate. }
  destruct (moveCommits_outcomes ans w)
    as [_ [(_ & _ & _ & Hq)|(N & sel & target & HN & Hsel & Ht & _ & Hcases)]].
  { by apply Hno in Hq. }
  destruct Hcases as [[_ Hq]|[(pre & c & post & _ & _ & _ & Hq & _)|(Hcalls & _ & Hinfo)]].
  - by apply Hno in Hq.
  - by apply Hno in Hq.
  - exists N, sel, target. do 2 (split; [assumption|]). split; [|split].
    + unfold chosenTarget in Ht. destruct (isNew sel); [|by injection Ht].
      destruct (move_newBranchName ans) as [name|]; [|discriminate Ht].
      destruct (String.eqb_spec name EmptyString) as [|Hname]; [discriminate Ht|].
      injection Ht as <-. by split.
    + assert (Hf : In (InformationMessage text)
                      (List.filter isInformation (newNotes w (snd (moveCommits ans w))))).
      { apply filter_In. split; [by apply list_elem_of_In|reflexivity]. }
      rewrite Hinfo in Hf. destruct Hf as [Heq|[]]. unfold moveSuccess in Heq.
      by injection Heq as <-.
    + rewrite Hcalls. unfold enterTarget, baseBranch, ok, pick. by destruct (isNew sel).
Qed.

(** ** An open record is never undone *)

Lemma open_not_undoable (a : nat) (w : World G) :
  staysOpen a w -> undoable_ref w a = false.
Proof.
  intros (r & Hr & _ & Hcmd). unfold undoable_ref, undoable.
  rewrite Hr, Hcmd. apply andb_false_r.
Qed.

Lemma open_not_last (a : nat) (w : World G) :
  staysOpen a w -> getLastUndoableAction w <> Some a.
Proof.
  intros Hopen Hlast.
  apply lastUndoableIn_newest in Hlast as (_ & _ & _ & Hyes & _).
  rewrite (open_not_undoable a w Hopen) in Hyes. discriminate.
Qed.

(** [undoLastAction] changes at most one object: the one it selected. *)
Lemma undoLastAction_heap (w : World G) :
  heap (snd (undoLastAction w)) = heap w
  \/ exists r rec,
       getLastUndoableAction w = Some r
       /\ heap (snd (undoLastAction w)) = <[r := with_canUndo false rec]> (heap w).
Proof.
  unfold undoLastAction.
  destruct (getLastUndoableAction w) as [r|] eqn:Hlast; [|by left].
  destruct (deref w r) as [rec|]; [|by left].
  destruct (String.eqb (headHash (beforeState rec)) EmptyString); [by left|].
  unfold try_catch. rewrite bind_run, git_do_run.
  destruct (snd (primitive (HardReset (headHash (beforeState rec))) (git w))); [by left|].
  right. exists r, rec. split; [reflexivity|].
  rewrite bind_run. unfold modify. rewrite bind_run.
  match goal with |- context [saveToStorage ?x] =>
    rewrite (saveToStorage_expand x); destruct (saveToStorage_frame x) as [Hheap _] end.
  cbn [snd ret]. rewrite Hheap. reflexivity.
Qed.

Lemma runOp_keeps_open (a : nat) (op : LedgerOp) (w : World G) :
  op <> OpComplete a -> staysOpen a w -> staysOpen a (runOp w op).
Proof.
  intros Hop Hopen. pose proof Hopen as (r & Hr & Hafter & Hcmd).
  assert (Hlt : a < length (heap w)) by (by eapply lookup_lt_Some).
  exists r. split; [|by split].
  unfold deref in *. destruct op as [ty desc cu|b| | |c|cap]; cbn [runOp].
  - unfold recordAction. cbn. by rewrite lookup_app_l.
  - unfold completeAction. rewrite bind_run.
    destruct (deref w b) as [rec|] eqn:Hb;
      match goal with |- context [saveToStorage ?x] =>
        rewrite (saveToStorage_expand x); destruct (saveToStorage_frame x) as [Hheap _] end;
      cbn [snd]; rewrite Hheap; cbn [heap set_heap]; [|exact Hr].
    rewrite list_lookup_insert_ne; [exact Hr|]. intros ->. by apply Hop.
  - destruct (undoLastAction_heap w) as [->|(r0 & rec & Hlast & ->)]; [exact Hr|].
    rewrite list_lookup_insert_ne; [exact Hr|]. intros ->.
    by apply (open_not_last a w Hopen).
  - unfold clearHistory. rewrite bind_run. unfold modify.
    match goal with |- context [saveToStorage ?x] =>
      rewrite (saveToStorage_expand x); destruct (saveToStorage_frame x) as [Hheap _] end.
    cbn [snd]. rewrite Hheap. exact Hr.
  - rewrite git_do_run. by destruct (snd (primitive c (git w))).
  - exact Hr.
Qed.

Lemma runOps_keep_open (a : nat) (ops : list LedgerOp) (w : World G) :
  ~ In (OpComplete a) ops -> staysOpen a w -> staysOpen a (runOps ops w).
Proof.
  revert w. induction ops as [|op ops IH]; intros w Hnot Hopen; [exact Hopen|].
  cbn [runOps foldl]. apply IH.
  - intros Hin. apply Hnot. by right.
  - apply runOp_keeps_open; [|exact Hopen]. intros ->. apply Hnot. by left.
Qed.

(** C10. When a cherry-pick throws during [moveCommits], the record opened
    at the start of the run is left in [this.actions] (and is not written to
    the persisted log by this run) without [afterState] and without
    [undoCommand]: [completeAction] was not called on it. Whatever the ledger
    does afterwards, short of completing that very record, the record stays
    open, [getLastUndoableAction] never returns it, and so [undoLastAction]
    never reverts the partial move. *)
Theorem failed_pick_leaves_open_record (ans : MoveAnswers) (w : World G) (h : string) :
  failed (CherryPick h) ∈ newCalls w (snd (moveCommits ans w)) ->
  exists opened,
    heap (snd (moveCommits ans w)) = heap w ++ [opened]
    /\ actions (snd (moveCommits ans w)) = actions w ++ [length (heap w)]
    /\ workspaceState (snd (moveCommits ans w)) = workspaceState w
    /\ type opened = move_commits
    /\ beforeState opened
       = {| headHash := getHeadHash (git w); branch := getCurrentBranch (git w) |}
    /\ afterState opened = None
    /\ undoCommand opened = None
    /\ forall ops,
         ~ In (OpComplete (length (heap w))) ops ->
         staysOpen (length (heap w)) (runOps ops (snd (moveCommits ans w)))
         /\ undoable_ref (runOps ops (snd (moveCommits ans w))) (length (heap w)) = false
         /\ getLastUndoableAction (runOps ops (snd (moveCommits ans w)))
            <> Some (length (heap w)).
Proof.
  intros Hin.
  destruct (moveCommits_outcomes ans w)
    as [_ [(Hnone & _)|(N & sel & target & _ & _ & _ & _ & Hcases)]].
  { rewrite Hnone in Hin. by apply elem_of_nil in Hin. }
  destruct Hcases as [[Hnp _]|[(pre & c & post & _ & _ & _ & _ & Hheap & Hact & Hws)|(Hcalls & _)]].
  - rewrite Forall_forall in Hnp. specialize (Hnp _ Hin). discriminate.
  - exists (openRecord w move_commits (moveDescription N target) true).
    do 3 (split; [assumption|]). do 4 (split; [reflexivity|]).
    intros ops Hops.
    assert (Hopen : staysOpen (length (heap w)) (snd (moveCommits ans w))).
    { exists (openRecord w move_commits (moveDescription N target) true).
      unfold deref. rewrite Hheap, lookup_app_r by lia.
      rewrite Nat.sub_diag. repeat split. }
    pose proof (runOps_keep_open _ ops _ Hops Hopen) as Hlater.
    split; [exact Hlater|]. split; [by apply open_not_undoable|by apply open_not_last].
  - rewrite Hcalls in Hin. apply list_elem_of_fmap in Hin as (x & Hx & _). discriminate.
Qed.

(** ** Continuing an ongoing operation *)


End Properties.

(** * The properties on concrete sessions *)

(** C6. With [maxActionHistory] set to 0 the cap does not hold:
    [slice(-0)] is [slice(0)], the whole array, so after the third
    [completeAction] the persisted log holds all three records. *)
Theorem cap_zero_keeps_everything :
  persistedDescriptions (snd (threeActions (freshWorld mainRepo 0))) = Some ["A"; "B"; "C"]
  /\ actions (snd (threeActions (freshWorld mainRepo 0))) = [0; 1; 2].
Proof. split; vm_compute; reflexivity. Qed.

(** The scenario of the specification: with a cap of 2, the persisted log
    after the third [completeAction] holds B and C. *)
Example cap_two_keeps_B_C :
  persistedDescriptions (snd (threeActions (freshWorld mainRepo 2))) = Some ["B"; "C"].
Proof. vm_compute. reflexivity. Qed.

(** The general fact behind the scenario, on the sample repository: four
    recorded actions under a cap of 2 leave the two newest objects. *)
Example recordAll_cap_two :
  exists w',
    recordAll [(undo_commit, "A"); (amend_commit, "B"); (move_commits, "C");
               (create_branch, "D")] (freshWorld mainRepo 2) = (Returned tt, w')
    /\ length (actions w') = 2
    /\ workspaceState w' = Some (history w').
Proof.
  destruct (recordAll_keeps_newest
              [(undo_commit, "A"); (amend_commit, "B"); (move_commits, "C");
               (create_branch, "D")] (freshWorld mainRepo 2))
    as (w' & Hrun & _ & _ & Hlast).
  - simpl. lia.
  - unfold newestRefs. simpl. split; [reflexivity|]. split; [lia|reflexivity].
  - exists w'. split; [exact Hrun|]. destruct Hlast as [Hlen Hws]; [discriminate|].
    split; [exact Hlen|exact Hws].
Qed.

(** C1 does not hold as the specification states it: after A and B were
    completed and a move was left open under a cap of 2, the first undo
    reverts B and the save evicts A; the second undo finds nothing and
    changes nothing, although A, the next-most-recent undoable record, was
    never reverted. *)
Lemma second_undo_misses_evicted_record :
  actions stuckWorld = [0; 1; 2]
  /\ getLastUndoableAction stuckWorld = Some 1
  /\ undoable_ref stuckWorld 0 = true
  /\ fst (undoLastAction stuckWorld)
     = Returned {| success := true;
                   undo_message := "Undid " +:+ JS.quote +:+ "B" +:+ JS.quote |}
  /\ actions (snd (undoLastAction stuckWorld)) = [1; 2]
  /\ undoable_ref (snd (undoLastAction stuckWorld)) 0 = true
  /\ undoLastAction (snd (undoLastAction stuckWorld))
     = (Returned {| success := false; undo_message := "No undoable actions in history" |},
        snd (undoLastAction stuckWorld)).
Proof. do 6 (split; [vm_compute; reflexivity|]). vm_compute. reflexivity. Qed.

Lemma undo_reverts_newest_undoable_witness :
  getLastUndoableAction (snd (threeActions (freshWorld mainRepo 50))) = Some 2
  /\ exists pre post k (w' : World Repo),
       actions (snd (threeActions (freshWorld mainRepo 50))) = pre ++ 2 :: post
       /\ fst (undoLastAction (snd (threeActions (freshWorld mainRepo 50))))
          = Returned {| success := true;
                        undo_message := "Undid " +:+ JS.quote +:+ "C" +:+ JS.quote |}
       /\ actions w' = drop k (actions (snd (threeActions (freshWorld mainRepo 50))))
       /\ k = 0
       /\ workspaceState w' = Some (omap (fun a => heap w' !! a) (actions w'))
       /\ getLastUndoableAction w' <> Some 2
       /\ getLastUndoableAction w' = Some 1.
Proof.
  split; [vm_compute; reflexivity|].
  destruct (proj2 (undo_reverts_newest_undoable (snd (threeActions (freshWorld mainRepo 50))))
              2
              {| id := "action-2"; type := undo_commit; timestamp := 1700000000002;
                 description := "C";
                 beforeState := {| headHash := "c3c3c3c3c3"; branch := Some "main" |};
                 afterState := Some {| headHash := "b2b2b2b2b2"; branch := Some "main" |};
                 undoCommand := Some "git reset --hard c3c3c3c3c3"; canUndo := true |}
              (move_head "c3c3c3c3c3" (move_head "b2b2b2b2b2" mainRepo)))
    as (pre & post & k & w' & Hsplit & _ & _ & Hrun & _ & _ & _ & _ & Hact & Hk & Hstate
        & Hnot & Hnext & _).
  - vm_compute. reflexivity.
  - vm_compute. reflexivity.
  - discriminate.
  - vm_compute. reflexivity.
  - apply (bool_decide_unpack _). vm_compute. exact I.
  - assert (Hpre : pre = [0; 1]).
    { assert (Hacts : actions (snd (threeActions (freshWorld mainRepo 50))) = [0; 1; 2])
        by (vm_compute; reflexivity).
      rewrite Hacts in Hsplit.
      destruct pre as [|a pre]; [discriminate Hsplit|]. injection Hsplit as <- Hsplit.
      destruct pre as [|b pre]; [discriminate Hsplit|]. injection Hsplit as <- Hsplit.
      destruct pre as [|c pre]; [reflexivity|]. injection Hsplit as _ Hsplit.
      destruct pre; discriminate Hsplit. }
    assert (Hzero : k = 0) by (rewrite Hk; vm_compute; reflexivity).
    exists pre, post, k, w'. split; [exact Hsplit|]. split; [by rewrite Hrun|].
    split; [exact Hact|]. split; [exact Hzero|]. split; [exact Hstate|].
    split; [exact Hnot|]. rewrite Hnext, Hzero, Hpre. vm_compute. reflexivity.
Defined.

(** C8 does not hold as the specification states it: a checkout that moves
    away from a detached HEAD matches the pattern, no branch is called HEAD
    and HEAD is not a bare hash, yet the scan does not list it. *)
Lemma head_move_is_not_a_deleted_branch :
  ~ (map_has (deletedBranches headMove ["main"]) "HEAD" = true
     <-> (exists entry B, In entry headMove
                          /\ matchMove (entry_message entry) = Some ("HEAD", B))
         /\ JS.array_includes ["main"] "HEAD" = false
         /\ isBareHash "HEAD" = false).
Proof.
  intros [_ Hlisted].
  assert (Hhas : map_has (deletedBranches headMove ["main"]) "HEAD" = true).
  { apply Hlisted. split; [|split; vm_compute; reflexivity].
    eexists _, "main". split; [left; reflexivity|]. vm_compute. reflexivity. }
  vm_compute in Hhas. discriminate.
Qed.

Lemma deleted_branch_iff_witness :
  map_has (deletedBranches loginReflog ["main"]) "feature/login" = true
  /\ map_get (deletedBranches loginReflog ["main"]) "feature/login"
     = Some ("2222222", "checkout: moving from feature/login to main").
Proof.
  assert (Hhas : map_has (deletedBranches loginReflog ["main"]) "feature/login" = true)
    by (vm_compute; reflexivity).
  split; [exact Hhas|].
  destruct (proj2 (deleted_branch_iff loginReflog ["main"] "feature/login") Hhas)
    as (entry & Hnewest & Hget).
  vm_compute in Hnewest. injection Hnewest as <-. exact Hget.
Defined.


Lemma successful_move_sequence_witness :
  InformationMessage ("✓ Moved 2 commit(s) to " +:+ JS.quote +:+ "feature/x" +:+ JS.quote)
    ∈ newNotes (freshWorld mainRepo 50)
               (snd (moveCommits moveTwoToNew (freshWorld mainRepo 50)))
  /\ newCalls (freshWorld mainRepo 50)
              (snd (moveCommits moveTwoToNew (freshWorld mainRepo 50)))
     = [ {| call := CheckoutNewBranch "feature/x" "main~2"; returned := true |};
         {| call := CherryPick "d4d4d4d4d4"; returned := true |};
         {| call := CherryPick "e5e5e5e5e5"; returned := true |};
         {| call := CheckoutBranch (Some "main"); returned := true |};
         {| call := HardReset "HEAD~2"; returned := true |} ]
  /\ InformationMessage ("✓ Moved 1 commit(s) to " +:+ JS.quote +:+ "develop" +:+ JS.quote)
       ∈ newNotes (freshWorld twoBranchRepo 50)
                  (snd (moveCommits moveOneToDevelop (freshWorld twoBranchRepo 50)))
  /\ newCalls (freshWorld twoBranchRepo 50)
              (snd (moveCommits moveOneToDevelop (freshWorld twoBranchRepo 50)))
     = [ {| call := CheckoutBranch (Some "develop"); returned := true |};
         {| call := CherryPick "e5e5e5e5e5"; returned := true |};
         {| call := CheckoutBranch (Some "main"); returned := true |};
         {| call := HardReset "HEAD~1"; returned := true |} ].
Proof.
  assert (Hin : InformationMessage ("✓ Moved 2 commit(s) to " +:+ JS.quote +:+ "feature/x"
                                    +:+ JS.quote)
                  ∈ newNotes (freshWorld mainRepo 50)
                             (snd (moveCommits moveTwoToNew (freshWorld mainRepo 50)))).
  { apply list_elem_of_In. vm_compute. left. reflexivity. }
  assert (Hin' : InformationMessage ("✓ Moved 1 commit(s) to " +:+ JS.quote +:+ "develop"
                                     +:+ JS.quote)
                   ∈ newNotes (freshWorld twoBranchRepo 50)
                              (snd (moveCommits moveOneToDevelop (freshWorld twoBranchRepo 50)))).
  { apply list_elem_of_In. vm_compute. left. reflexivity. }
  split; [exact Hin|]. split; [|split; [exact Hin'|]].
  - destruct (successful_move_sequence moveTwoToNew (freshWorld mainRepo 50) _ Hin)
      as (N & sel & target & HN & Hsel & Ht & _ & Hcalls).
    injection HN as <-. injection Hsel as <-. cbn [isNew] in Ht, Hcalls.
    destruct Ht as [Ht _]. injection Ht as <-. rewrite Hcalls. vm_compute. reflexivity.
  - destruct (successful_move_sequence moveOneToDevelop (freshWorld twoBranchRepo 50) _ Hin')
      as (N & sel & target & HN & Hsel & Ht & _ & Hcalls).
    injection HN as <-. injection Hsel as <-. cbn [isNew branchName] in Ht, Hcalls.
    subst target. rewrite Hcalls. vm_compute. reflexivity.
Defined.

Lemma reset_check_blocks_short_history_witness :
  length (getRecentCommits 7 (git (freshWorld mainRepo 50))) < 7
  /\ calls (snd (undoLastCommit undoSeven (freshWorld mainRepo 50))) = [].
Proof.
  assert (Hshort : length (getRecentCommits 7 (git (freshWorld mainRepo 50))) < 7)
    by (vm_compute; lia).
  split; [exact Hshort|].
  destruct (reset_check_blocks_short_history hard 7 undoSeven (freshWorld mainRepo 50)
              eq_refl eq_refl) as (_ & _ & _ & Hblocked).
  destruct (Hblocked Hshort) as (_ & Hcalls & _). exact Hcalls.
Defined.

Lemma undoCommand_iff_head_moved_witness :
  deref movedWorld 0 = deref openedWorld 0
  /\ exists closed,
       deref (snd (completeAction 0 movedWorld)) 0 = Some closed
       /\ undoCommand closed <> None.
Proof.
  split; [reflexivity|].
  destruct (undoCommand_iff_head_moved undo_commit "Undo 3 commit(s) with hard reset" true
              (freshWorld mainRepo 50) movedWorld eq_refl)
    as (closed & _ & Hclosed & _ & _ & _ & Hiff & _).
  exists closed. split; [exact Hclosed|].
  apply Hiff. split; [reflexivity|]. vm_compute. discriminate.
Defined.



Lemma failed_pick_leaves_open_record_witness :
  failed (CherryPick "d4d4d4d4d4")
    ∈ newCalls (freshWorld conflictRepo 50)
               (snd (moveCommits moveTwoToNew (freshWorld conflictRepo 50)))
  /\ getLastUndoableAction
       (runOps [OpPrimitive (HardReset "a1a1a1a1a1"); OpUndo; OpConfigure 1]
               (snd (moveCommits moveTwoToNew (freshWorld conflictRepo 50))))
     <> Some 0.
Proof.
  assert (Hin : failed (CherryPick "d4d4d4d4d4")
                  ∈ newCalls (freshWorld conflictRepo 50)
                             (snd (moveCommits moveTwoToNew (freshWorld conflictRepo 50)))).
  { apply list_elem_of_In. vm_compute. right. left. reflexivity. }
  split; [exact Hin|].
  destruct (failed_pick_leaves_open_record moveTwoToNew (freshWorld conflictRepo 50)
              "d4d4d4d4d4" Hin)
    as (opened & _ & _ & _ & _ & _ & _ & _ & Hlater).
  apply (Hlater [OpPrimitive (HardReset "a1a1a1a1a1"); OpUndo; OpConfigure 1]).
  simpl. intros [H|[H|[H|[]]]]; discriminate.
Defined.

(** * More properties *)

(** ** Keeping the first occurrence of each key *)

Lemma array_includes_elem (arr : list string) (x : string) :
  JS.array_includes arr x = true <-> x ∈ arr.
Proof.
  unfold JS.array_includes. rewrite existsb_exists. split.
  - intros (y & Hin & Heq). apply String.eqb_eq in Heq as ->. by apply list_elem_of_In.
  - intros Hin. exists x. split; [by apply list_elem_of_In|apply String.eqb_refl].
Qed.

Lemma array_includes_not_elem (arr : list string) (x : string) :
  JS.array_includes arr x = false <-> x ∉ arr.
Proof.
  rewrite <- array_includes_elem. destruct (JS.array_includes arr x); split; congruence.
Qed.

Lemma keepFirst_unseen {A} (key : A -> string) (seen : list string) (l : list A) (x : A) :
  x ∈ keepFirst key seen l -> key x ∉ seen.
Proof.
  revert seen. induction l as [|y l IH]; intros seen; cbn [keepFirst].
  - intros H. by apply elem_of_nil in H.
  - destruct (JS.array_includes seen (key y)) eqn:Hy; [apply IH|].
    intros [->|Hin]%elem_of_cons.
    + by apply array_includes_not_elem.
    + apply IH in Hin. intros Hseen. apply Hin, elem_of_app. by left.
Qed.

Lemma keepFirst_NoDup {A} (key : A -> string) (seen : list string) (l : list A) :
  NoDup (map key (keepFirst key seen l)).
Proof.
  revert seen. induction l as [|y l IH]; intros seen; cbn [keepFirst].
  - constructor.
  - destruct (JS.array_includes seen (key y)); [apply IH|].
    cbn [map]. constructor; [|apply IH].
    intros (z & Hz & Hin)%list_elem_of_fmap.
    apply keepFirst_unseen in Hin. apply Hin. rewrite <- Hz.
    apply elem_of_app. right. apply list_elem_of_here.
Qed.

Lemma keepFirst_covers {A} (key : A -> string) (seen : list string) (l : list A) (x : A) :
  x ∈ l -> key x ∈ seen \/ key x ∈ map key (keepFirst key seen l).
Proof.
  revert seen. induction l as [|y l IH]; intros seen; cbn [keepFirst].
  - intros H. by apply elem_of_nil in H.
  - intros [->|Hin]%elem_of_cons.
    + destruct (JS.array_includes seen (key y)) eqn:Hy.
      * left. by apply array_includes_elem.
      * right. cbn [map]. apply list_elem_of_here.
    + destruct (JS.array_includes seen (key y)) eqn:Hy; [by apply IH|].
      destruct (IH (seen ++ [key y]) Hin) as [Hseen|Hkept].
      * apply elem_of_app in Hseen as [Hseen|Hy'%list_elem_of_singleton]; [by left|].
        right. cbn [map]. rewrite Hy'. apply list_elem_of_here.
      * right. cbn [map]. by apply list_elem_of_further.
Qed.

Lemma keepFirst_sublist {A} (key : A -> string) (seen : list string) (l : list A) :
  sublist (keepFirst key seen l) l.
Proof.
  revert seen. induction l as [|y l IH]; intros seen; cbn [keepFirst].
  - constructor.
  - destruct (JS.array_includes seen (key y)).
    + apply sublist_cons, IH.
    + apply sublist_skip, IH.
Qed.

Lemma keepFirst_first {A} (key : A -> string) (seen : list string) (l : list A) (x : A) :
  x ∈ keepFirst key seen l ->
  List.find (fun y => String.eqb (key y) (key x)) l = Some x.
Proof.
  revert seen. induction l as [|y l IH]; intros seen; cbn [keepFirst List.find].
  - intros H. by apply elem_of_nil in H.
  - destruct (JS.array_includes seen (key y)) eqn:Hy.
    + intros Hin. pose proof (keepFirst_unseen _ _ _ _ Hin) as Hnew.
      destruct (String.eqb_spec (key y) (key x)) as [Heq|_]; [|by eapply IH].
      exfalso. apply Hnew. rewrite <- Heq. by apply array_includes_elem.
    + intros [->|Hin]%elem_of_cons; [by rewrite String.eqb_refl|].
      pose proof (keepFirst_unseen _ _ _ _ Hin) as Hnew.
      destruct (String.eqb_spec (key y) (key x)) as [Heq|_]; [|by eapply IH].
      exfalso. apply Hnew. rewrite <- Heq. apply elem_of_app. right. apply list_elem_of_here.
Qed.

(** X1. [uniqueEntries] keeps exactly one entry per commit hash of the
    reflog, namely the first (newest) one, and keeps the order of the
    reflog. *)
Theorem uniqueEntries_first_per_hash (reflog : list ReflogEntry) :
  NoDup (map entry_hash (uniqueEntries reflog))
  /\ sublist (uniqueEntries reflog) reflog
  /\ (forall entry, entry ∈ reflog ->
        entry_hash entry ∈ map entry_hash (uniqueEntries reflog))
  /\ (forall entry, entry ∈ uniqueEntries reflog ->
        List.find (fun other => String.eqb (entry_hash other) (entry_hash entry)) reflog
        = Some entry).
Proof.
  unfold uniqueEntries. split; [apply keepFirst_NoDup|].
  split; [apply keepFirst_sublist|]. split.
  - intros entry Hin. destruct (keepFirst_covers entry_hash [] reflog entry Hin) as [H|H];
      [by apply elem_of_nil in H|exact H].
  - intros entry. apply keepFirst_first.
Qed.

(** ** The list of deleted branches *)

Lemma map_has_keys {V} (m : JsMap V) (k : string) :
  map_has m k = JS.array_includes (map fst m) k.
Proof.
  unfold map_has, JS.array_includes. induction m as [|[k' v] m IH]; [reflexivity|].
  cbn [existsb map fst]. by rewrite IH, String.eqb_sym.
Qed.

Lemma map_set_new_key {V} (m : JsMap V) (k : string) (v : V) :
  map_has m k = false -> map fst (map_set m k v) = map fst m ++ [k].
Proof.
  induction m as [|[k' v'] m IH]; [reflexivity|].
  cbn [map_has existsb fst map_set]. intros [Hk Hrest]%orb_false_iff.
  rewrite Hk. cbn [map fst app]. f_equal. by apply IH.
Qed.

Lemma scan_keys (existing : list string) (moves : list BranchMove)
    (deleted : JsMap (string * string)) :
  map fst (foldl (noteMove existing) deleted moves)
  = map fst deleted
    ++ keepFirst (fun name => name) (map fst deleted)
         (List.filter (listable existing) (map fromBranch moves)).
Proof.
  revert deleted. induction moves as [|move moves IH]; intros deleted.
  - cbn. by rewrite app_nil_r.
  - cbn [foldl map List.filter]. rewrite IH. unfold noteMove at 1 2, listable.
    rewrite map_has_keys.
    destruct (JS.array_includes existing (fromBranch move)); [reflexivity|].
    destruct (JS.array_includes (map fst deleted) (fromBranch move)) eqn:Hseen;
      destruct (String.eqb (fromBranch move) "HEAD");
      destruct (isBareHash (fromBranch move));
      cbn [negb andb keepFirst]; rewrite ?Hseen; try reflexivity.
    rewrite map_set_new_key by (by rewrite map_has_keys).
    by rewrite <- app_assoc.
Qed.

(** X2. The names offered by [recoverBranch] are pairwise different, and
    they come in the order in which the listable names first appear in the
    reflog, newest first. *)
Theorem deleted_branches_in_order (reflog : list ReflogEntry) (existing : list string) :
  map fst (deletedBranches reflog existing)
  = keepFirst (fun name => name) []
      (List.filter (listable existing) (map fromBranch (branchMoves reflog)))
  /\ NoDup (map fst (deletedBranches reflog existing)).
Proof.
  assert (Hkeys : map fst (deletedBranches reflog existing)
                  = keepFirst (fun name => name) []
                      (List.filter (listable existing) (map fromBranch (branchMoves reflog)))).
  { unfold deletedBranches. by rewrite scan_keys. }
  split; [exact Hkeys|]. rewrite Hkeys.
  pose proof (keepFirst_NoDup (fun name : string => name) []
                (List.filter (listable existing) (map fromBranch (branchMoves reflog)))) as H.
  by rewrite map_id in H.
Qed.

(** ** Branch names and the reflog *)

Lemma branchNameChar_not_space (c : ascii) :
  branchNameChar c = true -> isWhiteSpace c = false.
Proof. destruct c as [[] [] [] [] [] [] [] []]; vm_compute; congruence. Qed.

Lemma validBranchName_words (name : string) :
  validBranchName name = true -> spaceFree name = true /\ name <> EmptyString.
Proof.
  unfold validBranchName, spaceFree. intros [Hne Hall]%andb_true_iff. split.
  - rewrite forallb_forall in Hall |- *. intros c Hc.
    by rewrite (branchNameChar_not_space c (Hall c Hc)).
  - intros ->. discriminate Hne.
Qed.

(** X3. Every pair of names the branch-name validator accepts is read back
    from the reflog line of a checkout between them: the validator and the
    reflog pattern agree on what a branch name is. *)
Theorem valid_names_are_parsed_back (A B : string) :
  validBranchName A = true ->
  validBranchName B = true ->
  matchMove ("checkout: moving from " +:+ A +:+ " to " +:+ B) = Some (A, B).
Proof.
  intros [HA HA0]%validBranchName_words [HB HB0]%validBranchName_words.
  by apply matchMove_plain.
Qed.

Section MoreProperties.

Context {G : Type} {gitWrapper : GitWrapper G} {clock : Clock}
        {reflogWrapper : ReflogWrapper G}.

(** ** The ledger across operations and sessions *)

Lemma undoLastAction_actions (w : World G) :
  exists k, actions (snd (undoLastAction w)) = drop k (actions w).
Proof.
  unfold undoLastAction.
  destruct (getLastUndoableAction w) as [r|]; [|by exists 0].
  destruct (deref w r) as [rec|]; [|by exists 0].
  destruct (String.eqb (headHash (beforeState rec)) EmptyString); [by exists 0|].
  unfold try_catch. rewrite bind_run, git_do_run.
  destruct (snd (primitive (HardReset (headHash (beforeState rec))) (git w))); [by exists 0|].
  rewrite bind_run. unfold modify. rewrite bind_run.
  match goal with |- context [saveToStorage ?x] =>
    rewrite (saveToStorage_expand x); destruct (saveToStorage_drop x) as (k & Hk & _) end.
  exists k. cbn [snd ret]. exact Hk.
Qed.

Lemma wellFormed_drop (w w' : World G) (k : nat) :
  wellFormed w ->
  actions w' = drop k (actions w) ->
  length (heap w') = length (heap w) ->
  wellFormed w'.
Proof.
  intros [Hnd Hval] Hact Hheap. unfold wellFormed. rewrite Hact, Hheap. split.
  - apply (sublist_NoDup (drop k (actions w)) (actions w)); [exact Hnd|apply sublist_drop].
  - by apply Forall_drop.
Qed.

Lemma runOp_wellFormed (op : LedgerOp) (w : World G) :
  wellFormed w -> wellFormed (runOp w op).
Proof.
  intros Hwf. pose proof Hwf as [Hnd Hval].
  destruct op as [ty desc cu|b| | |c|cap]; cbn [runOp].
  - unfold recordAction, wellFormed. cbn [snd actions heap set_actions set_heap].
    rewrite length_app. cbn [length]. split.
    + apply NoDup_app. split; [exact Hnd|]. split; [|apply NoDup_singleton].
      intros x Hx ->%list_elem_of_singleton.
      rewrite Forall_forall in Hval. specialize (Hval _ Hx). lia.
    + apply Forall_app. split; [|repeat constructor; lia].
      eapply Forall_impl; [exact Hval|]. intros x Hx. cbn beta in *. lia.
  - unfold completeAction. rewrite bind_run.
    destruct (deref w b) as [rec|];
      match goal with |- context [saveToStorage ?x] =>
        rewrite (saveToStorage_expand x);
        destruct (saveToStorage_drop x) as (k & Hk & _);
        destruct (saveToStorage_frame x) as [Hheap _] end;
      cbn [snd]; apply (wellFormed_drop w _ k Hwf); [exact Hk| |exact Hk|];
      rewrite Hheap; cbn [heap set_heap]; [apply length_insert|reflexivity].
  - destruct (undoLastAction_actions w) as [k Hk].
    apply (wellFormed_drop w _ k Hwf Hk).
    destruct (undoLastAction_heap w) as [->|(r & rec & _ & ->)];
      [reflexivity|apply length_insert].
  - unfold clearHistory. rewrite bind_run. unfold modify.
    match goal with |- context [saveToStorage ?x] =>
      rewrite (saveToStorage_expand x);
      destruct (saveToStorage_drop x) as (k & Hk & _);
      destruct (saveToStorage_frame x) as [Hheap _] end.
    cbn [snd]. unfold wellFormed. rewrite Hk, Hheap. cbn [actions set_actions].
    rewrite drop_nil. split; constructor.
  - rewrite git_do_run. by destruct (snd (primitive c (git w))).
  - exact Hwf.
Qed.

Lemma lookups_of_seq {A} (prefix l : list A) :
  omap (fun i => (prefix ++ l) !! i) (seq (length prefix) (length l)) = l.
Proof.
  revert prefix. induction l as [|x l IH]; intros prefix; [reflexivity|].
  cbn [length seq omap list_omap].
  rewrite lookup_app_r by lia. rewrite Nat.sub_diag. cbn [lookup list_lookup].
  f_equal. specialize (IH (prefix ++ [x])).
  rewrite <- app_assoc, length_app in IH. cbn [length app] in IH.
  rewrite Nat.add_1_r in IH. exact IH.
Qed.

Lemma initialize_run (w : World G) (stored : list RecordedAction) :
  workspaceState w = Some stored ->
  initialize w
  = (Returned tt,
     set_actions (seq (length (heap w)) (length stored))
                 (set_heap (heap w ++ stored) (set_context true w))).
Proof.
  intros Hstored. unfold initialize. rewrite bind_run. unfold modify, loadFromStorage.
  cbn [context set_context negb workspaceState heap]. by rewrite Hstored.
Qed.

(** X4. What one session saves is what the next one loads: after
    [saveToStorage] in an initialised session, a new session that runs
    [initialize] holds the same records, by value and in the same order, each
    in an object of its own; records pushed after the last save are not
    there. *)
Theorem saved_history_is_reloaded (w : World G) :
  context w = true ->
  history (snd (initialize (newSession (snd (saveToStorage w)))))
  = history (snd (saveToStorage w))
  /\ workspaceState (snd (initialize (newSession (snd (saveToStorage w)))))
     = Some (history (snd (saveToStorage w)))
  /\ wellFormed (snd (initialize (newSession (snd (saveToStorage w)))))
  /\ forall ty desc cu,
       history (snd (initialize (newSession
                  (snd (recordAction ty desc cu (snd (saveToStorage w)))))))
       = history (snd (saveToStorage w)).
Proof.
  intros Hctx.
  destruct (saveToStorage_actions w Hctx) as [_ Hws].
  set (ws := snd (saveToStorage w)) in *.
  assert (Hload : forall w0 : World G,
             workspaceState w0 = Some (history ws) ->
             history (snd (initialize (newSession w0))) = history ws
             /\ workspaceState (snd (initialize (newSession w0))) = Some (history ws)
             /\ wellFormed (snd (initialize (newSession w0)))).
  { intros w0 Hw0.
    rewrite (initialize_run (newSession w0) (history ws)) by exact Hw0.
    cbn [snd]. split; [|split; [exact Hw0|]].
    - unfold history, deref. cbn [heap actions set_actions set_heap newSession length app].
      pose proof (lookups_of_seq [] (omap (fun a => heap ws !! a) (actions ws))) as Hseq.
      cbn [app length] in Hseq. exact Hseq.
    - unfold wellFormed. cbn [heap actions set_actions set_heap newSession length app].
      split; [apply NoDup_seq|]. apply Forall_forall. intros r Hr.
      apply elem_of_seq in Hr. lia. }
  destruct (Hload ws Hws) as (H1 & H2 & H3).
  split; [exact H1|]. split; [exact H2|]. split; [exact H3|].
  intros ty desc cu. apply Hload. exact Hws.
Qed.

(** X5. Whatever the ledger does in a session that started with
    [initialize], [this.actions] never lists an object twice and every
    reference has its object. *)
Theorem session_ledger_is_well_formed (w : World G) (ops : list LedgerOp) :
  wellFormed (runOps ops (snd (initialize (newSession w)))).
Proof.
  assert (Hstart : wellFormed (snd (initialize (newSession w)))).
  { destruct (workspaceState w) as [stored|] eqn:Hstored.
    - rewrite (initialize_run (newSession w) stored) by exact Hstored.
      unfold wellFormed. cbn [snd heap actions set_actions set_heap newSession length app].
      split; [apply NoDup_seq|]. apply Forall_forall. intros r Hr.
      apply elem_of_seq in Hr. lia.
    - unfold initialize. rewrite bind_run. unfold modify, loadFromStorage.
      cbn [context set_context negb workspaceState newSession]. rewrite Hstored.
      unfold wellFormed. cbn. split; constructor. }
  revert Hstart. generalize (snd (initialize (newSession w))). clear w.
  induction ops as [|op ops IH]; intros w Hwf; [exact Hwf|].
  cbn [runOps foldl]. apply IH, runOp_wellFormed, Hwf.
Qed.

(** X6. For a positive [count], [getRecentActions] returns the newest
    [count] references (all of them when there are fewer), the newest first;
    its first element is the one [getLastAction] returns. *)
Theorem recent_actions_newest_first (count : Z) (w : World G) :
  (1 <= count)%Z ->
  getRecentActions count w = take (Z.to_nat count) (rev (actions w))
  /\ length (getRecentActions count w) = length (actions w) `min` Z.to_nat count
  /\ head (getRecentActions count w) = getLastAction w.
Proof.
  intros Hcount.
  assert (Hrecent : getRecentActions count w = take (Z.to_nat count) (rev (actions w))).
  { unfold getRecentActions. rewrite slice_from_neg_cap by exact Hcount.
    symmetry. apply firstn_rev. }
  split; [exact Hrecent|]. rewrite Hrecent. split.
  - rewrite length_take, List.length_rev. lia.
  - unfold getLastAction. destruct (Z.to_nat count) as [|c] eqn:Hc; [lia|].
    destruct (actions w) as [|x l] using rev_ind; [reflexivity|].
    rewrite rev_app_distr, last_snoc. reflexivity.
Qed.

(** X7. A record that is completed after [clearHistory] does not come
    back: the history stays empty, the persisted log too, and
    [undoLastAction] finds nothing to undo, although the object itself was
    completed. *)
Theorem cleared_history_stays_empty
    (ty : ActionType) (desc : string) (cu : bool) (w : World G) (g' : G) :
  exists closed,
    deref (snd (completeAction (length (heap w))
                  (set_git g' (snd (clearHistory (snd (recordAction ty desc cu w)))))))
          (length (heap w)) = Some closed
    /\ afterState closed
       = Some {| headHash := getHeadHash g'; branch := getCurrentBranch g' |}
    /\ actions (snd (completeAction (length (heap w))
                  (set_git g' (snd (clearHistory (snd (recordAction ty desc cu w))))))) = []
    /\ (context w = true ->
        workspaceState (snd (completeAction (length (heap w))
                  (set_git g' (snd (clearHistory (snd (recordAction ty desc cu w)))))))
        = Some [])
    /\ fst (undoLastAction (snd (completeAction (length (heap w))
                  (set_git g' (snd (clearHistory (snd (recordAction ty desc cu w))))))))
       = Returned {| success := false; undo_message := "No undoable actions in history" |}.
Proof.
  set (w1 := snd (recordAction ty desc cu w)).
  assert (Hclear : exists w2,
             snd (clearHistory w1) = w2
             /\ actions w2 = [] /\ heap w2 = heap w1
             /\ context w2 = context w
             /\ (context w = true -> workspaceState w2 = Some [])).
  { unfold clearHistory. rewrite bind_run. unfold modify.
    match goal with |- context [saveToStorage ?x] =>
      rewrite (saveToStorage_expand x);
      destruct (saveToStorage_drop x) as (k & Hk & _);
      destruct (saveToStorage_frame x) as (Hheap & _ & _ & _ & Hctx & _);
      pose proof (saveToStorage_actions x) as Hsave end.
    eexists. split; [reflexivity|]. cbn [snd].
    rewrite Hk, Hheap, Hctx. cbn [actions set_actions heap context]. rewrite drop_nil.
    repeat split. intros Hc. destruct (Hsave Hc) as [Hact' ->].
    unfold history. rewrite Hk. cbn [actions set_actions]. by rewrite drop_nil. }
  destruct Hclear as (w2 & -> & Hact2 & Hheap2 & Hctx2 & Hws2).
  set (w3 := set_git g' w2).
  assert (Hopen : deref w3 (length (heap w)) = Some (openRecord w ty desc cu)).
  { unfold deref. subst w3. cbn [heap set_git]. rewrite Hheap2.
    apply (recordAction_deref ty desc cu w). }
  exists (complete {| headHash := getHeadHash g'; branch := getCurrentBranch g' |}
                   (openRecord w ty desc cu)).
  split; [apply (completeAction_deref _ _ w3 Hopen)|].
  split; [unfold complete; cbn; by destruct (_ && _)|].
  assert (Hact : actions (snd (completeAction (length (heap w)) w3)) = []).
  { unfold completeAction. rewrite bind_run, Hopen.
    match goal with |- context [saveToStorage ?x] =>
      rewrite (saveToStorage_expand x); destruct (saveToStorage_drop x) as (k & Hk & _) end.
    cbn [snd]. rewrite Hk. cbn [actions set_heap]. subst w3. cbn [actions set_git].
    rewrite Hact2. apply drop_nil. }
  split; [exact Hact|]. split.
  - intros Hc. unfold completeAction. rewrite bind_run, Hopen.
    match goal with |- context [saveToStorage ?x] =>
      rewrite (saveToStorage_expand x);
      destruct (saveToStorage_drop x) as (k & Hk & _);
      destruct (saveToStorage_actions x) as [_ Hsave] end.
    { cbn [context set_heap]. subst w3. cbn [context set_git]. by rewrite Hctx2. }
    cbn [snd]. rewrite Hsave. unfold history. rewrite Hk.
    cbn [actions set_heap]. subst w3. cbn [actions set_git]. rewrite Hact2, drop_nil.
    reflexivity.
  - unfold undoLastAction, getLastUndoableAction. rewrite Hact. reflexivity.
Qed.

(** ** Undoing commits *)

Lemma showSafetyWarnings_cases (result : SafetyCheckResult) (answer : option string)
    (w : World G) :
  (safe result = false
   /\ showSafetyWarnings result answer w
      = (Returned false,
         add_note (ErrorMessage ("Cannot proceed:" +:+ JS.nl
                                 +:+ JS.join JS.nl (blockers result))) w))
  \/ (safe result = true /\ warnings result = []
      /\ showSafetyWarnings result answer w = (Returned true, w))
  \/ (safe result = true /\ warnings result <> []
      /\ exists text,
           showSafetyWarnings result answer w
           = (Returned (match answer with
                        | Some label => String.eqb label "Proceed Anyway"
                        | None => false
                        end),
              add_note (WarningMessage text) w)).
Proof.
  unfold showSafetyWarnings. destruct (safe result); [right|left; by split].
  destruct (warnings result) as [|x l]; [left; by repeat split|].
  right. repeat split; [discriminate|]. eexists. reflexivity.
Qed.

(** [undoLastCommit] either returns before recording anything, having
    shown at most one message, or runs its bracket on the answers given. *)
Lemma undoLastCommit_run (ans : UndoCommitAnswers) (w : World G) :
  ((undoLastCommit ans w = (Returned tt, w)
    \/ (exists text, undoLastCommit ans w = (Returned tt, add_note (ErrorMessage text) w))
    \/ (exists text, undoLastCommit ans w = (Returned tt, add_note (WarningMessage text) w)
                     /\ (match undo_proceed ans with
                         | Some label => String.eqb label "Proceed Anyway"
                         | None => false
                         end) = false)))
  \/ exists N mode ws,
       undo_selectedCommit ans = Some N
       /\ undo_selectedMode ans = Some mode
       /\ safe (checkBeforeReset mode N (git w)) = true
       /\ ((ws = w /\ warnings (checkBeforeReset mode N (git w)) = [])
           \/ (exists text, ws = add_note (WarningMessage text) w)
              /\ undo_proceed ans = Some "Proceed Anyway")
       /\ undoLastCommit ans w
          = match snd (primitive (resetCall mode ("HEAD~" +:+ JS.show N)) (git w)) with
            | None =>
                (Returned tt,
                 add_note (InformationMessage
                             ("✓ Undid " +:+ JS.show N +:+ " commit(s) with "
                              +:+ modeName mode +:+ " reset"))
                   (snd (completeAction (length (heap w))
                           (issue (snd (recordAction undo_commit
                                          ("Undo " +:+ JS.show N +:+ " commit(s) with "
                                           +:+ modeName mode +:+ " reset") true ws))
                                  (ok (resetCall mode ("HEAD~" +:+ JS.show N)))))))
            | Some e =>
                (Returned tt,
                 add_note (ErrorMessage ("✗ Git Panic: Failed to undo commit: " +:+ e))
                   (issue (snd (recordAction undo_commit
                                  ("Undo " +:+ JS.show N +:+ " commit(s) with "
                                   +:+ modeName mode +:+ " reset") true ws))
                          (failed (resetCall mode ("HEAD~" +:+ JS.show N)))))
            end.
Proof.
  unfold undoLastCommit, try_catch. rewrite bind_run. unfold query, gets.
  destruct (length (getRecentCommits 5 (git w)) =? 0).
  { left. right. left. eexists. reflexivity. }
  destruct (undo_selectedCommit ans) as [N|]; [|left; left; reflexivity].
  destruct (undo_selectedMode ans) as [mode|]; [|left; left; reflexivity].
  rewrite !bind_run.
  assert (Hbracket : forall ws : World G,
             git ws = git w -> heap ws = heap w ->
             (let (o, w') :=
                (let (o, w') := recordAction undo_commit
                                  ("Undo " +:+ JS.show N +:+ " commit(s) with "
                                   +:+ modeName mode +:+ " reset") true ws in
                 match o with
                 | Returned a =>
                     (match mode with
                      | soft => git_do (SoftReset ("HEAD~" +:+ JS.show N))
                      | mixed => git_do (MixedReset ("HEAD~" +:+ JS.show N))
                      | hard => git_do (HardReset ("HEAD~" +:+ JS.show N))
                      end;;;
                      completeAction a;;;
                      showSuccess ("Undid " +:+ JS.show N +:+ " commit(s) with "
                                   +:+ modeName mode +:+ " reset")) w'
                 | Thrown e => (Thrown e, w')
                 end) in
              match o with
              | Returned a => (Returned a, w')
              | Thrown e => showError ("Failed to undo commit: " +:+ e) w'
              end)
             = match snd (primitive (resetCall mode ("HEAD~" +:+ JS.show N)) (git w)) with
               | None =>
                   (Returned tt,
                    add_note (InformationMessage
                                ("✓ Undid " +:+ JS.show N +:+ " commit(s) with "
                                 +:+ modeName mode +:+ " reset"))
                      (snd (completeAction (length (heap w))
                              (issue (snd (recordAction undo_commit
                                             ("Undo " +:+ JS.show N +:+ " commit(s) with "
                                              +:+ modeName mode +:+ " reset") true ws))
                                     (ok (resetCall mode ("HEAD~" +:+ JS.show N)))))))
               | Some e =>
                   (Returned tt,
                    add_note (ErrorMessage ("✗ Git Panic: Failed to undo commit: " +:+ e))
                      (issue (snd (recordAction undo_commit
                                     ("Undo " +:+ JS.show N +:+ " commit(s) with "
                                      +:+ modeName mode +:+ " reset") true ws))
                             (failed (resetCall mode ("HEAD~" +:+ JS.show N)))))
               end).
  { intros ws Hgit Hheap.
    assert (Hrec : recordAction undo_commit
                     ("Undo " +:+ JS.show N +:+ " commit(s) with " +:+ modeName mode
                      +:+ " reset") true ws
                   = (Returned (length (heap w)),
                      snd (recordAction undo_commit
                             ("Undo " +:+ JS.show N +:+ " commit(s) with " +:+ modeName mode
                              +:+ " reset") true ws)))
      by (unfold recordAction; cbn [snd]; by rewrite Hheap).
    rewrite Hrec. rewrite bind_run.
    assert (Hcall : (match mode with
                     | soft => git_do (SoftReset ("HEAD~" +:+ JS.show N))
                     | mixed => git_do (MixedReset ("HEAD~" +:+ JS.show N))
                     | hard => git_do (HardReset ("HEAD~" +:+ JS.show N))
                     end) = git_do (resetCall mode ("HEAD~" +:+ JS.show N)))
      by (by destruct mode).
    rewrite Hcall, git_do_run.
    assert (Hg : git (snd (recordAction undo_commit
                             ("Undo " +:+ JS.show N +:+ " commit(s) with " +:+ modeName mode
                              +:+ " reset") true ws)) = git w) by exact Hgit.
    rewrite Hg.
    destruct (snd (primitive (resetCall mode ("HEAD~" +:+ JS.show N)) (git w))) as [e|];
      [reflexivity|].
    rewrite bind_run, completeAction_returns. reflexivity. }
  destruct (showSafetyWarnings_cases (checkBeforeReset mode N (git w)) (undo_proceed ans) w)
    as [[Hsafe ->]|[(Hsafe & Hwarn & ->)|(Hsafe & Hwarn & text & ->)]].
  - left. right. left. eexists. reflexivity.
  - right. exists N, mode, w. do 3 (split; [done|]). split; [left; by split|].
    cbn [negb]. by apply Hbracket.
  - destruct (undo_proceed ans) as [label|]; [|left; right; right; eexists; by split].
    destruct (String.eqb_spec label "Proceed Anyway") as [->|Hno];
      [|left; right; right; eexists; by split].
    right. exists N, mode, (add_note (WarningMessage text) w).
    do 3 (split; [done|]). split; [right; split; [by eexists|reflexivity]|].
    cbn [negb]. by apply Hbracket.
Qed.

Lemma slice_keeps_last {A} (cap : Z) (l : list A) (x : A) :
  (0 <= cap)%Z ->
  exists k, k <= length l /\ JS.slice_from (- cap)%Z (l ++ [x]) = drop k (l ++ [x]).
Proof.
  intros Hcap. unfold JS.slice_from. rewrite length_app. cbn [length].
  eexists. split; [|reflexivity].
  destruct (Z.ltb_spec (- cap) 0); lia.
Qed.

(** The world a command leaves when the primitives between [recordAction]
    and [completeAction] are done and the record is closed. *)
Lemma bracket_closed (evs : list Event) (ty : ActionType) (desc : string) (w0 : World G) :
  let opened := issued evs (snd (recordAction ty desc true w0)) in
  let w1 := snd (completeAction (length (heap w0)) opened) in
  git w1 = replay (map call evs) (git w0)
  /\ calls w1 = calls w0 ++ evs
  /\ notes w1 = notes w0
  /\ heap w1
     = heap w0 ++ [complete {| headHash := getHeadHash (replay (map call evs) (git w0));
                               branch := getCurrentBranch (replay (map call evs) (git w0)) |}
                            (openRecord w0 ty desc true)]
  /\ (exists k, actions w1 = drop k (actions w0 ++ [length (heap w0)])
                /\ ((0 <= maxActionHistory w0)%Z \/ context w0 = false -> k <= length (actions w0)))
  /\ (context w0 = true -> workspaceState w1 = Some (history w1))
  /\ (context w0 = false -> workspaceState w1 = workspaceState w0).
Proof.
  intros opened w1.
  destruct (steps_frame evs ty desc true w0) as (Hcalls & Hgit & Hnotes & Hheap & Hact & Hws).
  destruct (issued_frame evs (snd (recordAction ty desc true w0)))
    as (_ & _ & _ & _ & _ & Hctx & _ & Hcap).
  fold opened in Hcalls, Hgit, Hnotes, Hheap, Hact, Hws, Hctx, Hcap.
  cbn [context maxActionHistory recordAction snd set_actions set_heap] in Hctx, Hcap.
  assert (Hopen : deref opened (length (heap w0)) = Some (openRecord w0 ty desc true)).
  { unfold deref. rewrite Hheap, lookup_app_r by lia. by rewrite Nat.sub_diag. }
  destruct (completeAction_frame (length (heap w0)) opened) as (Hg1 & Hc1 & Hn1).
  fold w1 in Hg1, Hc1, Hn1.
  split; [by rewrite Hg1|]. split; [by rewrite Hc1|]. split; [by rewrite Hn1|].
  subst w1. unfold completeAction. rewrite bind_run, Hopen.
  match goal with |- context [saveToStorage ?x] =>
    rewrite (saveToStorage_expand x);
    destruct (saveToStorage_frame x) as (Hheap1 & _);
    pose proof (saveToStorage_actions x) as Hsave;
    set (saved := snd (saveToStorage x)) in * end.
  cbn [snd]. split.
  { rewrite Hheap1. cbn [heap set_heap]. rewrite Hheap, Hgit.
    rewrite insert_app_r_alt by lia. by rewrite Nat.sub_diag. }
  cbn [context set_heap maxActionHistory actions] in Hsave.
  rewrite Hctx, Hcap, Hact in Hsave.
  destruct (context w0) eqn:Hc.
  - destruct (Hsave eq_refl) as [Hsaved Hstate]. split; [|split; [done|discriminate]].
    destruct (Z.le_gt_cases 0 (maxActionHistory w0)) as [Hpos|Hneg].
    + destruct (slice_keeps_last (maxActionHistory w0) (actions w0) (length (heap w0)) Hpos)
        as (k & Hk & Hslice).
      exists k. split; [by rewrite Hsaved|done].
    + eexists. split; [rewrite Hsaved; unfold JS.slice_from; reflexivity|].
      intros [?|?]; [lia|discriminate].
  - subst saved. unfold saveToStorage. cbn [context set_heap]. rewrite Hctx. cbn [negb snd].
    split; [|split; [discriminate|intros _; exact Hws]].
    exists 0. split; [exact Hact|lia].
Qed.

Lemma safe_reset_has_commits (mode : ResetMode) (N : nat) (g : G) :
  safe (checkBeforeReset mode N g) = true -> N <= length (getRecentCommits N g).
Proof.
  unfold checkBeforeReset. cbn [safe].
  destruct (Nat.ltb_spec (length (getRecentCommits N g)) N); [discriminate|done].
Qed.

(** X8. [undoLastCommit] always returns. It issues at most one primitive:
    the reset of the chosen mode to [HEAD~N], and only when the repository
    has [N] commits. When the reset returns, the record of the command is
    closed with the positions before and after; when it throws, the error is
    shown, the record stays open and nothing is persisted. In every other
    case nothing is recorded and the repository is not touched. *)
Theorem undo_commit_issues_one_reset (ans : UndoCommitAnswers) (w : World G) :
  fst (undoLastCommit ans w) = Returned tt
  /\ ((newCalls w (snd (undoLastCommit ans w)) = []
       /\ git (snd (undoLastCommit ans w)) = git w
       /\ heap (snd (undoLastCommit ans w)) = heap w
       /\ actions (snd (undoLastCommit ans w)) = actions w
       /\ workspaceState (snd (undoLastCommit ans w)) = workspaceState w
       /\ length (newNotes w (snd (undoLastCommit ans w))) <= 1)
      \/ exists N mode r,
           undo_selectedCommit ans = Some N
           /\ undo_selectedMode ans = Some mode
           /\ N <= length (getRecentCommits N (git w))
           /\ newCalls w (snd (undoLastCommit ans w))
              = [{| call := resetCall mode ("HEAD~" +:+ JS.show N); returned := r |}]
           /\ git (snd (undoLastCommit ans w))
              = fst (primitive (resetCall mode ("HEAD~" +:+ JS.show N)) (git w))
           /\ (r = true ->
               last (notes (snd (undoLastCommit ans w)))
               = Some (InformationMessage ("✓ Undid " +:+ JS.show N +:+ " commit(s) with "
                                           +:+ modeName mode +:+ " reset"))
               /\ exists closed,
                    deref (snd (undoLastCommit ans w)) (length (heap w)) = Some closed
                    /\ type closed = undo_commit
                    /\ beforeState closed
                       = {| headHash := getHeadHash (git w);
                            branch := getCurrentBranch (git w) |}
                    /\ afterState closed
                       = Some {| headHash := getHeadHash (git (snd (undoLastCommit ans w)));
                                 branch := getCurrentBranch (git (snd (undoLastCommit ans w))) |})
           /\ (r = false ->
               (exists e,
                  snd (primitive (resetCall mode ("HEAD~" +:+ JS.show N)) (git w)) = Some e
                  /\ last (notes (snd (undoLastCommit ans w)))
                     = Some (ErrorMessage ("✗ Git Panic: Failed to undo commit: " +:+ e)))
               /\ staysOpen (length (heap w)) (snd (undoLastCommit ans w))
               /\ workspaceState (snd (undoLastCommit ans w)) = workspaceState w)).
Proof.
  destruct (undoLastCommit_run ans w)
    as [[Hrun|[[text Hrun]|(text & Hrun & _)]]|(N & mode & ws & HN & Hmode & Hsafe & Hws & Hrun)].
  - rewrite Hrun. split; [reflexivity|]. left. cbn [snd]. unfold newCalls, newNotes.
    rewrite !drop_all. repeat split. cbn [length]. lia.
  - rewrite Hrun. split; [reflexivity|]. left. cbn [snd]. unfold newCalls, newNotes.
    cbn [calls notes add_note]. rewrite drop_all, drop_app_length. repeat split.
    cbn [length]. lia.
  - rewrite Hrun. split; [reflexivity|]. left. cbn [snd]. unfold newCalls, newNotes.
    cbn [calls notes add_note]. rewrite drop_all, drop_app_length. repeat split.
    cbn [length]. lia.
  - assert (Hsame : git ws = git w /\ calls ws = calls w /\ heap ws = heap w
                    /\ actions ws = actions w /\ workspaceState ws = workspaceState w).
    { destruct Hws as [[-> _]|[[text ->] _]]; repeat split. }
    destruct Hsame as (Hgit & Hcalls & Hheap & Hact & Hstate).
    set (c := resetCall mode ("HEAD~" +:+ JS.show N)) in *.
    set (desc := "Undo " +:+ JS.show N +:+ " commit(s) with " +:+ modeName mode +:+ " reset")
      in *.
    rewrite Hrun.
    destruct (snd (primitive c (git w))) as [e|] eqn:Hprim.
    + split; [reflexivity|]. right. exists N, mode, false. cbn [snd].
      destruct (steps_frame [failed c] undo_commit desc true ws)
        as (Hc & Hg & _ & Hh & _ & Hs).
      change (issued [failed c] (snd (recordAction undo_commit desc true ws)))
        with (issue (snd (recordAction undo_commit desc true ws)) (failed c)) in Hc, Hg, Hh, Hs.
      do 3 (split; [done || by eapply safe_reset_has_commits|]).
      split; [apply newCalls_app; cbn [calls add_note]; by rewrite Hc, Hcalls|].
      split; [cbn [git add_note]; rewrite Hg; cbn; by rewrite Hgit|].
      split; [discriminate|]. intros _. split; [|split].
      * exists e. split; [exact Hprim|]. cbn [notes add_note]. apply last_snoc.
      * exists (openRecord ws undo_commit desc true). unfold deref. cbn [heap add_note].
        rewrite Hh, <- Hheap, lookup_app_r by lia. rewrite Nat.sub_diag. by repeat split.
      * cbn [workspaceState add_note]. by rewrite Hs.
    + split; [reflexivity|]. right. exists N, mode, true. cbn [snd].
      rewrite <- Hheap.
      destruct (bracket_closed [ok c] undo_commit desc ws)
        as (Hg & Hc & _ & Hh & _).
      change (issued [ok c] (snd (recordAction undo_commit desc true ws)))
        with (issue (snd (recordAction undo_commit desc true ws)) (ok c)) in Hc, Hg, Hh.
      do 3 (split; [done || by eapply safe_reset_has_commits|]).
      split; [apply newCalls_app; cbn [calls add_note]; by rewrite Hc, Hcalls|].
      split; [cbn [git add_note]; rewrite Hg; cbn; by rewrite Hgit|].
      split; [|discriminate]. intros _. split; [cbn [notes add_note]; apply last_snoc|].
      eexists. split.
      { unfold deref. cbn [heap add_note]. rewrite Hh, lookup_app_r by lia.
        rewrite Nat.sub_diag. reflexivity. }
      cbn [git add_note]. rewrite Hg. cbn [map call ok replay foldl].
      unfold complete. destruct (_ && _); cbn; rewrite ?Hgit; repeat split.
Qed.

Lemma risky_reset_warns (mode : ResetMode) (N : nat) (g : G) :
  (mode = hard /\ hasUncommittedChanges g = true)
  \/ (exists c, c ∈ getRecentCommits N g /\ isPushed (hash c) g = true) ->
  warnings (checkBeforeReset mode N g) <> [].
Proof.
  unfold checkBeforeReset. cbn [warnings]. rewrite pushWarnings_filter.
  intros [[-> ->]|(c & Hin & Hpushed)]; [discriminate|].
  intros [_ Hnone]%app_eq_nil. apply map_eq_nil in Hnone.
  assert (Hc : In c (List.filter (fun c => isPushed (hash c) g) (getRecentCommits N g))).
  { apply filter_In. split; [by apply list_elem_of_In|exact Hpushed]. }
  rewrite Hnone in Hc. destruct Hc.
Qed.

(** X9. A reset that would lose something is never issued without consent:
    when a hard reset finds uncommitted changes, or a reset of any mode
    covers a pushed commit, and the user does not press "Proceed Anyway" on
    the warning, [undoLastCommit] issues no primitive, records nothing and
    leaves the repository as it is. *)
Theorem risky_reset_needs_consent (ans : UndoCommitAnswers) (w : World G)
    (N : nat) (mode : ResetMode) :
  undo_selectedCommit ans = Some N ->
  undo_selectedMode ans = Some mode ->
  (mode = hard /\ hasUncommittedChanges (git w) = true)
  \/ (exists c, c ∈ getRecentCommits N (git w) /\ isPushed (hash c) (git w) = true) ->
  undo_proceed ans <> Some "Proceed Anyway" ->
  newCalls w (snd (undoLastCommit ans w)) = []
  /\ git (snd (undoLastCommit ans w)) = git w
  /\ heap (snd (undoLastCommit ans w)) = heap w
  /\ actions (snd (undoLastCommit ans w)) = actions w
  /\ workspaceState (snd (undoLastCommit ans w)) = workspaceState w.
Proof.
  intros HN Hmode Hrisky Hno.
  destruct (undoLastCommit_run ans w)
    as [[Hrun|[[text Hrun]|(text & Hrun & _)]]|(N' & mode' & ws & HN' & Hmode' & _ & Hws & _)].
  - rewrite Hrun. cbn [snd]. unfold newCalls. rewrite drop_all. repeat split.
  - rewrite Hrun. cbn [snd]. unfold newCalls. cbn [calls add_note].
    rewrite drop_all. repeat split.
  - rewrite Hrun. cbn [snd]. unfold newCalls. cbn [calls add_note].
    rewrite drop_all. repeat split.
  - exfalso. rewrite HN in HN'. rewrite Hmode in Hmode'.
    injection HN' as <-. injection Hmode' as <-.
    destruct Hws as [[_ Hnone]|[_ Hyes]]; [|by apply Hno].
    by apply (risky_reset_warns mode N (git w)).
Qed.

Lemma complete_keeps (after : RepoPosition) (a : RecordedAction) :
  beforeState (complete after a) = beforeState a
  /\ description (complete after a) = description a
  /\ canUndo (complete after a) = canUndo a
  /\ type (complete after a) = type a.
Proof. unfold complete. destruct (_ && _); repeat split. Qed.

Lemma complete_undoable (after : RepoPosition) (a : RecordedAction) :
  canUndo a = true ->
  headHash (beforeState a) <> headHash after ->
  undoable (complete after a) = true.
Proof.
  intros Hcan Hmoved. unfold complete, undoable.
  cbn [canUndo with_after beforeState]. rewrite Hcan.
  destruct (String.eqb_spec (headHash (beforeState a)) (headHash after)); [done|].
  cbn [negb andb canUndo with_undoCommand undoCommand with_after]. by rewrite Hcan.
Qed.

(** X10. Undoing the undo: after an [undoLastCommit] whose reset returned
    and moved HEAD, the record of that command is the one [undoLastAction]
    selects, and the one primitive [undoLastAction] issues is the hard reset
    to the hash HEAD had before the command; when it returns, the result
    names the command undone. *)
Theorem undo_commit_round_trip (ans : UndoCommitAnswers) (w : World G)
    (N : nat) (mode : ResetMode) :
  undo_selectedCommit ans = Some N ->
  undo_selectedMode ans = Some mode ->
  newCalls w (snd (undoLastCommit ans w)) = [ok (resetCall mode ("HEAD~" +:+ JS.show N))] ->
  getHeadHash (git w) <> EmptyString ->
  getHeadHash (git (snd (undoLastCommit ans w))) <> getHeadHash (git w) ->
  (0 <= maxActionHistory w)%Z \/ context w = false ->
  getLastUndoableAction (snd (undoLastCommit ans w)) = Some (length (heap w))
  /\ exists r,
       newCalls (snd (undoLastCommit ans w)) (snd (undoLastAction (snd (undoLastCommit ans w))))
       = [{| call := HardReset (getHeadHash (git w)); returned := r |}]
       /\ (r = true ->
           fst (undoLastAction (snd (undoLastCommit ans w)))
           = Returned {| success := true;
                         undo_message := "Undid " +:+ JS.quote
                                         +:+ ("Undo " +:+ JS.show N +:+ " commit(s) with "
                                              +:+ modeName mode +:+ " reset")
                                         +:+ JS.quote |})
       /\ (r = false ->
           exists e,
             fst (undoLastAction (snd (undoLastCommit ans w)))
             = Returned {| success := false; undo_message := "Failed to undo: " +:+ e |}).
Proof.
  intros HN Hmode Hcall Hhead Hmoved Hcap.
  destruct (undoLastCommit_run ans w)
    as [[Hrun|[[text Hrun]|(text & Hrun & _)]]|(N' & mode' & ws & HN' & Hmode' & _ & Hws & Hrun)].
  1-3: exfalso; rewrite Hrun in Hcall; unfold newCalls in Hcall;
       cbn [snd calls add_note] in Hcall; rewrite drop_all in Hcall; discriminate.
  rewrite HN in HN'. rewrite Hmode in Hmode'. injection HN' as <-. injection Hmode' as <-.
  assert (Hsame : git ws = git w /\ calls ws = calls w /\ heap ws = heap w
                  /\ actions ws = actions w /\ context ws = context w
                  /\ maxActionHistory ws = maxActionHistory w).
  { destruct Hws as [[-> _]|[[text ->] _]]; repeat split. }
  destruct Hsame as (Hgit & Hcalls & Hheap & Hact & Hctx & Hmax).
  set (c := resetCall mode ("HEAD~" +:+ JS.show N)) in *.
  set (desc := "Undo " +:+ JS.show N +:+ " commit(s) with " +:+ modeName mode +:+ " reset")
    in *.
  destruct (snd (primitive c (git w))) as [e|] eqn:Hprim.
  { exfalso. rewrite Hrun in Hcall. cbn [snd] in Hcall.
    destruct (steps_frame [failed c] undo_commit desc true ws) as (Hc & _).
    change (issued [failed c] (snd (recordAction undo_commit desc true ws)))
      with (issue (snd (recordAction undo_commit desc true ws)) (failed c)) in Hc.
    rewrite (newCalls_app w _ [failed c]) in Hcall
      by (cbn [calls add_note]; by rewrite Hc, Hcalls).
    discriminate. }
  rewrite Hrun in Hmoved |- *. cbn [snd] in Hmoved |- *. clear Hrun Hcall.
  revert Hmoved. rewrite <- Hheap. 
  destruct (bracket_closed [ok c] undo_commit desc ws)
    as (Hg1 & Hc1 & Hn1 & Hh1 & (k & Ha1 & Hk) & _).
  change (issued [ok c] (snd (recordAction undo_commit desc true ws)))
    with (issue (snd (recordAction undo_commit desc true ws)) (ok c)) in Hg1, Hc1, Hn1, Hh1, Ha1.
  set (w1 := snd (completeAction (length (heap ws))
                    (issue (snd (recordAction undo_commit desc true ws)) (ok c)))) in *.
  set (note := InformationMessage ("✓ Undid " +:+ JS.show N +:+ " commit(s) with "
                                   +:+ modeName mode +:+ " reset")).
  cbn [git add_note]. intros Hmoved.
  set (after := {| headHash := getHeadHash (replay (map call [ok c]) (git ws));
                   branch := getCurrentBranch (replay (map call [ok c]) (git ws)) |}) in *.
  set (closed := complete after (openRecord ws undo_commit desc true)) in *.
  assert (Hderef : deref (add_note note w1) (length (heap ws)) = Some closed).
  { unfold deref. cbn [heap add_note]. rewrite Hh1, lookup_app_r by lia.
    by rewrite Nat.sub_diag. }
  assert (Hundoable : undoable closed = true).
  { apply complete_undoable; [reflexivity|].
    cbn [openRecord beforeState headHash after]. rewrite <- Hg1, Hgit. congruence. }
  assert (Hlast : getLastUndoableAction (add_note note w1) = Some (length (heap ws))).
  { unfold getLastUndoableAction. cbn [actions add_note]. rewrite Ha1.
    rewrite drop_app_le by (apply Hk; rewrite Hmax, Hctx; exact Hcap).
    rewrite lastUndoableIn_app. cbn [lastUndoableIn]. unfold undoable_ref.
    by rewrite Hderef, Hundoable. }
  split; [exact Hlast|].
  assert (Hbefore : headHash (beforeState closed) = getHeadHash (git w)).
  { subst closed. destruct (complete_keeps after (openRecord ws undo_commit desc true))
      as (-> & _). cbn. by rewrite Hgit. }
  assert (Hdesc : description closed = desc).
  { subst closed. by destruct (complete_keeps after (openRecord ws undo_commit desc true))
      as (_ & -> & _). }
  unfold undoLastAction. rewrite Hlast, Hderef, Hbefore.
  destruct (String.eqb_spec (getHeadHash (git w)) EmptyString) as [Hempty|_]; [done|].
  unfold try_catch. rewrite bind_run, git_do_run.
  destruct (snd (primitive (HardReset (getHeadHash (git w))) (git (add_note note w1))))
    as [e|].
  - exists false. unfold ret. cbn [snd fst]. split; [|split; [discriminate|by exists e]].
    apply newCalls_app. reflexivity.
  - exists true. rewrite bind_run. unfold modify. rewrite bind_run.
    match goal with |- context [saveToStorage ?x] =>
      rewrite (saveToStorage_expand x);
      destruct (saveToStorage_frame x) as (_ & _ & Hcs & _) end.
    unfold ret. cbn [snd fst]. split; [|split; [by rewrite Hdesc|discriminate]].
    apply newCalls_app. rewrite Hcs. reflexivity.
Qed.

(** ** When an undo or a recovery step fails *)

Lemma lastUndoable_same_heap (w w' : World G) :
  heap w' = heap w -> actions w' = actions w ->
  getLastUndoableAction w' = getLastUndoableAction w.
Proof.
  intros Hheap Hact. unfold getLastUndoableAction. rewrite Hact.
  apply lastUndoableIn_ext, Forall_forall. intros r _.
  unfold undoable_ref, deref. by rewrite Hheap.
Qed.

(** X11. [undoLastAction] always returns a result. A failed undo consumes
    nothing: the ledger and the persisted log are what they were and the same
    record is selected by the next call; at most one primitive was issued,
    and it threw. When the selected record has no hash to go back to, no
    primitive is issued at all. *)
Theorem failed_undo_keeps_the_record (w : World G) :
  exists result,
    fst (undoLastAction w) = Returned result
    /\ (success result = false ->
        heap (snd (undoLastAction w)) = heap w
        /\ actions (snd (undoLastAction w)) = actions w
        /\ workspaceState (snd (undoLastAction w)) = workspaceState w
        /\ notes (snd (undoLastAction w)) = notes w
        /\ getLastUndoableAction (snd (undoLastAction w)) = getLastUndoableAction w
        /\ (newCalls w (snd (undoLastAction w)) = []
            /\ git (snd (undoLastAction w)) = git w
            /\ (undo_message result = "No undoable actions in history"
                \/ undo_message result = "Cannot undo: missing before state")
            \/ exists r rec e,
                 getLastUndoableAction w = Some r
                 /\ deref w r = Some rec
                 /\ newCalls w (snd (undoLastAction w))
                    = [failed (HardReset (headHash (beforeState rec)))]
                 /\ undo_message result = "Failed to undo: " +:+ e)).
Proof.
  unfold undoLastAction.
  destruct (getLastUndoableAction w) as [r|] eqn:Hlast.
  2:{ eexists. split; [reflexivity|]. intros _. cbn [snd]. do 5 (split; [done|]).
      left. unfold newCalls. rewrite drop_all. cbn. by repeat split; left. }
  destruct (deref w r) as [rec|] eqn:Hrec.
  2:{ eexists. split; [reflexivity|]. intros _. cbn [snd]. do 5 (split; [done|]).
      left. unfold newCalls. rewrite drop_all. cbn. by repeat split; left. }
  destruct (String.eqb (headHash (beforeState rec)) EmptyString).
  { eexists. split; [reflexivity|]. intros _. cbn [snd]. do 5 (split; [done|]).
    left. unfold newCalls. rewrite drop_all. cbn. by repeat split; right. }
  unfold try_catch. rewrite bind_run, git_do_run.
  destruct (snd (primitive (HardReset (headHash (beforeState rec))) (git w))) as [e|].
  - eexists. split; [reflexivity|]. intros _. unfold ret. cbn [snd].
    do 4 (split; [reflexivity|]).
    split; [rewrite <- Hlast; by apply lastUndoable_same_heap|].
    right. exists r, rec, e. do 2 (split; [done|]).
    split; [by apply newCalls_app|reflexivity].
  - rewrite bind_run. unfold modify. rewrite bind_run.
    match goal with |- context [saveToStorage ?x] => rewrite (saveToStorage_expand x) end.
    eexists. split; [reflexivity|]. discriminate.
Qed.

Lemma cherryPickCommit_run (hash : string) (w : World G) :
  let w0 := snd (recordAction undo_commit
                   ("Cherry-pick commit: " +:+ JS.substring0 7 hash) true w) in
  cherryPickCommit hash w
  = match snd (primitive (CherryPick hash) (git w)) with
    | None =>
        (Returned tt,
         add_note (InformationMessage ("✓ Cherry-picked " +:+ JS.substring0 7 hash))
           (snd (completeAction (length (heap w)) (issued [ok (CherryPick hash)] w0))))
    | Some e =>
        if mentionsConflict e
        then (Returned tt,
              add_note (WarningMessage
                          "⚠ Cherry-pick has conflicts. Resolve them and commit manually.")
                (snd (completeAction (length (heap w))
                        (issued [failed (CherryPick hash)] w0))))
        else (Thrown e, issued [failed (CherryPick hash)] w0)
    end.
Proof.
  cbv zeta. unfold cherryPickCommit. rewrite bind_run.
  unfold recordAction at 1. cbv iota beta. unfold try_catch.
  rewrite bind_run, git_do_run.
  cbn [git set_actions set_heap].
  destruct (snd (primitive (CherryPick hash) (git w))) as [e|].
  - destruct (mentionsConflict e); [|reflexivity].
    rewrite bind_run, completeAction_returns. reflexivity.
  - rewrite bind_run, completeAction_returns. reflexivity.
Qed.

(** X12. [cherryPickCommit] issues exactly one primitive, the cherry-pick of
    the hash. When it returns, the record is closed and success is shown.
    When it throws a message that contains [conflict] or [CONFLICT], the
    command still returns, shows a warning, and closes the record with the
    position the conflict left. Any other error is thrown on and leaves the
    record open, with nothing shown. *)
Theorem cherry_pick_commit_outcomes (hash : string) (w : World G) :
  let w' := snd (cherryPickCommit hash w) in
  let closed :=
    exists rec, deref w' (length (heap w)) = Some rec
                /\ description rec = "Cherry-pick commit: " +:+ JS.substring0 7 hash
                /\ afterState rec
                   = Some {| headHash := getHeadHash (git w');
                             branch := getCurrentBranch (git w') |} in
  git w' = fst (primitive (CherryPick hash) (git w))
  /\ match snd (primitive (CherryPick hash) (git w)) with
     | None =>
         fst (cherryPickCommit hash w) = Returned tt
         /\ newCalls w w' = [ok (CherryPick hash)]
         /\ newNotes w w'
            = [InformationMessage ("✓ Cherry-picked " +:+ JS.substring0 7 hash)]
         /\ closed
     | Some e =>
         newCalls w w' = [failed (CherryPick hash)]
         /\ if mentionsConflict e
            then fst (cherryPickCommit hash w) = Returned tt
                 /\ newNotes w w'
                    = [WarningMessage
                         "⚠ Cherry-pick has conflicts. Resolve them and commit manually."]
                 /\ closed
            else fst (cherryPickCommit hash w) = Thrown e
                 /\ newNotes w w' = []
                 /\ staysOpen (length (heap w)) w'
                 /\ workspaceState w' = workspaceState w
     end.
Proof.
  set (desc := "Cherry-pick commit: " +:+ JS.substring0 7 hash).
  assert (Hclosed : forall (evs : list Event) (note : Notification),
             replay (map call evs) (git w) = fst (primitive (CherryPick hash) (git w)) ->
             let w' := add_note note
                         (snd (completeAction (length (heap w))
                                 (issued evs (snd (recordAction undo_commit desc true w))))) in
             git w' = fst (primitive (CherryPick hash) (git w))
             /\ newCalls w w' = evs
             /\ newNotes w w' = [note]
             /\ exists rec, deref w' (length (heap w)) = Some rec
                            /\ description rec = desc
                            /\ afterState rec
                               = Some {| headHash := getHeadHash (git w');
                                         branch := getCurrentBranch (git w') |}).
  { intros evs note Hreplay w'.
    destruct (bracket_closed evs undo_commit desc w) as (Hg & Hc & Hn & Hh & _).
    subst w'. cbn [git add_note]. rewrite Hg.
    split; [exact Hreplay|]. split; [by apply newCalls_app|].
    split; [apply newNotes_app; cbn [notes add_note]; by rewrite Hn|].
    eexists. split.
    { unfold deref. cbn [heap add_note]. rewrite Hh, lookup_app_r by lia.
      rewrite Nat.sub_diag. reflexivity. }
    unfold complete. destruct (_ && _); cbn; by rewrite Hreplay. }
  cbv zeta. rewrite cherryPickCommit_run. fold desc.
  destruct (snd (primitive (CherryPick hash) (git w))) as [e|] eqn:Hprim.
  - destruct (mentionsConflict e).
    + cbn [fst snd].
      destruct (Hclosed [failed (CherryPick hash)]
                  (WarningMessage
                     "⚠ Cherry-pick has conflicts. Resolve them and commit manually."))
        as (H1 & H2 & H3 & H4); [reflexivity|].
      split; [exact H1|]. split; [exact H2|]. split; [reflexivity|].
      split; [exact H3|exact H4].
    + cbn [fst snd].
      destruct (steps_frame [failed (CherryPick hash)] undo_commit desc true w)
        as (Hc & Hg & Hn & Hh & _ & Hs).
      split; [exact Hg|]. split; [by apply newCalls_app|]. split; [reflexivity|].
      split; [apply newNotes_app; by rewrite app_nil_r|].
      split; [|exact Hs].
      exists (openRecord w undo_commit desc true). unfold deref.
      rewrite Hh, lookup_app_r by lia. rewrite Nat.sub_diag. by repeat split.
  - cbn [fst snd].
    destruct (Hclosed [ok (CherryPick hash)]
                (InformationMessage ("✓ Cherry-picked " +:+ JS.substring0 7 hash)))
      as (H1 & H2 & H3 & H4); [reflexivity|].
    split; [exact H1|]. split; [reflexivity|]. split; [exact H2|].
    split; [exact H3|exact H4].
Qed.

(** The world a command leaves when one of the primitives after
    [recordAction] threw: the record is open and the older records are what
    they were. *)
Lemma bracket_open (evs : list Event) (ty : ActionType) (desc : string) (w0 W : World G) :
  Forall (fun r => r < length (heap w0)) (actions w0) ->
  heap W = heap (issued evs (snd (recordAction ty desc true w0))) ->
  actions W = actions (issued evs (snd (recordAction ty desc true w0))) ->
  staysOpen (length (heap w0)) W
  /\ actions W = actions w0 ++ [length (heap w0)]
  /\ getLastUndoableAction W = getLastUndoableAction w0.
Proof.
  intros Hval Hheap Hact.
  destruct (steps_frame evs ty desc true w0) as (_ & _ & _ & Hh & Ha & _).
  rewrite Hh in Hheap. rewrite Ha in Hact.
  assert (Hopen : staysOpen (length (heap w0)) W).
  { exists (openRecord w0 ty desc true). unfold deref.
    rewrite Hheap, lookup_app_r by lia. rewrite Nat.sub_diag. by repeat split. }
  split; [exact Hopen|]. split; [exact Hact|].
  unfold getLastUndoableAction. rewrite Hact, lastUndoableIn_app.
  cbn [lastUndoableIn]. rewrite (open_not_undoable _ _ Hopen).
  apply lastUndoableIn_ext. eapply Forall_impl; [exact Hval|].
  intros r Hr. cbn beta in Hr. unfold undoable_ref, deref.
  by rewrite Hheap, lookup_app_l.
Qed.

(** X13. A move in which any primitive threw, whichever it was, leaves
    its record open and unsaved; the primitives that had returned are not
    rolled back; the error is the last message shown; and "undo" is aimed at
    the same older record as before the move, never at the move. *)
Theorem failed_move_is_not_the_undo_target (ans : MoveAnswers) (w : World G) :
  wellFormed w ->
  (exists e, e ∈ newCalls w (snd (moveCommits ans w)) /\ returned e = false) ->
  staysOpen (length (heap w)) (snd (moveCommits ans w))
  /\ actions (snd (moveCommits ans w)) = actions w ++ [length (heap w)]
  /\ getLastUndoableAction (snd (moveCommits ans w)) = getLastUndoableAction w
  /\ workspaceState (snd (moveCommits ans w)) = workspaceState w
  /\ git (snd (moveCommits ans w))
     = replay (map call (newCalls w (snd (moveCommits ans w)))) (git w)
  /\ exists text, last (notes (snd (moveCommits ans w))) = Some (ErrorMessage text).
Proof.
  intros [_ Hval] (bad & Hin & Hbad).
  destruct (moveCommits_run ans w)
    as [[Hrun|[text [Hrun|Hrun]]]|(N & sel & target & ws & HN & Hsel & Htarget & Hws & Hrun)].
  1-3: exfalso; rewrite Hrun in Hin; unfold newCalls in Hin;
       cbn [snd calls add_note] in Hin; rewrite drop_all in Hin;
       by apply elem_of_nil in Hin.
  assert (Hsame : git ws = git w /\ calls ws = calls w /\ heap ws = heap w
                  /\ actions ws = actions w /\ workspaceState ws = workspaceState w).
  { destruct Hws as [->|[text ->]]; repeat split. }
  destruct Hsame as (Hgit & Hcalls & Hheap & Hact & Hstate).
  set (w0 := snd (recordAction move_commits (moveDescription N target) true ws)).
  assert (Hfail : forall evs text,
             let W := add_note (ErrorMessage text) (issued evs w0) in
             staysOpen (length (heap w)) W
             /\ actions W = actions w ++ [length (heap w)]
             /\ getLastUndoableAction W = getLastUndoableAction w
             /\ workspaceState W = workspaceState w
             /\ git W = replay (map call (newCalls w W)) (git w)
             /\ exists text, last (notes W) = Some (ErrorMessage text)).
  { intros evs text W.
    destruct (bracket_open evs move_commits (moveDescription N target) ws W)
      as (H1 & H2 & H3); [by rewrite Hheap, Hact|reflexivity|reflexivity|].
    destruct (steps_frame evs move_commits (moveDescription N target) true ws)
      as (Hc & Hg & _ & _ & _ & Hs).
    rewrite Hheap in H1, H2. rewrite Hact in H2.
    split; [exact H1|]. split; [exact H2|].
    split; [rewrite H3; by apply lastUndoable_same_heap|].
    split; [subst W; cbn [workspaceState add_note]; fold w0 in Hs; by rewrite Hs|].
    split.
    - rewrite (newCalls_app w W evs)
        by (subst W; cbn [calls add_note]; fold w0 in Hc; by rewrite Hc, Hcalls).
      subst W. cbn [git add_note]. fold w0 in Hg. by rewrite Hg, Hgit.
    - exists text. subst W. cbn [notes add_note]. apply last_snoc. }
  rewrite Hrun in Hin |- *.
  destruct (moveSteps_run (getRecentCommits 10 (git w)) N (getCurrentBranch (git w))
              (isNew sel) target ws)
    as [[e Hsteps]|[(pre & c & post & Hsplit & Hsteps)|[[e Hsteps]|[[e Hsteps]|Hsteps]]]];
    fold (moveDescription N target) in Hsteps; fold w0 in Hsteps;
    rewrite Hsteps in Hin |- *; cbn [snd] in Hin |- *.
  1,3,4: apply Hfail.
  - unfold pickFailedNote. apply Hfail.
  - exfalso. revert Hin. rewrite Hheap.
    destruct (bracket_closed
                (ok (enterTarget (isNew sel) target (getCurrentBranch (git w)) N)
                 :: map (ok ∘ pick) (rev (take N (getRecentCommits 10 (git w))))
                 ++ [ok (CheckoutBranch (getCurrentBranch (git w)));
                     ok (HardReset ("HEAD~" +:+ JS.show N))])
                move_commits (moveDescription N target) ws) as (_ & Hc & _).
    fold w0 in Hc. rewrite Hheap in Hc.
    erewrite (newCalls_app w); [|cbn [calls add_note]; rewrite Hc, Hcalls; reflexivity].
    intros Hin. apply elem_of_cons in Hin as [Heq|Hin]; [by rewrite Heq in Hbad|].
    apply elem_of_app in Hin as [Hin|Hin].
    + apply list_elem_of_fmap in Hin as (x & Heq & _). by rewrite Heq in Hbad.
    + apply elem_of_cons in Hin as [Heq|Hin]; [by rewrite Heq in Hbad|].
      apply list_elem_of_singleton in Hin. by rewrite Hin in Hbad.
Qed.

(** ** Recovering a deleted branch *)

Lemma lookup_map_get {V} (m : JsMap V) (position : nat) (k : string) (v : V) :
  NoDup (map fst m) -> m !! position = Some (k, v) -> map_get m k = Some v.
Proof.
  revert position. induction m as [|[k' v'] m IH]; intros position Hnd Hlook.
  - destruct position; discriminate Hlook.
  - cbn [map fst] in Hnd. apply NoDup_cons in Hnd as [Hnew Hnd]. cbn [map_get].
    destruct position as [|position].
    + injection Hlook as -> ->. by rewrite String.eqb_refl.
    + cbn in Hlook. destruct (String.eqb_spec k' k) as [->|_]; [|by eapply IH].
      exfalso. apply Hnew. apply list_elem_of_fmap. exists (k, v). split; [reflexivity|].
      by eapply list_elem_of_lookup_2.
Qed.

Lemma deleted_keys_NoDup (reflog : list ReflogEntry) (existing : list string) :
  NoDup (map fst (deletedBranches reflog existing)).
Proof.
  unfold deletedBranches. rewrite scan_keys. cbn [map app].
  pose proof (keepFirst_NoDup (fun name : string => name) []
                (List.filter (listable existing) (map fromBranch (branchMoves reflog)))) as H.
  by rewrite map_id in H.
Qed.

(** What is known of an item of the menu of [recoverBranch]. *)
Lemma picked_branch (reflog : list ReflogEntry) (existing : list string) (position : nat)
    (name hash msg : string) :
  deletedBranches reflog existing !! position = Some (name, (hash, msg)) ->
  JS.array_includes existing name = false
  /\ (length reflog =? 0) = false
  /\ (length (deletedBranches reflog existing) =? 0) = false
  /\ exists entry, newestMoveFrom name reflog = Some entry
                   /\ hash = entry_hash entry /\ msg = entry_message entry.
Proof.
  intros Hlook.
  pose proof (lookup_map_get _ _ _ _ (deleted_keys_NoDup reflog existing) Hlook) as Hget.
  rewrite deletedBranches_get in Hget.
  destruct (listable existing name) eqn:Hlistable; [|discriminate Hget].
  unfold listable in Hlistable.
  apply andb_true_iff in Hlistable as [[Hnew _]%andb_true_iff _].
  apply negb_true_iff in Hnew. split; [exact Hnew|]. split; [|split].
  - destruct reflog; [|reflexivity]. destruct position; discriminate Hlook.
  - destruct (deletedBranches reflog existing); [|reflexivity].
    destruct position; discriminate Hlook.
  - destruct (newestMoveFrom name reflog) as [entry|]; [|discriminate Hget].
    injection Hget as Hhash Hmsg. by exists entry.
Qed.

(** the end of [recoverBranch]: the answer to the final message *)
Lemma recoverBranch_picked (ans : RecoverAnswers) (w : World G) (position : nat)
    (name hash msg : string) :
  deletedBranches (getReflog 100 (git w)) (getBranches (git w)) !! position
  = Some (name, (hash, msg)) ->
  recover_selectedBranch ans = Some position ->
  let desc := "Recovered branch " +:+ JS.quote +:+ name +:+ JS.quote +:+ " from "
              +:+ JS.substring0 7 hash in
  let w0 := snd (recordAction recover_branch desc true w) in
  let recovered := recoverBranchFromReflog name hash (git w) in
  recoverBranch ans w
  = if validBranchName name then
      match snd recovered with
      | Some e =>
          (Returned tt,
           add_note (ErrorMessage ("✗ Git Panic: Failed to recover branch: " +:+ e))
                    (set_git (fst recovered) w0))
      | None =>
          try_catch
            (match recover_switchToBranch ans with
             | Some label =>
                 if String.eqb label "Switch to Branch"
                 then git_do (CheckoutBranch (Some name)) ;;;
                      showSuccess ("Switched to " +:+ name)
                 else stayOnBranch
             | None => stayOnBranch
             end)
            (fun e => showError ("Failed to recover branch: " +:+ e))
            (add_note (InformationMessage
                         ("Branch " +:+ JS.quote +:+ name +:+ JS.quote
                          +:+ " recovered successfully!"))
               (snd (completeAction (length (heap w)) (set_git (fst recovered) w0))))
      end
    else (Returned tt,
          add_note (ErrorMessage ("Cannot proceed:" +:+ JS.nl
                                  +:+ "Branch name contains invalid characters")) w).
Proof.
  intros Hlook Hpick. cbv zeta.
  destruct (picked_branch _ _ _ _ _ _ Hlook) as (Hnew & Hreflog & Hdeleted & _).
  unfold recoverBranch, try_catch. rewrite bind_run. unfold query, gets.
  rewrite Hreflog, bind_run, Hdeleted, Hpick, Hlook, Hnew, !bind_run.
  unfold checkBeforeBranchCreate, showSafetyWarnings. rewrite Hnew.
  destruct (validBranchName name); cbn [negb app length Nat.eqb safe warnings blockers Nat.ltb Nat.leb].
  2:{ rewrite bind_run. reflexivity. }
  unfold ret at 1. cbn [negb]. rewrite bind_run.
  unfold recordAction at 1. cbv iota beta. rewrite bind_run.
  unfold git_recover at 1. cbn [git set_actions set_heap].
  destruct (recoverBranchFromReflog name hash (git w)) as [g' [e|]]; cbn [fst snd].
  - reflexivity.
  - rewrite bind_run, completeAction_returns, bind_run. unfold modify at 1. reflexivity.
Qed.

Lemma recoverBranch_not_picked (ans : RecoverAnswers) (w : World G) :
  match recover_selectedBranch ans with
  | Some position =>
      deletedBranches (getReflog 100 (git w)) (getBranches (git w)) !! position = None
  | None => True
  end ->
  recoverBranch ans w
  = if length (getReflog 100 (git w)) =? 0
    then (Returned tt, add_note (ErrorMessage "✗ Git Panic: No reflog entries found") w)
    else if length (deletedBranches (getReflog 100 (git w)) (getBranches (git w))) =? 0
         then (Returned tt,
               add_note (ErrorMessage
                           "✗ Git Panic: No recently deleted branches found in reflog") w)
         else (Returned tt, w).
Proof.
  intros Hnone. unfold recoverBranch, try_catch. rewrite bind_run. unfold query, gets.
  destruct (length (getReflog 100 (git w)) =? 0); [reflexivity|].
  rewrite bind_run.
  destruct (length (deletedBranches (getReflog 100 (git w)) (getBranches (git w))) =? 0);
    [reflexivity|].
  destruct (recover_selectedBranch ans) as [position|]; [|reflexivity].
  by rewrite Hnone.
Qed.

(** the last step of [recoverBranch] touches neither the ledger nor the
    messages already shown, and what it throws is reported *)
Lemma final_choice_frame (name : string) (switchToBranch : option string) (W : World G) :
  let final :=
    try_catch
      (match switchToBranch with
       | Some label =>
           if String.eqb label "Switch to Branch"
           then git_do (CheckoutBranch (Some name)) ;;; showSuccess ("Switched to " +:+ name)
           else stayOnBranch
       | None => stayOnBranch
       end)
      (fun e => showError ("Failed to recover branch: " +:+ e)) W in
  fst final = Returned tt
  /\ heap (snd final) = heap W
  /\ actions (snd final) = actions W
  /\ workspaceState (snd final) = workspaceState W
  /\ (exists shown, notes (snd final) = notes W ++ shown)
  /\ (exists evs, calls (snd final) = calls W ++ evs
                  /\ git (snd final) = replay (map call evs) (git W)).
Proof.
  assert (Hdo : forall c (k : M G unit),
             (forall W', k W' = (Returned tt, add_note (InformationMessage
                                                          ("✓ Switched to " +:+ name)) W')
                         \/ k W' = (Returned tt, W')) ->
             let final := try_catch (git_do c ;;; k)
                            (fun e => showError ("Failed to recover branch: " +:+ e)) W in
             fst final = Returned tt
             /\ heap (snd final) = heap W
             /\ actions (snd final) = actions W
             /\ workspaceState (snd final) = workspaceState W
             /\ (exists shown, notes (snd final) = notes W ++ shown)
             /\ (exists evs, calls (snd final) = calls W ++ evs
                             /\ git (snd final) = replay (map call evs) (git W))).
  { intros c k Hk. cbv zeta. unfold try_catch. rewrite bind_run, git_do_run.
    destruct (snd (primitive c (git W))) as [e|].
    - cbn. do 4 (split; [reflexivity|]). split; [by eexists|].
      exists [failed c]. by split.
    - destruct (Hk (issue W (ok c))) as [-> | ->]; cbn;
        (do 4 (split; [reflexivity|])); (split; [first [by eexists|exists []; by rewrite app_nil_r]|]);
        exists [ok c]; by split. }
  assert (Hstay : let final := try_catch stayOnBranch
                                 (fun e => showError ("Failed to recover branch: " +:+ e)) W in
                  fst final = Returned tt
                  /\ heap (snd final) = heap W
                  /\ actions (snd final) = actions W
                  /\ workspaceState (snd final) = workspaceState W
                  /\ (exists shown, notes (snd final) = notes W ++ shown)
                  /\ (exists evs, calls (snd final) = calls W ++ evs
                                  /\ git (snd final) = replay (map call evs) (git W))).
  { cbv zeta. unfold stayOnBranch, try_catch. rewrite bind_run. unfold query, gets.
    assert (Hnothing : fst (Returned tt, W) = Returned tt
                       /\ heap W = heap W /\ actions W = actions W
                       /\ workspaceState W = workspaceState W
                       /\ (exists shown : list Notification, notes W = notes W ++ shown)
                       /\ (exists evs : list Event,
                             calls W = calls W ++ evs
                             /\ git W = replay (map call evs) (git W))).
    { do 4 (split; [reflexivity|]).
      split; exists []; [by rewrite app_nil_r|split; [by rewrite app_nil_r|reflexivity]]. }
    destruct (getCurrentBranch (git W)) as [current|]; [|exact Hnothing].
    destruct (String.eqb current EmptyString); [exact Hnothing|].
    rewrite git_do_run.
    destruct (snd (primitive (CheckoutBranch (Some current)) (git W))) as [e|]; cbn;
      (do 4 (split; [reflexivity|])); (split; [first [by eexists|exists []; by rewrite app_nil_r]|]);
      eexists [_]; by split. }
  cbv zeta. destruct switchToBranch as [label|]; [|exact Hstay].
  destruct (String.eqb label "Switch to Branch"); [|exact Hstay].
  apply Hdo. intros W'. left. reflexivity.
Qed.

(** X14. A deleted branch whose name has a character outside
    [[a-zA-Z0-9/_-]] (a dot, say) is offered by [recoverBranch] but cannot be
    recovered: whatever the other answers are, picking it shows "Cannot
    proceed" with the blocker of the name check and changes nothing else: no
    record, no primitive, the repository untouched. *)
Theorem invalid_name_is_never_recovered (ans : RecoverAnswers) (w : World G)
    (position : nat) (name hash msg : string) :
  deletedBranches (getReflog 100 (git w)) (getBranches (git w)) !! position
  = Some (name, (hash, msg)) ->
  recover_selectedBranch ans = Some position ->
  validBranchName name = false ->
  recoverBranch ans w
  = (Returned tt,
     add_note (ErrorMessage ("Cannot proceed:" +:+ JS.nl
                             +:+ "Branch name contains invalid characters")) w).
Proof.
  intros Hlook Hpick Hname.
  rewrite (recoverBranch_picked ans w position name hash msg Hlook Hpick).
  by rewrite Hname.
Qed.

(** X15. Picking a deleted branch with a valid name re-creates it under
    that name at the hash of the newest reflog entry that leaves it. When the
    primitive returns, the command returns, the record of type
    [recover_branch] is closed with the positions before and after the
    recovery, and the first message shown announces the recovery, whatever
    the final choice does; with "Switch to Branch" the one primitive logged is
    the checkout of the branch, and if that throws, the last message reports a
    failed recovery although the branch exists and the record is closed. *)
Theorem recovered_branch_is_recorded (ans : RecoverAnswers) (w : World G)
    (position : nat) (name hash msg : string) :
  deletedBranches (getReflog 100 (git w)) (getBranches (git w)) !! position
  = Some (name, (hash, msg)) ->
  recover_selectedBranch ans = Some position ->
  validBranchName name = true ->
  snd (recoverBranchFromReflog name hash (git w)) = None ->
  let recovered := fst (recoverBranchFromReflog name hash (git w)) in
  let w' := snd (recoverBranch ans w) in
  fst (recoverBranch ans w) = Returned tt
  /\ (exists entry, newestMoveFrom name (getReflog 100 (git w)) = Some entry
                    /\ hash = entry_hash entry)
  /\ (exists closed,
        deref w' (length (heap w)) = Some closed
        /\ type closed = recover_branch
        /\ beforeState closed
           = {| headHash := getHeadHash (git w); branch := getCurrentBranch (git w) |}
        /\ afterState closed
           = Some {| headHash := getHeadHash recovered;
                     branch := getCurrentBranch recovered |})
  /\ head (newNotes w w')
     = Some (InformationMessage ("Branch " +:+ JS.quote +:+ name +:+ JS.quote
                                 +:+ " recovered successfully!"))
  /\ git w' = replay (map call (newCalls w w')) recovered
  /\ (recover_switchToBranch ans = Some "Switch to Branch" ->
      match snd (primitive (CheckoutBranch (Some name)) recovered) with
      | None =>
          newCalls w w' = [ok (CheckoutBranch (Some name))]
          /\ last (notes w') = Some (InformationMessage ("✓ Switched to " +:+ name))
      | Some e =>
          newCalls w w' = [failed (CheckoutBranch (Some name))]
          /\ last (notes w')
             = Some (ErrorMessage ("✗ Git Panic: Failed to recover branch: " +:+ e))
      end).
Proof.
  intros Hlook Hpick Hname Hrecovered. cbv zeta.
  destruct (picked_branch _ _ _ _ _ _ Hlook) as (_ & _ & _ & entry & Hentry & Hhash & _).
  rewrite (recoverBranch_picked ans w position name hash msg Hlook Hpick).
  rewrite Hname, Hrecovered.
  set (desc := "Recovered branch " +:+ JS.quote +:+ name +:+ JS.quote +:+ " from "
               +:+ JS.substring0 7 hash).
  set (g1 := fst (recoverBranchFromReflog name hash (git w))).
  set (W1 := set_git g1 (snd (recordAction recover_branch desc true w))).
  set (note := InformationMessage ("Branch " +:+ JS.quote +:+ name +:+ JS.quote
                                   +:+ " recovered successfully!")).
  set (W2 := add_note note (snd (completeAction (length (heap w)) W1))).
  assert (Hopen : deref W1 (length (heap w)) = Some (openRecord w recover_branch desc true))
    by apply (recordAction_deref recover_branch desc true w).
  pose proof (completeAction_deref _ _ W1 Hopen) as Hclosed.
  destruct (completeAction_frame (length (heap w)) W1) as (Hg2 & Hc2 & Hn2).
  destruct (final_choice_frame name (recover_switchToBranch ans) W2)
    as (Hret & Hheap & _ & _ & (shown & Hnotes) & (evs & Hcalls & Hgit)).
  cbv zeta in Hret, Hheap, Hnotes, Hcalls, Hgit.
  split; [exact Hret|]. split; [by exists entry|]. split; [|split; [|split]].
  - eexists. split; [unfold deref; rewrite Hheap; exact Hclosed|].
    unfold complete. destruct (_ && _); by repeat split.
  - unfold newNotes. rewrite Hnotes. subst W2. cbn [notes add_note]. rewrite Hn2.
    subst W1. cbn [notes set_git recordAction snd set_actions set_heap].
    by rewrite <- !app_assoc, drop_app_length.
  - rewrite (newCalls_app w _ evs); [rewrite Hgit; subst W2; cbn [git add_note]; by rewrite Hg2|].
    rewrite Hcalls. subst W2. cbn [calls add_note]. by rewrite Hc2.
  - intros Hswitch. rewrite Hswitch. cbn [String.eqb Ascii.eqb Bool.eqb].
    unfold try_catch. rewrite bind_run, git_do_run.
    assert (HgW2 : git W2 = g1) by (subst W2; cbn [git add_note]; by rewrite Hg2).
    assert (HcW2 : calls W2 = calls w) by (subst W2; cbn [calls add_note]; by rewrite Hc2).
    rewrite HgW2. clearbody W2 g1.
    destruct (snd (primitive (CheckoutBranch (Some name)) g1)) as [e|]; cbn [snd].
    + split; [apply newCalls_app; cbn; by rewrite HcW2|]. cbn. apply last_snoc.
    + split; [apply newCalls_app; cbn; by rewrite HcW2|]. cbn. apply last_snoc.
Qed.

(** X16. The picked name is never the name of an existing branch, so the
    prompt for a new name is never shown, and the name check of a picked
    branch never produces a warning to confirm: [recoverBranch] does the same
    whatever would be answered to them. *)
Theorem recover_prompts_are_never_shown (ans ans' : RecoverAnswers) (w : World G) :
  recover_selectedBranch ans = recover_selectedBranch ans' ->
  recover_switchToBranch ans = recover_switchToBranch ans' ->
  recoverBranch ans w = recoverBranch ans' w
  /\ forall position name info,
       deletedBranches (getReflog 100 (git w)) (getBranches (git w)) !! position
       = Some (name, info) ->
       JS.array_includes (getBranches (git w)) name = false
       /\ warnings (checkBeforeBranchCreate name (git w)) = [].
Proof.
  intros Hsel Hswitch. split.
  - destruct (recover_selectedBranch ans) as [position|] eqn:Hpick.
    + destruct (deletedBranches (getReflog 100 (git w)) (getBranches (git w)) !! position)
        as [[name [hash msg]]|] eqn:Hlook.
      * rewrite (recoverBranch_picked ans w position name hash msg Hlook Hpick).
        rewrite (recoverBranch_picked ans' w position name hash msg Hlook (eq_sym Hsel)).
        by rewrite Hswitch.
      * rewrite (recoverBranch_not_picked ans), (recoverBranch_not_picked ans');
          [reflexivity|by rewrite <- Hsel|by rewrite Hpick].
    + rewrite (recoverBranch_not_picked ans), (recoverBranch_not_picked ans');
        [reflexivity|by rewrite <- Hsel|by rewrite Hpick].
  - intros position name [hash msg] Hlook.
    destruct (picked_branch _ _ _ _ _ _ Hlook) as (Hnew & _). by split.
Qed.

End MoreProperties.

(** ** The menu of an operation in progress *)

Lemma includes_skip (c : ascii) (rest s t : string) :
  lacks c s = true ->
  JS.includes (s +:+ t) (String c rest) = JS.includes t (String c rest).
Proof.
  induction s as [|a s IH]; [reflexivity|].
  unfold lacks. cbn [list_ascii_of_string forallb]. intros [Ha Hs]%andb_true_iff.
  change (String a s +:+ t) with (String a (s +:+ t)).
  cbn [JS.includes String.prefix].
  destruct (ascii_dec c a) as [->|_]; [by rewrite Ascii.eqb_refl in Ha|].
  cbn [orb]. by apply IH.
Qed.

Lemma digits_lack (c : ascii) (s : string) :
  (48 <=? nat_of_ascii c) && (nat_of_ascii c <=? 57) = false ->
  digits s = true -> lacks c s = true.
Proof.
  intros Hc. unfold digits, lacks. rewrite !forallb_forall. intros Hall a Ha.
  specialize (Hall a Ha). destruct (Ascii.eqb_spec a c) as [->|_]; [congruence|reflexivity].
Qed.

Lemma pretty_N_go_digits (x : N) (s : string) :
  digits s = true -> digits (pretty_N_go x s) = true.
Proof.
  revert s. induction (N.lt_wf_0 x) as [x _ IH]. intros s Hs.
  destruct (decide (x = 0)%N) as [->|Hx]; [by rewrite pretty_N_go_0|].
  rewrite pretty_N_go_step by lia. apply IH; [apply N.div_lt; lia|].
  unfold digits. cbn [list_ascii_of_string forallb]. apply andb_true_iff. split; [|exact Hs].
  unfold pretty_N_char. by repeat case_match.
Qed.

Lemma show_digits (n : nat) : digits (JS.show n) = true.
Proof.
  unfold JS.show, pretty, pretty_nat, pretty, pretty_N.
  destruct (decide (N.of_nat n = 0)%N); [reflexivity|]. by apply pretty_N_go_digits.
Qed.

Lemma viewItem_handler (conflictedFiles : list string) :
  chosenHandler (viewItem conflictedFiles) = Some RunView.
Proof.
  unfold chosenHandler, viewItem. cbn [item_label].
  pose proof (show_digits (length conflictedFiles)) as Hdigits.
  generalize dependent (JS.show (length conflictedFiles)). intros d Hdigits.
  rewrite (includes_skip "A" "bort" "$(warning) View ") by (vm_compute; reflexivity).
  rewrite (includes_skip "A" "bort" d) by (by apply digits_lack).
  rewrite (includes_skip "C" "ontinue" "$(warning) View ") by (vm_compute; reflexivity).
  rewrite (includes_skip "C" "ontinue" d) by (by apply digits_lack).
  vm_compute. reflexivity.
Qed.

(** X17. Every item of the menu of [abortOperation] leads to its own
    handler, although the handler is chosen by a substring of the label.
    "Continue" is reached only for an operation that can be continued and only
    when no file is in conflict, so never for a bisect; "View" only when some
    file is in conflict. *)
Theorem abort_menu_routes_each_item
    (operation : OngoingOperation) (conflictedFiles : list string) (selected : QuickPickItem) :
  selected ∈ abortOptions operation conflictedFiles ->
  match chosenHandler selected with
  | Some RunAbort => selected = abortItem operation
  | Some RunContinue =>
      selected = continueItem operation /\ operation <> bisect /\ conflictedFiles = []
  | Some RunView => selected = viewItem conflictedFiles /\ conflictedFiles <> []
  | None => False
  end.
Proof.
  unfold abortOptions. intros [Habort|[Hcontinue|Hview]%elem_of_app]%elem_of_app.
  - destruct (canAbort operation); [|by apply elem_of_nil in Habort].
    apply list_elem_of_singleton in Habort as ->. by destruct operation.
  - destruct (canContinue operation) eqn:Hcan; [|by apply elem_of_nil in Hcontinue].
    destruct conflictedFiles as [|file files]; [|by apply elem_of_nil in Hcontinue].
    apply list_elem_of_singleton in Hcontinue as ->.
    destruct operation; [vm_compute; by repeat split..|discriminate Hcan].
  - destruct conflictedFiles as [|file files]; [by apply elem_of_nil in Hview|].
    apply list_elem_of_singleton in Hview as ->.
    by rewrite viewItem_handler.
Qed.

(** * The further properties on concrete sessions *)

Lemma valid_names_are_parsed_back_witness :
  validBranchName "feature/login" = true
  /\ validBranchName "main" = true
  /\ matchMove "checkout: moving from feature/login to main" = Some ("feature/login", "main").
Proof.
  assert (HA : validBranchName "feature/login" = true) by (vm_compute; reflexivity).
  assert (HB : validBranchName "main" = true) by (vm_compute; reflexivity).
  split; [exact HA|]. split; [exact HB|].
  exact (valid_names_are_parsed_back "feature/login" "main" HA HB).
Defined.

Lemma saved_history_is_reloaded_witness :
  context threeActionsWorld = true
  /\ map description
       (history (snd (initialize (newSession (snd (saveToStorage threeActionsWorld))))))
     = ["B"; "C"].
Proof.
  assert (Hctx : context threeActionsWorld = true) by (vm_compute; reflexivity).
  split; [exact Hctx|].
  destruct (saved_history_is_reloaded threeActionsWorld Hctx) as (-> & _).
  vm_compute. reflexivity.
Defined.

Lemma recent_actions_newest_first_witness :
  (1 <= 1)%Z
  /\ getRecentActions 1 threeActionsWorld = [2]
  /\ getLastAction threeActionsWorld = Some 2.
Proof.
  assert (Hcount : (1 <= 1)%Z) by lia.
  split; [exact Hcount|].
  destruct (recent_actions_newest_first 1 threeActionsWorld Hcount) as (-> & _ & <-).
  split; vm_compute; reflexivity.
Defined.

Lemma risky_reset_needs_consent_witness :
  hasUncommittedChanges mergingRepo = true
  /\ newCalls (freshWorld mergingRepo 50) (snd (undoLastCommit undoOneHard (freshWorld mergingRepo 50)))
     = []
  /\ heap (snd (undoLastCommit undoOneHard (freshWorld mergingRepo 50))) = [].
Proof.
  assert (Hdirty : hasUncommittedChanges mergingRepo = true) by reflexivity.
  split; [exact Hdirty|].
  destruct (risky_reset_needs_consent undoOneHard (freshWorld mergingRepo 50) 1 hard
              eq_refl eq_refl (or_introl (conj eq_refl Hdirty)) ltac:(discriminate))
    as (Hcalls & _ & Hheap & _).
  split; [exact Hcalls|exact Hheap].
Defined.

Lemma undo_commit_round_trip_witness :
  newCalls (freshWorld mainRepo 50) (snd (undoLastCommit undoTwoHard (freshWorld mainRepo 50)))
  = [ok (HardReset "HEAD~2")]
  /\ getLastUndoableAction (snd (undoLastCommit undoTwoHard (freshWorld mainRepo 50))) = Some 0
  /\ newCalls (snd (undoLastCommit undoTwoHard (freshWorld mainRepo 50)))
              (snd (undoLastAction (snd (undoLastCommit undoTwoHard (freshWorld mainRepo 50)))))
     = [ok (HardReset "e5e5e5e5e5")].
Proof.
  assert (Hcall : newCalls (freshWorld mainRepo 50)
                    (snd (undoLastCommit undoTwoHard (freshWorld mainRepo 50)))
                  = [ok (resetCall hard ("HEAD~" +:+ JS.show 2))])
    by (vm_compute; reflexivity).
  split; [vm_compute; reflexivity|].
  destruct (undo_commit_round_trip undoTwoHard (freshWorld mainRepo 50) 2 hard
              eq_refl eq_refl Hcall)
    as (Hlast & r & Hundo & _).
  - discriminate.
  - vm_compute. discriminate.
  - left. vm_compute. discriminate.
  - split; [exact Hlast|]. vm_compute. reflexivity.
Defined.

Lemma failed_move_is_not_the_undo_target_witness :
  wellFormed oneActionWorld
  /\ failed (CherryPick "d4d4d4d4d4")
       ∈ newCalls oneActionWorld (snd (moveCommits moveTwoToNew oneActionWorld))
  /\ getLastUndoableAction oneActionWorld = Some 0
  /\ getLastUndoableAction (snd (moveCommits moveTwoToNew oneActionWorld)) = Some 0.
Proof.
  assert (Hwf : wellFormed oneActionWorld).
  { split; [apply (bool_decide_unpack _); vm_compute; exact I|].
    vm_compute. repeat constructor. }
  assert (Hin : failed (CherryPick "d4d4d4d4d4")
                  ∈ newCalls oneActionWorld (snd (moveCommits moveTwoToNew oneActionWorld))).
  { apply list_elem_of_In. vm_compute. right. left. reflexivity. }
  split; [exact Hwf|]. split; [exact Hin|].
  destruct (failed_move_is_not_the_undo_target moveTwoToNew oneActionWorld Hwf
              (ex_intro _ (failed (CherryPick "d4d4d4d4d4")) (conj Hin eq_refl)))
    as (_ & _ & -> & _).
  split; vm_compute; reflexivity.
Defined.

Lemma invalid_name_is_never_recovered_witness :
  deletedBranches (getReflog 100 recoveryRepo) (getBranches recoveryRepo) !! 1
  = Some ("release-1.0", ("3333333", "checkout: moving from release-1.0 to feature/login"))
  /\ validBranchName "release-1.0" = false
  /\ snd (recoverBranch pickRelease (freshWorld recoveryRepo 50))
     = add_note (ErrorMessage ("Cannot proceed:" +:+ JS.nl
                               +:+ "Branch name contains invalid characters"))
                (freshWorld recoveryRepo 50).
Proof.
  assert (Hlook : deletedBranches (getReflog 100 (git (freshWorld recoveryRepo 50)))
                                  (getBranches (git (freshWorld recoveryRepo 50))) !! 1
                  = Some ("release-1.0",
                          ("3333333", "checkout: moving from release-1.0 to feature/login")))
    by (vm_compute; reflexivity).
  assert (Hname : validBranchName "release-1.0" = false) by (vm_compute; reflexivity).
  split; [exact Hlook|]. split; [exact Hname|].
  by rewrite (invalid_name_is_never_recovered pickRelease (freshWorld recoveryRepo 50) 1
                "release-1.0" "3333333" "checkout: moving from release-1.0 to feature/login"
                Hlook eq_refl Hname).
Defined.

Lemma recovered_branch_is_recorded_witness :
  deletedBranches (getReflog 100 recoveryRepo) (getBranches recoveryRepo) !! 0
  = Some ("feature/login", ("2222222", "checkout: moving from feature/login to main"))
  /\ fst (recoverBranch pickLogin (freshWorld recoveryRepo 50)) = Returned tt
  /\ getBranches (git (snd (recoverBranch pickLogin (freshWorld recoveryRepo 50))))
     = ["main"; "feature/login"]
  /\ getCurrentBranch (git (snd (recoverBranch pickLogin (freshWorld recoveryRepo 50))))
     = Some "feature/login".
Proof.
  assert (Hlook : deletedBranches (getReflog 100 (git (freshWorld recoveryRepo 50)))
                                  (getBranches (git (freshWorld recoveryRepo 50))) !! 0
                  = Some ("feature/login",
                          ("2222222", "checkout: moving from feature/login to main")))
    by (vm_compute; reflexivity).
  split; [exact Hlook|].
  destruct (recovered_branch_is_recorded pickLogin (freshWorld recoveryRepo 50) 0
              "feature/login" "2222222" "checkout: moving from feature/login to main"
              Hlook eq_refl)
    as (Hret & _ & _ & _ & Hgit & _).
  - vm_compute. reflexivity.
  - reflexivity.
  - split; [exact Hret|]. rewrite Hgit. split; vm_compute; reflexivity.
Defined.

Lemma recover_prompts_are_never_shown_witness :
  recoverBranch pickLogin (freshWorld recoveryRepo 50)
  = recoverBranch pickLoginRenamed (freshWorld recoveryRepo 50).
Proof.
  exact (proj1 (recover_prompts_are_never_shown pickLogin pickLoginRenamed
                  (freshWorld recoveryRepo 50) eq_refl eq_refl)).
Defined.

Lemma abort_menu_routes_each_item_witness :
  viewItem ["notes.txt"] ∈ abortOptions merge ["notes.txt"]
  /\ chosenHandler (viewItem ["notes.txt"]) = Some RunView
  /\ continueItem merge ∉ abortOptions merge ["notes.txt"].
Proof.
  assert (Hin : viewItem ["notes.txt"] ∈ abortOptions merge ["notes.txt"]).
  { apply list_elem_of_In. vm_compute. right. left. reflexivity. }
  split; [exact Hin|].
  pose proof (abort_menu_routes_each_item merge ["notes.txt"] (viewItem ["notes.txt"]) Hin)
    as Hroute.
  split; [vm_compute; reflexivity|].
  intros Hcontinue.
  pose proof (abort_menu_routes_each_item merge ["notes.txt"] (continueItem merge) Hcontinue)
    as Hbad.
  vm_compute in Hbad. by destruct Hbad as (_ & _ & Hnone).
Defined.
